(** * or-models: the OpenRouter model explorer, embedded in Rocq

    A shallow embedding of [src/or-models.ts] and [src/schemas.ts]:
    the zod schemas, the fetch / cache / stale-fallback orchestration,
    the filter and sort engines and the table renderer, followed by the
    properties of the specification that concern them.

    Conventions of the embedding.
    - A JavaScript number is an IEEE-754 binary64 value, [spec_float] at
      precision 53 and maximal exponent 1024, with the correctly rounded
      operations of [SpecFloat].
    - A JavaScript string is the list of its UTF-16 code units.
    - A promise that rejects, an exception and [Deno.exit] are the three
      abrupt completions of [Completion]. *)

From Stdlib Require Import ZArith NArith List Bool String Ascii Lia.
From Stdlib Require Import Permutation Sorted.
From Stdlib Require Import Floats.SpecFloat.
From Stdlib Require DecimalString.
Import ListNotations.

Set Implicit Arguments.
Set Warnings "-register-all".
Local Open Scope Z_scope.

(** ** Strings *)

Definition jsstring := list N.

(** A literal of the source, written with Rocq's string notation. *)
Definition str (s : string) : jsstring :=
  map N_of_ascii (list_ascii_of_string s).

Definition jsstring_eqb (s t : jsstring) : bool :=
  if list_eq_dec N.eq_dec s t then true else false.

(** ** Numbers *)

Definition number := spec_float.

Definition prec : Z := 53.
Definition emax : Z := 1024.

Definition NaN : number := S754_nan.
Definition pos_zero : number := S754_zero false.

(** The number nearest to an integer. *)
Definition of_Z (z : Z) : number := binary_normalize prec emax z 0 false.

(** [Number.MAX_SAFE_INTEGER], 2^53 - 1. *)
Definition MAX_SAFE_INTEGER : number := of_Z (2 ^ 53 - 1).

(** [a === b], [a < b], [a > b], [a >= b], [a <= b] on numbers. *)
Definition num_eq (a b : number) : bool := SFeqb a b.
Definition num_lt (a b : number) : bool := SFltb a b.
Definition num_gt (a b : number) : bool := SFltb b a.
Definition num_le (a b : number) : bool := SFleb a b.
Definition num_ge (a b : number) : bool := SFleb b a.

Definition num_mul (a b : number) : number := SFmul prec emax a b.
Definition num_div (a b : number) : number := SFdiv prec emax a b.
Definition num_sub (a b : number) : number := SFsub prec emax a b.

Definition is_nan (a : number) : bool :=
  match a with S754_nan => true | _ => false end.

(** [Number.isInteger]. *)
Definition Number_isInteger (x : number) : bool :=
  match x with
  | S754_zero _ => true
  | S754_finite _ m e =>
      (0 <=? e) || (Z.land (Zpos m) (Z.ones (- e)) =? 0)
  | _ => false
  end.

(** [Number.isSafeInteger]: an integer from -(2^53 - 1) to 2^53 - 1. *)
Definition Number_isSafeInteger (x : number) : bool :=
  Number_isInteger x && num_le (SFabs x) MAX_SAFE_INTEGER.

(** ** Decoded JSON *)

Inductive json : Type :=
| JNull
| JBool (b : bool)
| JNumber (x : number)
| JString (s : jsstring)
| JArray (items : list json)
| JObject (props : list (jsstring * json)).

(** Property read [o[k]]: [None] stands for [undefined]. *)
Fixpoint get_prop (props : list (jsstring * json)) (k : jsstring) : option json :=
  match props with
  | [] => None
  | (k', v) :: rest => if jsstring_eqb k' k then Some v else get_prop rest k
  end.

(** ** The zod combinators the schemas use

    A schema is its [parse]: the validated value, or [None] where zod
    throws a [ZodError].  Objects are stripped to the declared keys.

    The two modules of the repository do not load the same zod:
    [schemas.ts] imports release 3.23.8, [or-models.ts] imports
    [npm:zod] without a version, which resolves to zod 4.  The
    combinators below are those of 3.23.8; of the ones the schemas use,
    zod 4 changed [z.number().int()], given in [Zod4]. *)

Module Zod.

Definition schema (T : Type) := json -> option T.

Definition string : schema jsstring :=
  fun j => match j with JString s => Some s | _ => None end.

Definition boolean : schema bool :=
  fun j => match j with JBool b => Some b | _ => None end.

(** [z.number().int()]: [Number.isInteger] holds. *)
Definition number_int : schema number :=
  fun j => match j with
           | JNumber x => if Number_isInteger x then Some x else None
           | _ => None
           end.

Definition unknown : schema json := fun j => Some j.

Definition nullable {T} (s : schema T) : schema (option T) :=
  fun j => match j with
           | JNull => Some None
           | _ => option_map Some (s j)
           end.

Fixpoint parse_all {T} (s : schema T) (items : list json) : option (list T) :=
  match items with
  | [] => Some []
  | j :: rest =>
      match s j, parse_all s rest with
      | Some v, Some vs => Some (v :: vs)
      | _, _ => None
      end
  end.

Definition array {T} (s : schema T) : schema (list T) :=
  fun j => match j with JArray items => parse_all s items | _ => None end.

Fixpoint parse_entries {T} (s : schema T) (props : list (jsstring * json))
  : option (list (jsstring * T)) :=
  match props with
  | [] => Some []
  | (k, j) :: rest =>
      match s j, parse_entries s rest with
      | Some v, Some vs => Some ((k, v) :: vs)
      | _, _ => None
      end
  end.

(** [z.record(z.string(), s)] and, in zod 3, [z.record(s)] *)
Definition record {T} (s : schema T) : schema (list (jsstring * T)) :=
  fun j => match j with JObject props => parse_entries s props | _ => None end.

(** A key of a [z.object] shape: required, or declared [.optional()]. *)
Definition required {T} (s : schema T) (props : list (jsstring * json))
           (k : String.string) : option T :=
  match get_prop props (str k) with
  | Some v => s v
  | None => None
  end.

Definition optional {T} (s : schema T) (props : list (jsstring * json))
           (k : String.string) : option (option T) :=
  match get_prop props (str k) with
  | Some v => option_map Some (s v)
  | None => Some None
  end.

(** The shape of a [z.object]: only an object is looked into. *)
Definition object {T} (shape : list (jsstring * json) -> option T) : schema T :=
  fun j => match j with JObject props => shape props | _ => None end.

End Zod.

Module Zod4.

(** [z.number().int()] of zod 4: only a safe integer passes. *)
Definition number_int : Zod.schema number :=
  fun j => match j with
           | JNumber x => if Number_isSafeInteger x then Some x else None
           | _ => None
           end.

End Zod4.

Declare Scope zod_scope.
Delimit Scope zod_scope with zod.
Notation "x <- c ;; k" :=
  (match c with Some x => k | None => None end)
    (at level 61, c at next level, right associativity) : zod_scope.

(** ** The records of the data model *)

Record Architecture := {
  modality : jsstring;
  input_modalities : list jsstring;
  output_modalities : list jsstring;
  tokenizer : jsstring;
  instruct_type : option jsstring
}.

Record Pricing := {
  prompt : jsstring;
  completion : jsstring;
  request : option jsstring;
  image : option jsstring;
  web_search : option jsstring;
  internal_reasoning : option jsstring;
  input_cache_read : option jsstring;
  input_cache_write : option jsstring
}.

Record TopProvider := {
  tp_context_length : option number;
  max_completion_tokens : option number;
  is_moderated : bool
}.

Record Model := {
  id : jsstring;
  name : jsstring;
  description : jsstring;
  context_length : number;
  created : number;
  hugging_face_id : option jsstring;
  canonical_slug : jsstring;
  architecture : Architecture;
  pricing : Pricing;
  top_provider : TopProvider;
  per_request_limits : option (list (jsstring * json));
  supported_parameters : list jsstring
}.

Record Models := { data : list Model }.

(** ** The schemas of [or-models.ts] *)

Local Open Scope zod_scope.
Local Open Scope string_scope.

Definition ArchitectureSchema : Zod.schema Architecture :=
  Zod.object (fun o =>
    a <- Zod.required Zod.string o "modality" ;;
    b <- Zod.required (Zod.array Zod.string) o "input_modalities" ;;
    c <- Zod.required (Zod.array Zod.string) o "output_modalities" ;;
    d <- Zod.required Zod.string o "tokenizer" ;;
    e <- Zod.required (Zod.nullable Zod.string) o "instruct_type" ;;
    Some (Build_Architecture a b c d e)).

Definition PricingSchema : Zod.schema Pricing :=
  Zod.object (fun o =>
    a <- Zod.required Zod.string o "prompt" ;;
    b <- Zod.required Zod.string o "completion" ;;
    c <- Zod.optional Zod.string o "request" ;;
    d <- Zod.optional Zod.string o "image" ;;
    e <- Zod.optional Zod.string o "web_search" ;;
    f <- Zod.optional Zod.string o "internal_reasoning" ;;
    g <- Zod.optional Zod.string o "input_cache_read" ;;
    h <- Zod.optional Zod.string o "input_cache_write" ;;
    Some (Build_Pricing a b c d e f g h)).

Definition TopProviderSchema : Zod.schema TopProvider :=
  Zod.object (fun o =>
    a <- Zod.required (Zod.nullable Zod4.number_int) o "context_length" ;;
    b <- Zod.required (Zod.nullable Zod4.number_int) o "max_completion_tokens" ;;
    c <- Zod.required Zod.boolean o "is_moderated" ;;
    Some (Build_TopProvider a b c)).

Definition ModelSchema : Zod.schema Model :=
  Zod.object (fun o =>
    a <- Zod.required Zod.string o "id" ;;
    b <- Zod.required Zod.string o "name" ;;
    c <- Zod.required Zod.string o "description" ;;
    d <- Zod.required Zod4.number_int o "context_length" ;;
    e <- Zod.required Zod4.number_int o "created" ;;
    f <- Zod.required (Zod.nullable Zod.string) o "hugging_face_id" ;;
    g <- Zod.required Zod.string o "canonical_slug" ;;
    h <- Zod.required ArchitectureSchema o "architecture" ;;
    i <- Zod.required PricingSchema o "pricing" ;;
    j <- Zod.required TopProviderSchema o "top_provider" ;;
    k <- Zod.required (Zod.nullable (Zod.record Zod.unknown)) o "per_request_limits" ;;
    l <- Zod.required (Zod.array Zod.string) o "supported_parameters" ;;
    Some (Build_Model a b c d e f g h i j k l)).

Definition OpenRouterModelsSchema : Zod.schema Models :=
  Zod.object (fun o =>
    a <- Zod.required (Zod.array ModelSchema) o "data" ;;
    Some (Build_Models a)).

(** ** The schemas of [schemas.ts]

    The standalone module declares the same shapes, with [request] and
    [image] of the pricing object required, over zod 3.23.8. *)

Module Schemas.

Record Pricing := {
  prompt : jsstring;
  completion : jsstring;
  request : jsstring;
  image : jsstring;
  web_search : option jsstring;
  internal_reasoning : option jsstring;
  input_cache_read : option jsstring;
  input_cache_write : option jsstring
}.

Record Model := {
  id : jsstring;
  name : jsstring;
  description : jsstring;
  context_length : number;
  created : number;
  hugging_face_id : option jsstring;
  canonical_slug : jsstring;
  architecture : Architecture;
  pricing : Pricing;
  top_provider : TopProvider;
  per_request_limits : option (list (jsstring * json));
  supported_parameters : list jsstring
}.

Record Models := { data : list Model }.

Definition ArchitectureSchema : Zod.schema Architecture :=
  Zod.object (fun o =>
    a <- Zod.required Zod.string o "modality" ;;
    b <- Zod.required (Zod.array Zod.string) o "input_modalities" ;;
    c <- Zod.required (Zod.array Zod.string) o "output_modalities" ;;
    d <- Zod.required Zod.string o "tokenizer" ;;
    e <- Zod.required (Zod.nullable Zod.string) o "instruct_type" ;;
    Some (Build_Architecture a b c d e)).

Definition PricingSchema : Zod.schema Pricing :=
  Zod.object (fun o =>
    a <- Zod.required Zod.string o "prompt" ;;
    b <- Zod.required Zod.string o "completion" ;;
    c <- Zod.required Zod.string o "request" ;;
    d <- Zod.required Zod.string o "image" ;;
    e <- Zod.optional Zod.string o "web_search" ;;
    f <- Zod.optional Zod.string o "internal_reasoning" ;;
    g <- Zod.optional Zod.string o "input_cache_read" ;;
    h <- Zod.optional Zod.string o "input_cache_write" ;;
    Some (Build_Pricing a b c d e f g h)).

Definition TopProviderSchema : Zod.schema TopProvider :=
  Zod.object (fun o =>
    a <- Zod.required (Zod.nullable Zod.number_int) o "context_length" ;;
    b <- Zod.required (Zod.nullable Zod.number_int) o "max_completion_tokens" ;;
    c <- Zod.required Zod.boolean o "is_moderated" ;;
    Some (Build_TopProvider a b c)).

Definition ModelSchema : Zod.schema Model :=
  Zod.object (fun o =>
    a <- Zod.required Zod.string o "id" ;;
    b <- Zod.required Zod.string o "name" ;;
    c <- Zod.required Zod.string o "description" ;;
    d <- Zod.required Zod.number_int o "context_length" ;;
    e <- Zod.required Zod.number_int o "created" ;;
    f <- Zod.required (Zod.nullable Zod.string) o "hugging_face_id" ;;
    g <- Zod.required Zod.string o "canonical_slug" ;;
    h <- Zod.required ArchitectureSchema o "architecture" ;;
    i <- Zod.required PricingSchema o "pricing" ;;
    j <- Zod.required TopProviderSchema o "top_provider" ;;
    k <- Zod.required (Zod.nullable (Zod.record Zod.unknown)) o "per_request_limits" ;;
    l <- Zod.required (Zod.array Zod.string) o "supported_parameters" ;;
    Some (Build_Model a b c d e f g h i j k l)).

Definition OpenRouterModelsSchema : Zod.schema Models :=
  Zod.object (fun o =>
    a <- Zod.required (Zod.array ModelSchema) o "data" ;;
    Some (Build_Models a)).

End Schemas.

Local Close Scope string_scope.
Local Close Scope zod_scope.

(** ** Built-ins of the language *)

(** *** String methods *)

(** [s < t] on strings: code unit by code unit. *)
Definition jsstring_lt (s t : jsstring) : bool :=
  match list_compare N.compare s t with Lt => true | _ => false end.

Definition lower_unit (c : N) : N :=
  if ((65 <=? c) && (c <=? 90))%N then (c + 32)%N else c.

Definition is_ascii (s : jsstring) : bool := forallb (fun c => (c <? 128)%N) s.

Fixpoint starts_with (t s : jsstring) : bool :=
  match t, s with
  | [], _ => true
  | _ :: _, [] => false
  | c :: t', d :: s' => (c =? d)%N && starts_with t' s'
  end.

(** [s.includes(t)] *)
Fixpoint includes (s t : jsstring) : bool :=
  starts_with t s ||
  match s with
  | [] => false
  | _ :: s' => includes s' t
  end.

Definition spaces (n : nat) : jsstring := repeat 32%N n.

(** [s.padStart(n)] and [s.padEnd(n)], padding with spaces. *)
Definition padStart (n : nat) (s : jsstring) : jsstring :=
  spaces (n - List.length s) ++ s.

Definition padEnd (n : nat) (s : jsstring) : jsstring :=
  s ++ spaces (n - List.length s).

(** [s.substring(0, n)] *)
Definition substring0 (n : nat) (s : jsstring) : jsstring := firstn n s.

(** [xs.join(sep)]; a [null] entry is joined as the empty string. *)
Fixpoint join (sep : jsstring) (xs : list jsstring) : jsstring :=
  match xs with
  | [] => []
  | [x] => x
  | x :: rest => x ++ sep ++ join sep rest
  end.

Definition or_empty (x : option jsstring) : jsstring :=
  match x with Some s => s | None => [] end.

(** [xs.includes(x)] on an array of strings. *)
Definition array_includes (xs : list jsstring) (x : jsstring) : bool :=
  existsb (jsstring_eqb x) xs.

(** *** Numeric literals: [parseFloat]

    [parseFloat] skips leading white space and reads the longest prefix
    that is a [StrDecimalLiteral]; the digits denote [m * 10^e], which is
    rounded to the nearest number. *)

Definition is_white_space (c : N) : bool :=
  existsb (N.eqb c)
    [9; 10; 11; 12; 13; 32; 160; 5760; 8232; 8233; 8239; 8287; 12288; 65279]%N
  || ((8192 <=? c) && (c <=? 8202))%N.

Fixpoint trim_start (s : jsstring) : jsstring :=
  match s with
  | c :: s' => if is_white_space c then trim_start s' else s
  | [] => []
  end.

Definition is_digit (c : N) : bool := ((48 <=? c) && (c <=? 57))%N.

(** The leading decimal digits of [s], and what follows them. *)
Fixpoint take_digits (s : jsstring) : list N * jsstring :=
  match s with
  | c :: s' =>
      if is_digit c
      then let (ds, rest) := take_digits s' in ((c - 48)%N :: ds, rest)
      else ([], s)
  | [] => ([], [])
  end.

Definition digits_value (ds : list N) : Z :=
  fold_left (fun acc d => 10 * acc + Z.of_N d) ds 0.

(** [ExponentPart], when [s] starts with a well-formed one. *)
Definition exponent_part (s : jsstring) : Z :=
  match s with
  | c :: s' =>
      if ((c =? 101) || (c =? 69))%N then
        match s' with
        | sg :: s'' =>
            if (sg =? 45)%N then
              match fst (take_digits s'') with
              | [] => 0
              | ds => - digits_value ds
              end
            else if (sg =? 43)%N then digits_value (fst (take_digits s''))
            else digits_value (fst (take_digits s'))
        | [] => 0
        end
      else 0
  | [] => 0
  end.

(** The number nearest to [m * 10^e], with sign [sg] ([true] is minus). *)
Definition decimal_to_number (sg : bool) (m e : Z) : number :=
  match m with
  | Zpos p =>
      if 0 <=? e
      then binary_round prec emax sg (Z.to_pos (Zpos p * 10 ^ e)) 0
      else SFdiv prec emax (S754_finite sg p 0)
                           (S754_finite false (Z.to_pos (10 ^ (- e))) 0)
  | _ => S754_zero sg
  end.

Definition Infinity_literal : jsstring := str "Infinity".

(** [StrUnsignedDecimalLiteral] at the start of [s]. *)
Definition unsigned_literal (sg : bool) (s : jsstring) : number :=
  if starts_with Infinity_literal s then S754_infinity sg
  else
    let (ip, rest) := take_digits s in
    let (fp, rest') :=
      match rest with
      | c :: r => if (c =? 46)%N then take_digits r else ([], rest)
      | [] => ([], [])
      end in
    match ip ++ fp with
    | [] => NaN
    | ds =>
        decimal_to_number sg (digits_value ds)
                          (exponent_part rest' - Z.of_nat (List.length fp))
    end.

Definition parseFloat (s : jsstring) : number :=
  match trim_start s with
  | c :: s' =>
      if (c =? 45)%N then unsigned_literal true s'
      else if (c =? 43)%N then unsigned_literal false s'
      else unsigned_literal false (c :: s')
  | [] => NaN
  end.

(** *** Strings as numbers: [ToNumber]

    The string, without the white space around it, is read as a whole:
    empty it is [+0]; else it is a binary, octal or hexadecimal integer
    literal or a signed [StrDecimalLiteral], and [NaN] if it is none of
    these. *)

Definition trim (s : jsstring) : jsstring :=
  trim_start (rev (trim_start (rev s))).

(** [ExponentPart] at the start of [s]: its value and what follows it;
    where there is none, [0] and [s]. *)
Definition exponent_and_rest (s : jsstring) : Z * jsstring :=
  match s with
  | c :: s' =>
      if ((c =? 101) || (c =? 69))%N then
        let signed_digits :=
          match s' with
          | d :: r =>
              if (d =? 45)%N then (true, r)
              else if (d =? 43)%N then (false, r)
              else (false, s')
          | [] => (false, s')
          end in
        match take_digits (snd signed_digits) with
        | ([], _) => (0, s)
        | (ds, rest) =>
            (if fst signed_digits then - digits_value ds else digits_value ds,
             rest)
        end
      else (0, s)
  | [] => (0, s)
  end.

(** [StrUnsignedDecimalLiteral], all of [s]. *)
Definition unsigned_literal_exact (sg : bool) (s : jsstring) : number :=
  if jsstring_eqb s Infinity_literal then S754_infinity sg
  else
    let (ip, rest) := take_digits s in
    let (fp, rest') :=
      match rest with
      | c :: r => if (c =? 46)%N then take_digits r else ([], rest)
      | [] => ([], [])
      end in
    match ip ++ fp with
    | [] => NaN
    | ds =>
        let (e, leftover) := exponent_and_rest rest' in
        match leftover with
        | [] => decimal_to_number sg (digits_value ds)
                                  (e - Z.of_nat (List.length fp))
        | _ => NaN
        end
    end.

(** The value of a digit in a radix up to 16. *)
Definition digit_value (radix c : N) : option N :=
  let v :=
    if ((48 <=? c) && (c <=? 57))%N then Some (c - 48)%N
    else if ((97 <=? c) && (c <=? 102))%N then Some (c - 87)%N
    else if ((65 <=? c) && (c <=? 70))%N then Some (c - 55)%N
    else None in
  match v with
  | Some d => if (d <? radix)%N then Some d else None
  | None => None
  end.

Fixpoint radix_value (radix : N) (s : jsstring) (acc : Z) : option Z :=
  match s with
  | [] => Some acc
  | c :: s' =>
      match digit_value radix c with
      | Some d => radix_value radix s' (Z.of_N radix * acc + Z.of_N d)
      | None => None
      end
  end.

(** [NonDecimalIntegerLiteral], all of [s]. *)
Definition non_decimal_literal (s : jsstring) : option number :=
  match s with
  | zero :: x :: (_ :: _) as ds =>
      if (zero =? 48)%N then
        let radix :=
          if ((x =? 98) || (x =? 66))%N then Some 2%N
          else if ((x =? 111) || (x =? 79))%N then Some 8%N
          else if ((x =? 120) || (x =? 88))%N then Some 16%N
          else None in
        match radix with
        | Some r => option_map of_Z (radix_value r ds 0)
        | None => None
        end
      else None
  | _ => None
  end.

Definition StringNumericLiteral_value (s : jsstring) : number :=
  match trim s with
  | [] => pos_zero
  | c :: s' =>
      match non_decimal_literal (c :: s') with
      | Some x => x
      | None =>
          if (c =? 45)%N then unsigned_literal_exact true s'
          else if (c =? 43)%N then unsigned_literal_exact false s'
          else unsigned_literal_exact false (c :: s')
      end
  end.

(** *** [Math.floor], [Math.trunc] and the integers among the numbers *)

Definition signed (sg : bool) (m : Z) : Z := if sg then - m else m.

Definition Math_floor (x : number) : number :=
  match x with
  | S754_finite sg m e =>
      if 0 <=? e then x
      else
        let q := signed sg (Zpos m) / 2 ^ (- e) in
        if (q =? 0) then S754_zero sg else of_Z q
  | _ => x
  end.

Definition Math_trunc (x : number) : number :=
  match x with
  | S754_finite sg m e =>
      if 0 <=? e then x
      else
        let q := Zpos m / 2 ^ (- e) in
        if (q =? 0) then S754_zero sg else of_Z (signed sg q)
  | _ => x
  end.

(** The integer a number denotes, when it denotes one. *)
Definition integer_value (x : number) : option Z :=
  match x with
  | S754_zero _ => Some 0
  | S754_finite sg m e =>
      if 0 <=? e then Some (signed sg (Zpos m * 2 ^ e))
      else if Z.land (Zpos m) (Z.ones (- e)) =? 0
           then Some (signed sg (Zpos m / 2 ^ (- e)))
           else None
  | _ => None
  end.

Definition decimal (z : Z) : jsstring :=
  str (DecimalString.NilZero.string_of_int (Z.to_int z)).

(** ** Completions

    How an evaluation ends: with a value, with an exception, or with
    [Deno.exit]. *)

Inductive ErrorKind := NotFound | ZodError | TypeError | OtherError.

Record Error := { kind : ErrorKind; message : jsstring }.

Inductive Completion (A : Type) :=
| Normal (a : A)
| Throw (e : Error)
| Exit (code : Z).
Arguments Normal {A} a.
Arguments Throw {A} e.
Arguments Exit {A} code.

(** ** The world the program runs in

    The cache file is the one piece of state.  What the world answers to
    the calls the program makes (creating the directory, reading the
    clock, the HTTP request, a write) is given by an [Env]. *)

Record FileInfo := { mtime : option number }.

Inductive File :=
| Absent
| Present (info : FileInfo) (content : Error + jsstring)
| Inaccessible (e : Error).

Record Response := {
  status : Z;
  body : Error + json
}.

(** [response.ok] *)
Definition ok (r : Response) : bool := (200 <=? status r) && (status r <=? 299).

Record Env := {
  (** [Deno.mkdir(CACHE_DIR, { recursive: true })] *)
  mkdir_error : option Error;
  (** the successive readings of the clock, in milliseconds *)
  clock : nat -> number;
  (** [fetch(API_URL)] *)
  fetch_result : Error + Response;
  (** a failing [Deno.writeTextFile]: the error, and the file it leaves *)
  write_error : option (Error * File)
}.

Inductive Event :=
| Stdout (line : jsstring)
| Stderr (line : jsstring)
| HttpGet (url : jsstring)
| FileWritten (content : jsstring).

Record World := {
  cache_file : File;
  ticks : nat;
  events : list Event
}.

Definition IO (A : Type) := World -> Completion A * World.

Definition ret {A} (a : A) : IO A := fun w => (Normal a, w).

Definition bind {A B} (m : IO A) (k : A -> IO B) : IO B :=
  fun w =>
    match m w with
    | (Normal a, w') => k a w'
    | (Throw e, w') => (Throw e, w')
    | (Exit c, w') => (Exit c, w')
    end.

Definition throw {A} (e : Error) : IO A := fun w => (Throw e, w).

(** [try { m } catch (error) { handler error }]; [Deno.exit] is not caught. *)
Definition try_catch {A} (m : IO A) (handler : Error -> IO A) : IO A :=
  fun w =>
    match m w with
    | (Throw e, w') => handler e w'
    | r => r
    end.

Definition lift {A} (c : Completion A) : IO A := fun w => (c, w).

Definition emit (e : Event) : IO unit :=
  fun w => (Normal tt,
            {| cache_file := cache_file w; ticks := ticks w;
               events := events w ++ [e] |}).

Definition console_log (line : jsstring) : IO unit := emit (Stdout line).
Definition console_error (line : jsstring) : IO unit := emit (Stderr line).

Definition Deno_exit {A} (code : Z) : IO A := fun w => (Exit code, w).

(** ** What the host provides

    Library and runtime functions whose text is not part of the
    repository: number formatting, Unicode case mapping, the JSON codec,
    the engine's sort and the terminal colours of [@std/fmt/colors]. *)

Class Host := {
  (** [Number::toString] of a number that is not an integer below 10^21 *)
  number_to_string_other : number -> jsstring;
  (** [ToNumber] of a string *)
  StringToNumber : jsstring -> number;
  (** [toLowerCase] of a string that is not pure ASCII *)
  toLowerCase_unicode : jsstring -> jsstring;
  (** [x.toFixed(2)] *)
  toFixed2 : number -> jsstring;
  (** [x.toLocaleString(undefined, { maximumFractionDigits: 0 })] *)
  toLocaleString_integral : number -> jsstring;
  (** [x.toLocaleString()] *)
  toLocaleString : number -> jsstring;
  (** [JSON.parse]; [None] is a [SyntaxError] *)
  JSON_parse : jsstring -> option json;
  (** [JSON.stringify(v, null, 2)] *)
  JSON_stringify : json -> jsstring;
  (** the order in which [Array.prototype.sort] leaves the elements when
      the comparator is not a consistent one: the place each element
      takes in turn among those before it *)
  engine_places : forall A : Type, (A -> A -> Z) -> list A -> list nat;
  bold : jsstring -> jsstring;
  dim : jsstring -> jsstring;
  green : jsstring -> jsstring;
  magenta : jsstring -> jsstring;
  yellow : jsstring -> jsstring;
  (** the messages of the errors the runtime raises *)
  syntax_error_message : jsstring -> jsstring;
  zod_error_message : json -> jsstring;
  null_mtime_message : jsstring;
  not_callable_message : jsstring -> jsstring
}.

Section Program.

Context {host : Host}.

(** [String(x)] of a number. *)
Definition Number_toString (x : number) : jsstring :=
  match x with
  | S754_nan => str "NaN"
  | S754_infinity sg => if sg then str "-Infinity" else str "Infinity"
  | _ =>
      match integer_value x with
      | Some z => if Z.abs z <? 10 ^ 21 then decimal z
                  else number_to_string_other x
      | None => number_to_string_other x
      end
  end.

Definition toLowerCase (s : jsstring) : jsstring :=
  if is_ascii s then map lower_unit s else toLowerCase_unicode s.

(** ** Constants *)

Definition VERSION : jsstring := str "0.2.0".
Definition CACHE_EXPIRATION_HOURS : number := of_Z 24.
Definition AUTO_ROUTER : jsstring := str "openrouter/auto".

(** ** Helper functions *)

Definition getEffectivePrice (priceStr modelId : jsstring) : number :=
  if jsstring_eqb modelId AUTO_ROUTER then MAX_SAFE_INTEGER
  else parseFloat priceStr.

(** [new Date(t).getTime()]: the time value, clipped. *)
Definition TimeClip (t : number) : number :=
  match t with
  | S754_finite _ _ _ =>
      if num_gt (SFabs t) (of_Z 8640000000000000) then NaN
      else match Math_trunc t with
           | S754_zero _ => pos_zero
           | t' => t'
           end
  | S754_zero _ => pos_zero
  | _ => NaN
  end.

Definition plural (count : number) : jsstring :=
  if num_gt count (of_Z 1) then str "s" else [].

(** [getHumanReadableAge], with the reading [now] of the clock
    ([new Date().getTime()], in milliseconds) made explicit. *)
Definition getHumanReadableAge (now createdTimestamp : number) : jsstring :=
  if is_nan createdTimestamp || num_eq createdTimestamp pos_zero
  then str "Unknown"
  else
    let createdDate := TimeClip (num_mul createdTimestamp (of_Z 1000)) in
    let deltaSeconds := num_div (num_sub now createdDate) (of_Z 1000) in
    let deltaDays := num_div deltaSeconds (of_Z (60 * 60 * 24)) in
    if num_gt deltaDays (of_Z 365) then
      let years := Math_floor (num_div deltaDays (of_Z 365)) in
      str "~" ++ Number_toString years ++ str " yr" ++ plural years
    else if num_gt deltaDays (of_Z 30) then
      let months := Math_floor (num_div deltaDays (of_Z 30)) in
      str "~" ++ Number_toString months ++ str " mn" ++ plural months
    else if num_ge deltaDays (of_Z 1) then
      Number_toString (Math_floor deltaDays) ++ str " day"
        ++ plural (Math_floor deltaDays)
    else
      let deltaHours := num_div deltaSeconds (of_Z (60 * 60)) in
      if num_ge deltaHours (of_Z 1) then
        Number_toString (Math_floor deltaHours) ++ str " hr"
          ++ plural (Math_floor deltaHours)
      else
        let deltaMinutes := num_div deltaSeconds (of_Z 60) in
        Number_toString (Math_floor deltaMinutes) ++ str " min"
          ++ plural (Math_floor deltaMinutes).

(** ** Parsed command line

    [parseArgs] yields a boolean for each declared flag, a string for
    [sort-by] and [output], and for an option it was not told about
    whatever followed it: a number, a string, or [true]. *)

Inductive ArgValue :=
| ArgString (s : jsstring)
| ArgNumber (x : number)
| ArgBoolean (b : bool).

Record Args := {
  positional : list ArgValue;
  long : bool;
  free : bool;
  supports_reasoning : bool;
  supports_tools : bool;
  supports_structured_output : bool;
  desc : bool;
  group_by_provider : bool;
  force_refresh : bool;
  invert_price : bool;
  help : bool;
  version : bool;
  sort_by : jsstring;
  output : jsstring;
  min_prompt_price : option ArgValue;
  max_prompt_price : option ArgValue;
  min_context : option ArgValue;
  max_context : option ArgValue;
  supports_response_format : option ArgValue
}.

Definition truthy (v : ArgValue) : bool :=
  match v with
  | ArgString s => negb (jsstring_eqb s [])
  | ArgNumber x => negb (is_nan x || num_eq x pos_zero)
  | ArgBoolean b => b
  end.

Definition ToNumber (v : ArgValue) : number :=
  match v with
  | ArgString s => StringToNumber s
  | ArgNumber x => x
  | ArgBoolean b => if b then of_Z 1 else pos_zero
  end.

Definition ToString (v : ArgValue) : jsstring :=
  match v with
  | ArgString s => s
  | ArgNumber x => Number_toString x
  | ArgBoolean b => if b then str "true" else str "false"
  end.

Definition is_set (v : option ArgValue) : bool :=
  match v with Some x => truthy x | None => false end.

(** ** Filtering and sorting *)

(** One [if (...) filtered = filtered.filter(p)] of [filterModels]. *)
Definition filter_when {A} (active : bool) (p : A -> bool) (l : list A) : list A :=
  if active then filter p l else l.

Definition filter_with {A B} (bound : option B) (p : B -> A -> bool)
           (l : list A) : list A :=
  match bound with
  | Some b => filter (p b) l
  | None => l
  end.

Definition checkParam (p : list jsstring) (m : Model) : bool :=
  existsb (fun sp => array_includes p sp) (supported_parameters m).

Definition searchTerm (args : Args) : option jsstring :=
  match positional args with
  | v :: _ => Some (toLowerCase (ToString v))
  | [] => None
  end.

Definition matches_search (term : jsstring) (m : Model) : bool :=
  includes (toLowerCase (id m)) term
  || includes (toLowerCase (name m)) term
  || includes (toLowerCase (description m)) term.

Definition search_filter (args : Args) (l : list Model) : list Model :=
  match searchTerm args with
  | Some term => if jsstring_eqb term [] then l else filter (matches_search term) l
  | None => l
  end.

Definition is_free (m : Model) : bool :=
  num_eq (getEffectivePrice (prompt (pricing m)) (id m)) pos_zero.

Definition filterModels (models : list Model) (args : Args) : list Model :=
  let filtered := models in
  let filtered := search_filter args filtered in
  let filtered := filter_when (free args) is_free filtered in
  let filtered :=
    filter_with (min_prompt_price args)
      (fun b m => num_ge (getEffectivePrice (prompt (pricing m)) (id m)) (ToNumber b))
      filtered in
  let filtered :=
    filter_with (max_prompt_price args)
      (fun b m => num_le (getEffectivePrice (prompt (pricing m)) (id m)) (ToNumber b))
      filtered in
  let filtered :=
    filter_with (min_context args)
      (fun b m => num_ge (context_length m) (ToNumber b)) filtered in
  let filtered :=
    filter_with (max_context args)
      (fun b m => num_le (context_length m) (ToNumber b)) filtered in
  let filtered :=
    filter_when (supports_reasoning args)
      (checkParam [str "reasoning"; str "include_reasoning"]) filtered in
  let filtered :=
    filter_when (supports_tools args)
      (checkParam [str "tools"; str "tool_choice"]) filtered in
  let filtered :=
    filter_when (supports_structured_output args)
      (checkParam [str "structured_outputs"]) filtered in
  let filtered :=
    filter_when (is_set (supports_response_format args))
      (checkParam [str "response_format"]) filtered in
  filtered.

(** [Array.prototype.sort] with a comparator.

    Where the comparator is a consistent comparator for the elements
    (it splits them into classes that it orders in a line), the sort
    returns the elements in that order, those of a class in the order
    they came in: the sort is stable, and that ordering is the only one
    there is ([stable_ordering_unique] below).  Insertion computes it:
    an element moves past the ones the comparator puts strictly before
    it. *)
Fixpoint sort_insert {A} (compareFn : A -> A -> Z) (x : A) (l : list A) : list A :=
  match l with
  | [] => [x]
  | y :: l' =>
      if 0 <? compareFn x y then y :: sort_insert compareFn x l' else x :: l
  end.

Fixpoint stable_sort {A} (compareFn : A -> A -> Z) (l : list A) : list A :=
  match l with
  | [] => []
  | x :: l' => sort_insert compareFn x (stable_sort compareFn l')
  end.

(** The requirements of a consistent comparator on three elements:
    [a] equals itself; equality is symmetric and transitive; so are
    "before" and "after" transitive. *)
Definition consistent_at {A} (compareFn : A -> A -> Z) (a b c : A) : bool :=
  (compareFn a a =? 0)
  && implb (compareFn a b =? 0) (compareFn b a =? 0)
  && implb ((compareFn a b =? 0) && (compareFn b c =? 0)) (compareFn a c =? 0)
  && implb ((compareFn a b <? 0) && (compareFn b c <? 0)) (compareFn a c <? 0)
  && implb ((0 <? compareFn a b) && (0 <? compareFn b c)) (0 <? compareFn a c).

Definition consistent_comparator {A} (compareFn : A -> A -> Z) (l : list A) : bool :=
  forallb (fun a =>
    forallb (fun b =>
      forallb (fun c => consistent_at compareFn a b c) l) l) l.

(** Where the comparator is not consistent, the order is left to the
    engine, which still rearranges the elements.  A rearrangement is
    given by the place each element takes in turn among those before
    it (a place past the end is the end). *)
Fixpoint insert_at {A} (place : nat) (x : A) (l : list A) : list A :=
  match place, l with
  | S place', y :: l' => y :: insert_at place' x l'
  | _, _ => x :: l
  end.

Fixpoint placed {A} (places : list nat) (l built : list A) : list A :=
  match l with
  | [] => built
  | x :: l' => placed (tl places) l' (insert_at (hd 0%nat places) x built)
  end.

Definition Array_sort {A} (compareFn : A -> A -> Z) (l : list A) : list A :=
  if consistent_comparator compareFn l then stable_sort compareFn l
  else placed (engine_places compareFn l) l [].

(** A key extractor of [keyMap] yields numbers or strings. *)
Inductive KeyFn :=
| NumberKey (f : Model -> number)
| StringKey (f : Model -> jsstring).

(** The own properties of [keyMap]. *)
Definition keyMap (sortBy : jsstring) : option KeyFn :=
  if jsstring_eqb sortBy (str "prompt_price") then
    Some (NumberKey (fun m => getEffectivePrice (prompt (pricing m)) (id m)))
  else if jsstring_eqb sortBy (str "completion_price") then
    Some (NumberKey (fun m => getEffectivePrice (completion (pricing m)) (id m)))
  else if jsstring_eqb sortBy (str "context") then
    Some (NumberKey (fun m => context_length m))
  else if jsstring_eqb sortBy (str "created") then
    Some (NumberKey (fun m => created m))
  else if jsstring_eqb sortBy (str "name") then
    Some (StringKey (fun m => toLowerCase (name m)))
  else None.

(** [keyMap] is an object literal, so a read of a name it does not own
    reaches [Object.prototype].  The methods found there return, for any
    two records, values that compare equal; [__defineGetter__] and
    [__defineSetter__] throw a [TypeError] when called with a record
    alone.  ([__proto__] is not there: the Deno runtime deletes it.) *)
Definition Object_prototype_methods : list jsstring :=
  map str ["constructor"; "hasOwnProperty"; "isPrototypeOf";
           "propertyIsEnumerable"; "toString"; "valueOf"; "toLocaleString";
           "__lookupGetter__"; "__lookupSetter__"]%string.

Definition Object_prototype_throwing : list jsstring :=
  map str ["__defineGetter__"; "__defineSetter__"]%string.

Definition key_lt (k : KeyFn) (a b : Model) : bool :=
  match k with
  | NumberKey f => num_lt (f a) (f b)
  | StringKey f => jsstring_lt (f a) (f b)
  end.

Definition key_gt (k : KeyFn) (a b : Model) : bool := key_lt k b a.

(** The comparator [sortModels] hands to [sort]. *)
Definition compareModels (k : KeyFn) (desc : bool) (a b : Model) : Z :=
  if key_lt k a b then (if desc then 1 else -1)
  else if key_gt k a b then (if desc then -1 else 1)
  else 0.

Definition sortModels (models : list Model) (sortBy : jsstring) (desc : bool)
  : Completion (list Model) :=
  match keyMap sortBy with
  | Some k => Normal (Array_sort (compareModels k desc) models)
  | None =>
      if array_includes Object_prototype_methods sortBy then
        Normal (Array_sort (fun _ _ => 0) models)
      else if array_includes Object_prototype_throwing sortBy then
        match models with
        | _ :: _ :: _ =>
            Throw {| kind := TypeError; message := not_callable_message sortBy |}
        | _ => Normal models
        end
      else Normal models
  end.

(** ** Output formatters *)

Definition infinity_sign : jsstring := [8734%N].
Definition check_mark : jsstring := [9989%N].
Definition quote : jsstring := [34%N].

Definition formatPrice (priceStr : jsstring) (invert : bool)
           (modelId : option jsstring) : jsstring :=
  if match modelId with
     | Some i => jsstring_eqb i AUTO_ROUTER
     | None => false
     end
  then str "n/a"
  else
    let price := parseFloat priceStr in
    if num_eq price pos_zero then
      if invert then infinity_sign else str "0.00"
    else if invert then
      toLocaleString_integral (num_div (num_div (of_Z 1) price) (of_Z 1000000))
        ++ str " M"
    else toFixed2 (num_mul price (of_Z 1000000)).

Definition supports (m : Model) (tokens : list String.string) : bool :=
  existsb (fun t => array_includes (supported_parameters m) (str t)) tokens.

Definition tableHeaders (invert : bool) : list jsstring :=
  map (fun h => bold (magenta h))
    [str "ID";
     if invert then str "Prompt (toks/$)" else str "Prompt ($/M)";
     if invert then str "Compl. (toks/$)" else str "Compl. ($/M)";
     str "Context"; str "Age"; str "Reason"; str "Tools"; str "JSON";
     str "Schema"].

(** The cells of one row of [outputAsTable]; [now] is the reading of the
    clock [getHumanReadableAge] takes for this row. *)
Definition tableRow (args : Args) (now : number) (model : Model) : list jsstring :=
  let invert := invert_price args in
  [dim (padEnd 45 (substring0 (if long args then 80 else 45) (id model)));
   padStart 6 (formatPrice (prompt (pricing model)) invert (Some (id model)));
   padStart 6 (formatPrice (completion (pricing model)) invert (Some (id model)));
   padStart 10 (toLocaleString (context_length model));
   padStart 7 (getHumanReadableAge now (created model));
   if supports model ["reasoning"; "include_reasoning"]%string
   then green check_mark else str "  ";
   if supports model ["tools"; "tool_choice"]%string
   then green check_mark else str "  ";
   if supports model ["response_format"]%string
   then green check_mark else str "  ";
   if supports model ["structured_outputs"]%string
   then green check_mark else str "  "].

Definition bool_to_string (b : bool) : jsstring :=
  if b then str "true" else str "false".

Definition csvHeaders (invert : bool) : list jsstring :=
  [str "id"; str "name";
   if invert then str "prompt_tokens_per_dollar"
   else str "prompt_dollar_per_million";
   if invert then str "completion_tokens_per_dollar"
   else str "completion_dollar_per_million";
   str "context_length"; str "created_unix"; str "supports_reasoning";
   str "supports_tools"; str "supports_response_format";
   str "supports_structured_output"].

Definition csvRow (args : Args) (model : Model) : list jsstring :=
  let invert := invert_price args in
  [quote ++ id model ++ quote;
   quote ++ name model ++ quote;
   formatPrice (prompt (pricing model)) invert (Some (id model));
   formatPrice (completion (pricing model)) invert (Some (id model));
   Number_toString (context_length model);
   Number_toString (created model);
   bool_to_string (supports model ["reasoning"; "include_reasoning"]%string);
   bool_to_string (supports model ["tools"; "tool_choice"]%string);
   bool_to_string (supports model ["response_format"]%string);
   bool_to_string (supports model ["structured_outputs"]%string)].

Definition is_verbose (args : Args) : bool :=
  jsstring_eqb (output args) (str "md-verbose").

Definition markdownHeaders (args : Args) : list (option jsstring) :=
  let invert := invert_price args in
  let verbose := is_verbose args in
  [Some (str "ID");
   if verbose then Some (str "Name") else None;
   if verbose
   then Some (if invert then str "Prompt (toks/$)" else str "Prompt ($/M)")
   else None;
   Some (if invert then str "Completion (toks/$)" else str "Completion ($/M)");
   Some (str "Context"); Some (str "Age"); Some (str "Reason");
   Some (str "Tools"); Some (str "JSON"); Some (str "Schema")].

Definition markdownRow (args : Args) (now : number) (model : Model)
  : list (option jsstring) :=
  let invert := invert_price args in
  let verbose := is_verbose args in
  [Some (id model);
   if verbose then Some (name model) else None;
   if verbose
   then Some (formatPrice (prompt (pricing model)) invert (Some (id model)))
   else None;
   Some (formatPrice (completion (pricing model)) invert (Some (id model)));
   Some (toLocaleString (context_length model));
   Some (getHumanReadableAge now (created model));
   Some (if supports model ["reasoning"; "include_reasoning"]%string
         then check_mark else str " ");
   Some (if supports model ["tools"; "tool_choice"]%string
         then check_mark else str " ");
   Some (if supports model ["response_format"]%string
         then check_mark else str " ");
   Some (if supports model ["structured_outputs"]%string
         then check_mark else str " ")].

(** [xs.filter((x) => x != null)] *)
Fixpoint non_null {A} (xs : list (option A)) : list A :=
  match xs with
  | [] => []
  | Some x :: rest => x :: non_null rest
  | None :: rest => non_null rest
  end.

(** *** The records as JSON values, for [JSON.stringify] *)

Definition json_strings (xs : list jsstring) : json := JArray (map JString xs).

Definition json_nullable {A} (f : A -> json) (x : option A) : json :=
  match x with Some v => f v | None => JNull end.

(** An [undefined] property is left out. *)
Definition json_optional (k : String.string) (x : option jsstring)
  : list (jsstring * json) :=
  match x with Some v => [(str k, JString v)] | None => [] end.

Definition json_of_Architecture (a : Architecture) : json :=
  JObject
    [(str "modality", JString (modality a));
     (str "input_modalities", json_strings (input_modalities a));
     (str "output_modalities", json_strings (output_modalities a));
     (str "tokenizer", JString (tokenizer a));
     (str "instruct_type", json_nullable JString (instruct_type a))].

Definition json_of_Pricing (p : Pricing) : json :=
  JObject
    ([(str "prompt", JString (prompt p));
      (str "completion", JString (completion p))]
     ++ json_optional "request" (request p)
     ++ json_optional "image" (image p)
     ++ json_optional "web_search" (web_search p)
     ++ json_optional "internal_reasoning" (internal_reasoning p)
     ++ json_optional "input_cache_read" (input_cache_read p)
     ++ json_optional "input_cache_write" (input_cache_write p)).

Definition json_of_TopProvider (t : TopProvider) : json :=
  JObject
    [(str "context_length", json_nullable JNumber (tp_context_length t));
     (str "max_completion_tokens", json_nullable JNumber (max_completion_tokens t));
     (str "is_moderated", JBool (is_moderated t))].

Definition json_of_Model (m : Model) : json :=
  JObject
    [(str "id", JString (id m));
     (str "name", JString (name m));
     (str "description", JString (description m));
     (str "context_length", JNumber (context_length m));
     (str "created", JNumber (created m));
     (str "hugging_face_id", json_nullable JString (hugging_face_id m));
     (str "canonical_slug", JString (canonical_slug m));
     (str "architecture", json_of_Architecture (architecture m));
     (str "pricing", json_of_Pricing (pricing m));
     (str "top_provider", json_of_TopProvider (top_provider m));
     (str "per_request_limits", json_nullable JObject (per_request_limits m));
     (str "supported_parameters", json_strings (supported_parameters m))].

Definition json_of_Models (d : Models) : json :=
  JObject [(str "data", JArray (map json_of_Model (data d)))].

End Program.

Declare Scope io_scope.
Delimit Scope io_scope with io.
Notation "x <- c ;; k" := (bind c (fun x => k))
  (at level 61, c at next level, right associativity) : io_scope.
Notation "c ;; k" := (bind c (fun _ => k))
  (at level 61, right associativity) : io_scope.

Section Runtime.

Context {host : Host}.
Variable env : Env.

Local Open Scope io_scope.

Definition API_URL : jsstring := str "https://openrouter.ai/api/v1/models".

(** Creating a directory that is there succeeds, and the directory of a
    cache file that exists is there. *)
Definition Deno_mkdir : IO unit :=
  fun w =>
    match cache_file w with
    | Present _ _ => (Normal tt, w)
    | _ =>
        match mkdir_error env with
        | Some e => (Throw e, w)
        | None => (Normal tt, w)
        end
    end.

Definition Date_now : IO number :=
  fun w => (Normal (clock env (ticks w)),
            {| cache_file := cache_file w; ticks := S (ticks w);
               events := events w |}).

Definition not_found : Error :=
  {| kind := NotFound; message := str "No such file or directory" |}.

Definition Deno_stat : IO FileInfo :=
  fun w =>
    match cache_file w with
    | Absent => (Throw not_found, w)
    | Present info _ => (Normal info, w)
    | Inaccessible e => (Throw e, w)
    end.

Definition Deno_readTextFile : IO jsstring :=
  fun w =>
    match cache_file w with
    | Absent => (Throw not_found, w)
    | Present _ (inr text) => (Normal text, w)
    | Present _ (inl e) => (Throw e, w)
    | Inaccessible e => (Throw e, w)
    end.

Definition Deno_writeTextFile (text : jsstring) : IO unit :=
  fun w =>
    match write_error env with
    | Some (e, leftover) =>
        (Throw e,
         {| cache_file := leftover; ticks := ticks w; events := events w |})
    | None =>
        (Normal tt,
         {| cache_file := Present {| mtime := Some (clock env (ticks w)) |}
                                  (inr text);
            ticks := ticks w;
            events := events w ++ [FileWritten text] |})
    end.

Definition fetch : IO Response :=
  emit (HttpGet API_URL) ;;
  match fetch_result env with
  | inl e => throw e
  | inr r => ret r
  end.

Definition response_json (r : Response) : IO json :=
  match body r with
  | inl e => throw e
  | inr j => ret j
  end.

Definition parse_JSON (text : jsstring) : IO json :=
  match JSON_parse text with
  | Some j => ret j
  | None => throw {| kind := OtherError; message := syntax_error_message text |}
  end.

(** [OpenRouterModelsSchema.parse] *)
Definition parse_models (j : json) : IO Models :=
  match OpenRouterModelsSchema j with
  | Some d => ret d
  | None => throw {| kind := ZodError; message := zod_error_message j |}
  end.

(** [fileInfo.mtime!.getTime()] *)
Definition mtime_getTime (info : FileInfo) : IO number :=
  match mtime info with
  | Some t => ret t
  | None => throw {| kind := TypeError; message := null_mtime_message |}
  end.

Definition is_kind (k : ErrorKind) (e : Error) : bool :=
  match kind e, k with
  | NotFound, NotFound | ZodError, ZodError
  | TypeError, TypeError | OtherError, OtherError => true
  | _, _ => false
  end.

Definition when (b : bool) (m : IO unit) : IO unit := if b then m else ret tt.

(** The first [try] of [fetchModels]: [Some] when it returns the cached
    batch, [None] when control goes on to the network path. *)
Definition cache_fresh_path (forceRefresh : bool) : IO (option (list Model)) :=
  try_catch
    (fileInfo <- Deno_stat ;;
     now <- Date_now ;;
     t <- mtime_getTime fileInfo ;;
     let ageHours := num_div (num_sub now t) (of_Z (1000 * 60 * 60)) in
     if negb forceRefresh && num_lt ageHours CACHE_EXPIRATION_HOURS then
       console_error (dim (str "Loading models from cache...")) ;;
       cachedData <- Deno_readTextFile ;;
       jsonData <- parse_JSON cachedData ;;
       validated <- parse_models jsonData ;;
       ret (Some (data validated))
     else ret None)
    (fun error =>
       when (negb (is_kind NotFound error))
            (console_error
               (yellow (str "Cache read error: " ++ message error))) ;;
       ret None).

Definition stale_fallback_path : IO (list Model) :=
  fun w =>
    match (console_error (dim (str "Using stale cache as a fallback.")) ;;
           cachedData <- Deno_readTextFile ;;
           jsonData <- parse_JSON cachedData ;;
           validated <- parse_models jsonData ;;
           ret (data validated)) w with
    | (Throw _, w') =>
        (console_error (yellow (str "Could not read fallback cache. Exiting.")) ;;
         Deno_exit 1) w'
    | r => r
    end.

(** The [catch] block of the network path. *)
Definition on_fetch_error (error : Error) : IO (list Model) :=
  console_error
    (yellow (str "Error fetching or validating data: " ++ message error)) ;;
  when (is_kind ZodError error)
       (console_error
          (yellow (str "API data structure does not match expected schema. Details:")) ;;
        console_error (message error)) ;;
  stale_fallback_path.

Definition network_path : IO (list Model) :=
  console_error (dim (str "Fetching fresh model list from OpenRouter...")) ;;
  try_catch
    (response <- fetch ;;
     (if ok response then ret tt
      else throw {| kind := OtherError;
                    message := str "HTTP error! status: "
                               ++ Number_toString (of_Z (status response)) |}) ;;
     jsonData <- response_json response ;;
     validatedData <- parse_models jsonData ;;
     Deno_writeTextFile (JSON_stringify (json_of_Models validatedData)) ;;
     ret (data validatedData))
    on_fetch_error.

Definition fetchModels (forceRefresh : bool) : IO (list Model) :=
  Deno_mkdir ;;
  cached <- cache_fresh_path forceRefresh ;;
  match cached with
  | Some models => ret models
  | None => network_path
  end.

(** *** Printing *)

Fixpoint for_each {A} (f : A -> IO unit) (l : list A) : IO unit :=
  match l with
  | [] => ret tt
  | x :: rest => f x ;; for_each f rest
  end.

(** The reading of the clock [getHumanReadableAge] takes for a record.
    [new Date()] comes after the test of the timestamp: for a timestamp
    that is 0 or [NaN] the clock is not read, and the age is "Unknown"
    whatever stands for [now]. *)
Definition timestamp_unknown (createdTimestamp : number) : bool :=
  is_nan createdTimestamp || num_eq createdTimestamp pos_zero.

Definition age_reading (createdTimestamp : number) : IO number :=
  if timestamp_unknown createdTimestamp then ret pos_zero else Date_now.

Definition outputAsTable (models : list Model) (args : Args) : IO unit :=
  console_log (join (str " | ") (tableHeaders (invert_price args))) ;;
  for_each
    (fun model =>
       now <- age_reading (created model) ;;
       console_log (join (str " | ") (tableRow args now model)))
    models.

Definition outputAsJson (models : list Model) : IO unit :=
  console_log (JSON_stringify (JArray (map json_of_Model models))).

Definition outputAsCsv (models : list Model) (args : Args) : IO unit :=
  console_log (join (str ",") (csvHeaders (invert_price args))) ;;
  for_each (fun model => console_log (join (str ",") (csvRow args model))) models.

Definition dashes (h : jsstring) : jsstring := repeat 45%N (List.length h).

Definition outputAsMarkdown (models : list Model) (args : Args) : IO unit :=
  let headers := markdownHeaders args in
  console_log (str "| " ++ join (str " | ") (map or_empty headers) ++ str " |") ;;
  console_log
    (str "| " ++ join (str " | ") (map dashes (non_null headers)) ++ str " |") ;;
  for_each
    (fun model =>
       now <- age_reading (created model) ;;
       console_log
         (str "| " ++ join (str " | ") (non_null (markdownRow args now model))
              ++ str " |"))
    models.

(** ** Main execution *)

Definition usage : jsstring := str
"OpenRouter Model Explorer
Usage: ./or_models.ts [search_term] [options]

Options:
  --help, -h                       Show this help message.
  --version, -v                    Show version.
  --output <format>                Output format: table, json, csv, md, md-verbose (default: table).
  --sort-by <field>                Sort by: prompt_price, completion_price, context, created, name (default: created).
  --desc                           Sort in descending order.
  --invert-price                   Show price as tokens per dollar instead of dollar per million.
  --force-refresh                  Force a fresh download of the model list.
  --long                           Output long model names, possibly breaking terminal layout (default: off).

Filtering:
  --free                           Show only free models.
  --min-prompt-price <price>       Filter by minimum prompt price per token.
  --max-prompt-price <price>       Filter by maximum prompt price per token.
  --min-context <length>           Filter by minimum context length.
  --max-context <length>           Filter by maximum context length.
  --supports-reasoning             Filter for models that support reasoning.
  --supports-tools                 Filter for models that support tool use.
  --supports-structured-output     Filter for models that support structured output.
  --supports-response-format       Filter for models that support response format (JSON mode).
  ".

Definition main (args : Args) : IO unit :=
  if help args then console_log usage
  else if version args then console_log VERSION
  else
    allModels <- fetchModels (force_refresh args) ;;
    let filtered := filterModels allModels args in
    sorted <- lift (sortModels filtered (sort_by args) (desc args)) ;;
    if jsstring_eqb (output args) (str "json") then outputAsJson sorted
    else if jsstring_eqb (output args) (str "csv") then outputAsCsv sorted args
    else if jsstring_eqb (output args) (str "md")
            || jsstring_eqb (output args) (str "md-verbose")
    then outputAsMarkdown sorted args
    else outputAsTable sorted args.

(** The status the process ends with: 0 when the module runs to its end,
    1 for an exception nothing catches, else the argument of
    [Deno.exit]. *)
Definition exit_status {A} (c : Completion A) : Z :=
  match c with
  | Normal _ => 0
  | Throw _ => 1
  | Exit code => code
  end.

(** A run of the program from a cache file in a given state. *)
Definition initial (f : File) : World :=
  {| cache_file := f; ticks := 0; events := [] |}.

Definition run (args : Args) (f : File) : Completion unit * World :=
  main args (initial f).

End Runtime.

(** ** Notions the properties are stated with *)

Section Notions.

Context {host : Host}.

(** The batch a cache file holds: its text read, decoded and validated. *)
Definition cached_batch (f : File) : option (list Model) :=
  match f with
  | Present _ (inr text) =>
      match JSON_parse text with
      | Some j => option_map data (OpenRouterModelsSchema j)
      | None => None
      end
  | _ => None
  end.

(** The batch the HTTP GET yields: a 2xx response whose body decodes and
    passes the schema. *)
Definition fetched_batch (env : Env) : option Models :=
  match fetch_result env with
  | inr r =>
      if ok r then
        match body r with
        | inr j => OpenRouterModelsSchema j
        | inl _ => None
        end
      else None
  | inl _ => None
  end.

(** What the stale-fallback path makes of a cache file. *)
Definition stale_result (f : File) : Completion (list Model) :=
  match cached_batch f with
  | Some models => Normal models
  | None => Exit 1
  end.

(** The age in hours [fetchModels] computes for a file last modified at
    [t], from the reading [now] of the clock. *)
Definition ageHours (now t : number) : number :=
  num_div (num_sub now t) (of_Z (1000 * 60 * 60)).

(** The error of [Deno.mkdir], when the cache directory cannot be
    created. *)
Definition mkdir_failure (env : Env) (f : File) : option Error :=
  match f with
  | Present _ _ => None
  | _ => mkdir_error env
  end.

(** The batch the cache-fresh path returns: the caller did not force a
    refresh, the file is there, its age is below 24 hours and its
    content validates. *)
Definition fresh_batch (env : Env) (forceRefresh : bool) (w : World)
  : option (list Model) :=
  match cache_file w with
  | Present info _ =>
      match mtime info with
      | Some t =>
          if negb forceRefresh
             && num_lt (ageHours (clock env (ticks w)) t) CACHE_EXPIRATION_HOURS
          then cached_batch (cache_file w)
          else None
      | None => None
      end
  | _ => None
  end.

(** The batch the network path returns by itself: fetched, validated and
    written to the cache file. *)
Definition network_batch (env : Env) : option (list Model) :=
  match fetched_batch env, write_error env with
  | Some d, None => Some (data d)
  | _, _ => None
  end.

(** The file the stale-fallback path reads: what a failed write left
    behind, else the cache file as it was. *)
Definition stale_file (env : Env) (f : File) : File :=
  match fetched_batch env, write_error env with
  | Some _, Some (_, leftover) => leftover
  | _, _ => f
  end.

(** The three branches of the fetch orchestrator, as one decision. *)
Definition fetch_outcome (env : Env) (forceRefresh : bool) (w : World)
  : Completion (list Model) :=
  match mkdir_failure env (cache_file w) with
  | Some e => Throw e
  | None =>
      match fresh_batch env forceRefresh w with
      | Some models => Normal models
      | None =>
          match network_batch env with
          | Some models => Normal models
          | None => stale_result (stale_file env (cache_file w))
          end
      end
  end.

Definition is_stderr (e : Event) : Prop := exists line, e = Stderr line.

(** The time elapsed since a record was created, as
    [getHumanReadableAge] computes it from the reading [now] of the
    clock: in seconds, and in days. *)
Definition elapsed_seconds (now createdTimestamp : number) : number :=
  num_div (num_sub now (TimeClip (num_mul createdTimestamp (of_Z 1000))))
          (of_Z 1000).

Definition elapsed_days (now createdTimestamp : number) : number :=
  num_div (elapsed_seconds now createdTimestamp) (of_Z (60 * 60 * 24)).

(** [count unit] and [count units]: a bucket of the age string. *)
Definition counted (count : number) (unit : String.string) : jsstring :=
  Number_toString count ++ str unit ++ plural count.

(** A clock reading [ms] milliseconds after the second [created]. *)
Definition after (created ms : Z) : number := of_Z (created * 1000 + ms).

Definition day_ms : Z := 24 * 60 * 60 * 1000.

(** No filter option is active. *)
Definition no_filter (args : Args) : Prop :=
  match searchTerm args with Some term => term = [] | None => True end
  /\ free args = false
  /\ min_prompt_price args = None /\ max_prompt_price args = None
  /\ min_context args = None /\ max_context args = None
  /\ supports_reasoning args = false /\ supports_tools args = false
  /\ supports_structured_output args = false
  /\ is_set (supports_response_format args) = false.

Definition set_free (b : bool) (args : Args) : Args :=
  {| positional := positional args; long := long args; free := b;
     supports_reasoning := supports_reasoning args;
     supports_tools := supports_tools args;
     supports_structured_output := supports_structured_output args;
     desc := desc args; group_by_provider := group_by_provider args;
     force_refresh := force_refresh args; invert_price := invert_price args;
     help := help args; version := version args; sort_by := sort_by args;
     output := output args; min_prompt_price := min_prompt_price args;
     max_prompt_price := max_prompt_price args;
     min_context := min_context args; max_context := max_context args;
     supports_response_format := supports_response_format args |}.

(** The effective prompt price is exactly zero and the record is not the
    auto-routing one. *)
Definition free_record (m : Model) : bool :=
  num_eq (getEffectivePrice (prompt (pricing m)) (id m)) pos_zero
  && negb (jsstring_eqb (id m) AUTO_ROUTER).

(** The keys of two records are equal. *)
Definition same_key (k : KeyFn) (a b : Model) : bool :=
  match k with
  | NumberKey f => num_eq (f a) (f b)
  | StringKey f => jsstring_eqb (f a) (f b)
  end.

(** [a] may stand before [b]: ascending, the key of [b] is not below the
    key of [a]; descending, it is not above. *)
Definition in_order (k : KeyFn) (desc : bool) (a b : Model) : Prop :=
  if desc then key_lt k a b = false else key_lt k b a = false.

(** The key of a record can be compared with every other: it is not
    [NaN]. *)
Definition comparable (k : KeyFn) (m : Model) : Prop :=
  match k with
  | NumberKey f => is_nan (f m) = false
  | StringKey _ => True
  end.

Definition keys_comparable (k : KeyFn) (models : list Model) : Prop :=
  Forall (comparable k) models.

(** The place of a number on the line, [NaN] apart: sign class, then
    exponent, then mantissa. *)
Definition rank (x : number) : Z * Z * Z :=
  match x with
  | S754_infinity true => (-2, 0, 0)
  | S754_finite true m e => (-1, - e, Zneg m)
  | S754_zero _ => (0, 0, 0)
  | S754_nan => (0, 0, 0)
  | S754_finite false m e => (1, e, Zpos m)
  | S754_infinity false => (2, 0, 0)
  end.

Definition lex3 (a b : Z * Z * Z) : comparison :=
  let '(a1, a2, a3) := a in
  let '(b1, b2, b3) := b in
  match a1 ?= b1 with
  | Eq => match a2 ?= b2 with
          | Eq => a3 ?= b3
          | c => c
          end
  | c => c
  end.

(** The pricing object as [schemas.ts] types it, when [request] and
    [image] are present. *)
Definition strict_pricing (p : Pricing) : option Schemas.Pricing :=
  match request p, image p with
  | Some r, Some i =>
      Some (Schemas.Build_Pricing (prompt p) (completion p) r i
              (web_search p) (internal_reasoning p)
              (input_cache_read p) (input_cache_write p))
  | _, _ => None
  end.

Definition strict_model (m : Model) : option Schemas.Model :=
  option_map
    (fun p =>
       Schemas.Build_Model (id m) (name m) (description m) (context_length m)
         (created m) (hugging_face_id m) (canonical_slug m) (architecture m)
         p (top_provider m) (per_request_limits m) (supported_parameters m))
    (strict_pricing (pricing m)).

Fixpoint strict_all (ms : list Model) : option (list Schemas.Model) :=
  match ms with
  | [] => Some []
  | m :: rest =>
      match strict_model m, strict_all rest with
      | Some m', Some rest' => Some (m' :: rest')
      | _, _ => None
      end
  end.

Definition strict_models (d : Models) : option Schemas.Models :=
  option_map Schemas.Build_Models (strict_all (data d)).

Definition has_request_and_image (m : Model) : Prop :=
  request (pricing m) <> None /\ image (pricing m) <> None.

(** The numbers of a record [schemas.ts] validated are safe integers,
    as zod 4 asks. *)
Definition safe_nullable (x : option number) : bool :=
  match x with
  | Some n => Number_isSafeInteger n
  | None => true
  end.

Definition safe_top_provider (t : TopProvider) : bool :=
  safe_nullable (tp_context_length t)
  && safe_nullable (max_completion_tokens t).

Definition safe_record (m : Schemas.Model) : bool :=
  Number_isSafeInteger (Schemas.context_length m)
  && Number_isSafeInteger (Schemas.created m)
  && safe_top_provider (Schemas.top_provider m).

End Notions.

(** ** Sample data *)

Definition text_to_text : Architecture :=
  {| modality := str "text->text";
     input_modalities := [str "text"];
     output_modalities := [str "text"];
     tokenizer := str "GPT";
     instruct_type := None |}.

Definition no_limits : TopProvider :=
  {| tp_context_length := Some (of_Z 4095);
     max_completion_tokens := Some (of_Z 4096);
     is_moderated := false |}.

(** A record with the given id, name, prompt and completion price. *)
Definition sample_model (i n p c : String.string) : Model :=
  {| id := str i;
     name := str n;
     description := str "A model.";
     context_length := of_Z 4095;
     created := of_Z 1706140800;
     hugging_face_id := None;
     canonical_slug := str i;
     architecture := text_to_text;
     pricing := {| prompt := str p; completion := str c;
                   request := None; image := None; web_search := None;
                   internal_reasoning := None; input_cache_read := None;
                   input_cache_write := None |};
     top_provider := no_limits;
     per_request_limits := None;
     supported_parameters := [str "tools"; str "response_format"] |}.

(** A record known by its name, and one known by its prompt price. *)
Definition named (n : String.string) : Model := sample_model n n "0" "0".
Definition priced (i p : String.string) : Model := sample_model i i p p.

(** A pricing object that carries only [prompt] and [completion]. *)
Definition lean_pricing : json :=
  JObject [(str "prompt", JString (str "0.000001"));
           (str "completion", JString (str "0.000002"))].

(** The document [{ data: [m] }] for one record with the pricing object
    given. *)
Definition catalog_with (pricing_object : json) : json :=
  JObject
    [(str "data",
      JArray
        [JObject
           [(str "id", JString (str "openai/gpt-3.5-turbo-0613"));
            (str "name", JString (str "OpenAI: GPT-3.5 Turbo (older v0613)"));
            (str "description", JString (str "A model."));
            (str "context_length", JNumber (of_Z 4095));
            (str "created", JNumber (of_Z 1706140800));
            (str "hugging_face_id", JNull);
            (str "canonical_slug", JString (str "openai/gpt-3.5-turbo-0613"));
            (str "architecture", json_of_Architecture text_to_text);
            (str "pricing", pricing_object);
            (str "top_provider", json_of_TopProvider no_limits);
            (str "per_request_limits", JNull);
            (str "supported_parameters",
             json_strings [str "tools"; str "response_format"])]])].

Definition lean_catalog : json := catalog_with lean_pricing.

(** A pricing object with [request] and [image], and a catalog whose
    one record has it and a context length of 2^53. *)
Definition full_pricing : json :=
  JObject [(str "prompt", JString (str "0.000001"));
           (str "completion", JString (str "0.000002"));
           (str "request", JString (str "0"));
           (str "image", JString (str "0"))].

Definition wide_catalog : json :=
  JObject
    [(str "data",
      JArray
        [JObject
           [(str "id", JString (str "openai/gpt-3.5-turbo-0613"));
            (str "name", JString (str "OpenAI: GPT-3.5 Turbo (older v0613)"));
            (str "description", JString (str "A model."));
            (str "context_length", JNumber (of_Z (2 ^ 53)));
            (str "created", JNumber (of_Z 1706140800));
            (str "hugging_face_id", JNull);
            (str "canonical_slug", JString (str "openai/gpt-3.5-turbo-0613"));
            (str "architecture", json_of_Architecture text_to_text);
            (str "pricing", full_pricing);
            (str "top_provider", json_of_TopProvider no_limits);
            (str "per_request_limits", JNull);
            (str "supported_parameters",
             json_strings [str "tools"; str "response_format"])]])].

(** The record [lean_catalog] validates to. *)
Definition gpt35 : Model :=
  sample_model "openai/gpt-3.5-turbo-0613" "OpenAI: GPT-3.5 Turbo (older v0613)"
               "0.000001" "0.000002".

Definition catalog_text : jsstring := str "{ data: [gpt-3.5-turbo-0613] }".
Definition older_text : jsstring := str "{ data: [] }".

(** Sorting by binary insertion: each element in turn is put, by
    bisection, among those before it. *)
Fixpoint bisect {A} (compareFn : A -> A -> Z) (pivot : A) (sorted : list A)
         (left right fuel : nat) : nat :=
  match fuel with
  | O => left
  | S fuel' =>
      if (left <? right)%nat then
        let mid := (left + (right - left) / 2)%nat in
        match nth_error sorted mid with
        | Some y =>
            if compareFn pivot y <? 0
            then bisect compareFn pivot sorted left mid fuel'
            else bisect compareFn pivot sorted (S mid) right fuel'
        | None => left
        end
      else left
  end.

Fixpoint binary_insertion {A} (compareFn : A -> A -> Z) (l built : list A)
  : list nat :=
  match l with
  | [] => []
  | x :: l' =>
      let place :=
        bisect compareFn x built 0 (List.length built) (List.length built) in
      place :: binary_insertion compareFn l' (insert_at place x built)
  end.

(** A host without colours, whose JSON codec knows two documents and
    whose engine sorts by binary insertion. *)
Definition plain_host : Host :=
  {| number_to_string_other := fun _ => str "?";
     StringToNumber := StringNumericLiteral_value;
     toLowerCase_unicode := fun s => s;
     toFixed2 := fun _ => str "?";
     toLocaleString_integral := fun _ => str "?";
     toLocaleString := fun _ => str "?";
     JSON_parse := fun text =>
       if jsstring_eqb text catalog_text then Some lean_catalog
       else if jsstring_eqb text older_text
            then Some (JObject [(str "data", JArray [])])
            else None;
     JSON_stringify := fun _ => catalog_text;
     engine_places := fun A compareFn l => binary_insertion compareFn l [];
     bold := fun s => s;
     dim := fun s => s;
     green := fun s => s;
     magenta := fun s => s;
     yellow := fun s => s;
     syntax_error_message := fun _ => str "Unexpected token";
     zod_error_message := fun _ => str "Invalid input";
     null_mtime_message := str "Cannot read properties of null";
     not_callable_message := fun _ => str "is not a function" |}.

Definition plain_args : Args :=
  {| positional := []; long := false; free := false;
     supports_reasoning := false; supports_tools := false;
     supports_structured_output := false; desc := false;
     group_by_provider := false; force_refresh := false;
     invert_price := false; help := false; version := false;
     sort_by := str "created"; output := str "table";
     min_prompt_price := None; max_prompt_price := None;
     min_context := None; max_context := None;
     supports_response_format := None |}.

Definition inverted_args : Args :=
  {| positional := []; long := false; free := false;
     supports_reasoning := false; supports_tools := false;
     supports_structured_output := false; desc := false;
     group_by_provider := false; force_refresh := false;
     invert_price := true; help := false; version := false;
     sort_by := str "created"; output := str "table";
     min_prompt_price := None; max_prompt_price := None;
     min_context := None; max_context := None;
     supports_response_format := None |}.

(** The auto-routing record, as the API lists it. *)
Definition auto_router : Model := priced "openrouter/auto" "-1".

(** The second at which the sample records were created. *)
Definition epoch : Z := 1706140800.

Definition disk_full : Error :=
  {| kind := OtherError; message := str "No space left on device" |}.

(** The GET answers 200 with [lean_catalog]; the clock stands at
    [now]; a write, when [write] is given, fails that way. *)
Definition answering (now : Z) (write : option (Error * File)) : Env :=
  {| mkdir_error := None;
     clock := fun _ => of_Z now;
     fetch_result := inr {| status := 200; body := inr lean_catalog |};
     write_error := write |}.

(** As [answering], when the cache directory cannot be created. *)
Definition read_only_home (now : Z) : Env :=
  {| mkdir_error := Some {| kind := OtherError;
                            message := str "Permission denied" |};
     clock := fun _ => of_Z now;
     fetch_result := inr {| status := 200; body := inr lean_catalog |};
     write_error := None |}.

Definition help_args : Args :=
  {| positional := []; long := false; free := false;
     supports_reasoning := false; supports_tools := false;
     supports_structured_output := false; desc := false;
     group_by_provider := false; force_refresh := false;
     invert_price := false; help := true; version := false;
     sort_by := str "created"; output := str "table";
     min_prompt_price := None; max_prompt_price := None;
     min_context := None; max_context := None;
     supports_response_format := None |}.

(** A cache file written at time 0 that holds [catalog_text], and one
    that holds an older, empty catalog. *)
Definition cached_catalog : File :=
  Present {| mtime := Some (of_Z 0) |} (inr catalog_text).

Definition older_catalog : File :=
  Present {| mtime := Some (of_Z 0) |} (inr older_text).

(** ** Further notions *)

(** A nullable number is [null] or a safe integer. *)
Definition integral (x : option number) : Prop :=
  match x with
  | Some n => Number_isSafeInteger n = true
  | None => True
  end.

(** The numeric fields of a record are safe integers: what
    [z.number().int()] asked of them. *)
Definition valid_model (m : Model) : Prop :=
  Number_isSafeInteger (context_length m) = true
  /\ Number_isSafeInteger (created m) = true
  /\ integral (tp_context_length (top_provider m))
  /\ integral (max_completion_tokens (top_provider m)).

(** The keys the shape of [ModelSchema] declares. *)
Definition model_keys : list String.string :=
  ["id"; "name"; "description"; "context_length"; "created";
   "hugging_face_id"; "canonical_slug"; "architecture"; "pricing";
   "top_provider"; "per_request_limits"; "supported_parameters"]%string.

(** The optional keys of [PricingSchema]. *)
Definition optional_pricing_keys : list String.string :=
  ["request"; "image"; "web_search"; "internal_reasoning";
   "input_cache_read"; "input_cache_write"]%string.

(** The property [k] of an object is a string, or is absent or one. *)
Definition string_at (o : list (jsstring * json)) (k : String.string) : Prop :=
  exists s, get_prop o (str k) = Some (JString s).

Definition string_or_absent_at (o : list (jsstring * json)) (k : String.string)
  : Prop :=
  get_prop o (str k) = None \/ string_at o k.

Section Further_notions.

Context {host : Host}.

(** The test of one optional bound of [filterModels]. *)
Definition within {B} (bound : option B) (p : B -> Model -> bool) (m : Model)
  : bool :=
  match bound with
  | Some b => p b m
  | None => true
  end.

(** The record passes every active filter of [filterModels]. *)
Definition passes (args : Args) (m : Model) : bool :=
  match searchTerm args with
  | Some term => jsstring_eqb term [] || matches_search term m
  | None => true
  end
  && (negb (free args) || is_free m)
  && within (min_prompt_price args)
       (fun b m => num_ge (getEffectivePrice (prompt (pricing m)) (id m)) (ToNumber b)) m
  && within (max_prompt_price args)
       (fun b m => num_le (getEffectivePrice (prompt (pricing m)) (id m)) (ToNumber b)) m
  && within (min_context args) (fun b m => num_ge (context_length m) (ToNumber b)) m
  && within (max_context args) (fun b m => num_le (context_length m) (ToNumber b)) m
  && (negb (supports_reasoning args)
      || checkParam [str "reasoning"; str "include_reasoning"] m)
  && (negb (supports_tools args) || checkParam [str "tools"; str "tool_choice"] m)
  && (negb (supports_structured_output args)
      || checkParam [str "structured_outputs"] m)
  && (negb (is_set (supports_response_format args))
      || checkParam [str "response_format"] m).

(** No filter but the search term is active. *)
Definition only_search (args : Args) : Prop :=
  free args = false
  /\ min_prompt_price args = None /\ max_prompt_price args = None
  /\ min_context args = None /\ max_context args = None
  /\ supports_reasoning args = false /\ supports_tools args = false
  /\ supports_structured_output args = false
  /\ is_set (supports_response_format args) = false.

(** The term occurs in the field, case folded. *)
Definition occurs_in (term field : jsstring) : Prop :=
  exists before after, toLowerCase field = before ++ term ++ after.

End Further_notions.

(** *** More sample command lines *)

(** [--max-prompt-price 1] *)
Definition capped_args : Args :=
  {| positional := []; long := false; free := false;
     supports_reasoning := false; supports_tools := false;
     supports_structured_output := false; desc := false;
     group_by_provider := false; force_refresh := false;
     invert_price := false; help := false; version := false;
     sort_by := str "created"; output := str "table";
     min_prompt_price := None;
     max_prompt_price := Some (ArgNumber (of_Z 1));
     min_context := None; max_context := None;
     supports_response_format := None |}.

(** [--supports-tools] *)
Definition tools_args : Args :=
  {| positional := []; long := false; free := false;
     supports_reasoning := false; supports_tools := true;
     supports_structured_output := false; desc := false;
     group_by_provider := false; force_refresh := false;
     invert_price := false; help := false; version := false;
     sort_by := str "created"; output := str "table";
     min_prompt_price := None; max_prompt_price := None;
     min_context := None; max_context := None;
     supports_response_format := None |}.

(** *** Positions in a sequence *)

(** Wherever [b] stands in [l], [a] stands before it and not after. *)
Definition precedes {A} (a b : A) (l : list A) : Prop :=
  forall front back, l = front ++ b :: back -> In a front /\ ~ In a back.

(** *** What a run does besides logging *)

Definition is_stderrb (e : Event) : bool :=
  match e with Stderr _ => true | _ => false end.

(** The events of a log that are not lines on the error stream: lines
    on standard output, requests, writes of the cache file. *)
Definition effects (log : list Event) : list Event :=
  filter (fun e => negb (is_stderrb e)) log.

(** The lines printed on standard output. *)
Fixpoint stdout_lines (log : list Event) : list jsstring :=
  match log with
  | [] => []
  | Stdout line :: rest => line :: stdout_lines rest
  | _ :: rest => stdout_lines rest
  end.

(** An environment without network. *)
Definition offline (now : Z) : Env :=
  {| mkdir_error := None;
     clock := fun _ => of_Z now;
     fetch_result :=
       inl {| kind := TypeError; message := str "error sending request" |};
     write_error := None |}.

(** [--force-refresh] *)
Definition refresh_args : Args :=
  {| positional := []; long := false; free := false;
     supports_reasoning := false; supports_tools := false;
     supports_structured_output := false; desc := false;
     group_by_provider := false; force_refresh := true;
     invert_price := false; help := false; version := false;
     sort_by := str "created"; output := str "table";
     min_prompt_price := None; max_prompt_price := None;
     min_context := None; max_context := None;
     supports_response_format := None |}.

(** *** What the output functions print *)

Section Printed.

Context {host : Host}.
Variable env : Env.

(** The records, each with the reading of the clock taken for it, from
    tick [t] on: one for each record whose timestamp is known. *)
Fixpoint readings (t : nat) (models : list Model) : list (number * Model) :=
  match models with
  | [] => []
  | m :: rest =>
      if timestamp_unknown (created m)
      then (pos_zero, m) :: readings t rest
      else (clock env t, m) :: readings (S t) rest
  end.

Definition table_lines (args : Args) (t : nat) (models : list Model)
  : list jsstring :=
  join (str " | ") (tableHeaders (invert_price args))
  :: map (fun r => join (str " | ") (tableRow args (fst r) (snd r)))
         (readings t models).

Definition csv_lines (args : Args) (models : list Model) : list jsstring :=
  join (str ",") (csvHeaders (invert_price args))
  :: map (fun m => join (str ",") (csvRow args m)) models.

Definition markdown_lines (args : Args) (t : nat) (models : list Model)
  : list jsstring :=
  (str "| " ++ join (str " | ") (map or_empty (markdownHeaders args)) ++ str " |")
  :: (str "| " ++ join (str " | ") (map dashes (non_null (markdownHeaders args)))
          ++ str " |")
  :: map (fun r =>
            str "| "
            ++ join (str " | ") (non_null (markdownRow args (fst r) (snd r)))
            ++ str " |")
         (readings t models).

End Printed.

(** [--output csv] *)
Definition csv_args : Args :=
  {| positional := []; long := false; free := false;
     supports_reasoning := false; supports_tools := false;
     supports_structured_output := false; desc := false;
     group_by_provider := false; force_refresh := false;
     invert_price := false; help := false; version := false;
     sort_by := str "created"; output := str "csv";
     min_prompt_price := None; max_prompt_price := None;
     min_context := None; max_context := None;
     supports_response_format := None |}.

(** [--min-context many] *)
Definition unreadable_bound_args : Args :=
  {| positional := []; long := false; free := false;
     supports_reasoning := false; supports_tools := false;
     supports_structured_output := false; desc := false;
     group_by_provider := false; force_refresh := false;
     invert_price := false; help := false; version := false;
     sort_by := str "created"; output := str "table";
     min_prompt_price := None; max_prompt_price := None;
     min_context := Some (ArgString (str "many")); max_context := None;
     supports_response_format := None |}.

(** * Properties *)

(** ** Strings and numbers *)

Lemma jsstring_eqb_eq (s t : jsstring) : jsstring_eqb s t = true <-> s = t.
Proof.
  unfold jsstring_eqb. destruct (list_eq_dec N.eq_dec s t); split; congruence.
Qed.

Lemma jsstring_eqb_refl (s : jsstring) : jsstring_eqb s s = true.
Proof. now apply jsstring_eqb_eq. Qed.

Lemma jsstring_eqb_neq (s t : jsstring) : jsstring_eqb s t = false <-> s <> t.
Proof.
  unfold jsstring_eqb. destruct (list_eq_dec N.eq_dec s t); split; congruence.
Qed.

(** ** The two schema modules *)

Section Schemas_vs_inline.

Local Open Scope string_scope.

Lemma required_as_optional {T} (s : Zod.schema T) o k :
  Zod.required s o k =
  match Zod.optional s o k with
  | Some (Some v) => Some v
  | _ => None
  end.
Proof.
  unfold Zod.required, Zod.optional.
  destruct (get_prop o (str k)) as [v|]; [|reflexivity].
  now destruct (s v).
Qed.

Lemma Pricing_strict (j : json) :
  Schemas.PricingSchema j =
  match PricingSchema j with
  | Some p => strict_pricing p
  | None => None
  end.
Proof.
  destruct j; try reflexivity.
  unfold Schemas.PricingSchema, PricingSchema, Zod.object.
  rewrite !(required_as_optional Zod.string props "request").
  rewrite !(required_as_optional Zod.string props "image").
  destruct (Zod.required Zod.string props "prompt"); [|reflexivity].
  destruct (Zod.required Zod.string props "completion"); [|reflexivity].
  destruct (Zod.optional Zod.string props "request") as [[r|]|]; try reflexivity;
  destruct (Zod.optional Zod.string props "image") as [[i|]|]; try reflexivity;
  destruct (Zod.optional Zod.string props "web_search"); try reflexivity;
  destruct (Zod.optional Zod.string props "internal_reasoning"); try reflexivity;
  destruct (Zod.optional Zod.string props "input_cache_read"); try reflexivity;
  destruct (Zod.optional Zod.string props "input_cache_write"); reflexivity.
Qed.

Lemma required_Pricing_strict o k :
  Zod.required Schemas.PricingSchema o k =
  match Zod.required PricingSchema o k with
  | Some p => strict_pricing p
  | None => None
  end.
Proof.
  unfold Zod.required. destruct (get_prop o (str k)); [|reflexivity].
  apply Pricing_strict.
Qed.

(** zod 4 asks of an integer what zod 3 asks, and that it be safe. *)
Lemma number_int_safe (j : json) :
  Zod4.number_int j =
  match Zod.number_int j with
  | Some x => if Number_isSafeInteger x then Some x else None
  | None => None
  end.
Proof.
  destruct j; try reflexivity. cbn. unfold Number_isSafeInteger.
  destruct (Number_isInteger x) eqn:E; [|reflexivity]. cbn. now rewrite E.
Qed.

Lemma required_int_safe o k :
  Zod.required Zod4.number_int o k =
  match Zod.required Zod.number_int o k with
  | Some x => if Number_isSafeInteger x then Some x else None
  | None => None
  end.
Proof.
  unfold Zod.required. destruct (get_prop o (str k)); [|reflexivity].
  apply number_int_safe.
Qed.

Lemma required_nullable_int_safe o k :
  Zod.required (Zod.nullable Zod4.number_int) o k =
  match Zod.required (Zod.nullable Zod.number_int) o k with
  | Some x => if safe_nullable x then Some x else None
  | None => None
  end.
Proof.
  unfold Zod.required. destruct (get_prop o (str k)) as [j|]; [|reflexivity].
  unfold Zod.nullable. destruct j; try reflexivity.
  rewrite number_int_safe. destruct (Zod.number_int (JNumber x)) as [y|]; cbn;
    [|reflexivity].
  now destruct (Number_isSafeInteger y).
Qed.

Lemma TopProvider_safe (j : json) :
  TopProviderSchema j =
  match Schemas.TopProviderSchema j with
  | Some t => if safe_top_provider t then Some t else None
  | None => None
  end.
Proof.
  destruct j; try reflexivity.
  unfold TopProviderSchema, Schemas.TopProviderSchema, Zod.object.
  rewrite !required_nullable_int_safe. unfold safe_top_provider.
  destruct (Zod.required (Zod.nullable Zod.number_int) props "context_length")
    as [c|]; [|reflexivity].
  destruct (Zod.required (Zod.nullable Zod.number_int) props "max_completion_tokens")
    as [m|]; [|now destruct (safe_nullable c)].
  destruct (Zod.required Zod.boolean props "is_moderated") as [b|];
    cbn [tp_context_length max_completion_tokens];
    destruct (safe_nullable c), (safe_nullable m); reflexivity.
Qed.

Lemma required_TopProvider_safe o k :
  Zod.required TopProviderSchema o k =
  match Zod.required Schemas.TopProviderSchema o k with
  | Some t => if safe_top_provider t then Some t else None
  | None => None
  end.
Proof.
  unfold Zod.required. destruct (get_prop o (str k)); [|reflexivity].
  apply TopProvider_safe.
Qed.

(** What the two [ModelSchema] make of one value. *)
Lemma Model_both (j : json) :
  match ModelSchema j, Schemas.ModelSchema j with
  | Some m, Some m' => strict_model m = Some m' /\ safe_record m' = true
  | Some m, None => strict_model m = None
  | None, Some m' => safe_record m' = false
  | None, None => True
  end.
Proof.
  destruct j; try exact I.
  unfold Schemas.ModelSchema, ModelSchema, Zod.object.
  rewrite required_Pricing_strict, required_TopProvider_safe, !required_int_safe.
  change Schemas.ArchitectureSchema with ArchitectureSchema.
  repeat match goal with
         | |- context [Zod.required ?s props ?k] =>
             destruct (Zod.required s props k); [|try exact I]
         end.
  all: try exact I.
  all: repeat (match goal with
               | |- context [if Number_isSafeInteger ?x then _ else _] =>
                   destruct (Number_isSafeInteger x) eqn:?
               | |- context [if safe_top_provider ?t then _ else _] =>
                   destruct (safe_top_provider t) eqn:?
               end; cbn [strict_model]).
  all: unfold strict_model, safe_record; cbn.
  all: try match goal with
           | |- context [strict_pricing ?q] => destruct (strict_pricing q)
           end; cbn.
  all: repeat match goal with
              | H : _ = true |- _ => rewrite H
              | H : _ = false |- _ => rewrite H
              end; cbn; auto using andb_false_r.
Qed.

Lemma parse_all_both (items : list json) :
  match Zod.parse_all ModelSchema items, Zod.parse_all Schemas.ModelSchema items with
  | Some ms, Some ms' => strict_all ms = Some ms' /\ forallb safe_record ms' = true
  | Some ms, None => strict_all ms = None
  | None, Some ms' => forallb safe_record ms' = false
  | None, None => True
  end.
Proof.
  induction items as [|j items IH]; [now split|].
  cbn [Zod.parse_all]. pose proof (Model_both j) as Hj.
  destruct (ModelSchema j) as [m|], (Schemas.ModelSchema j) as [m'|],
    (Zod.parse_all ModelSchema items) as [ms|],
    (Zod.parse_all Schemas.ModelSchema items) as [ms'|];
    cbn [strict_all forallb]; try exact I;
    repeat match goal with
           | H : _ /\ _ |- _ => destruct H
           end;
    repeat match goal with
           | H : strict_model _ = _ |- _ => rewrite H
           | H : strict_all _ = _ |- _ => rewrite H
           | H : safe_record _ = _ |- _ => rewrite H
           | H : forallb safe_record _ = _ |- _ => rewrite H
           end;
    auto using andb_false_r.
  all: now destruct (strict_model m).
Qed.

Lemma OpenRouterModels_both (j : json) :
  match OpenRouterModelsSchema j, Schemas.OpenRouterModelsSchema j with
  | Some d, Some d' =>
      strict_models d = Some d' /\ forallb safe_record (Schemas.data d') = true
  | Some d, None => strict_models d = None
  | None, Some d' => forallb safe_record (Schemas.data d') = false
  | None, None => True
  end.
Proof.
  destruct j; try exact I.
  unfold Schemas.OpenRouterModelsSchema, OpenRouterModelsSchema, Zod.object.
  unfold Zod.required. destruct (get_prop props (str "data")) as [v|]; [|exact I].
  destruct v; try exact I.
  cbn [Zod.array]. pose proof (parse_all_both items) as H.
  destruct (Zod.parse_all ModelSchema items) as [ms|],
    (Zod.parse_all Schemas.ModelSchema items) as [ms'|];
    unfold strict_models; cbn [data Schemas.data]; try exact I.
  - destruct H as [-> H]. now split.
  - now rewrite H.
  - exact H.
Qed.

Lemma strict_all_Some (ms : list Model) :
  (exists ms', strict_all ms = Some ms') <-> Forall has_request_and_image ms.
Proof.
  induction ms as [|m ms IH].
  - split; [constructor | now exists []].
  - cbn [strict_all]. split.
    + intros [ms' H]. unfold strict_model, strict_pricing in H.
      constructor.
      * unfold has_request_and_image.
        destruct (request (pricing m)), (image (pricing m));
          try discriminate; split; discriminate.
      * apply IH. destruct (strict_all ms); [eauto|].
        now destruct (option_map _ _).
    + intros H. inversion H as [|? ? [Hr Hi] Hrest]; subst.
      apply IH in Hrest. destruct Hrest as [ms' ->].
      unfold strict_model, strict_pricing.
      destruct (request (pricing m)); [|congruence].
      destruct (image (pricing m)); [|congruence].
      cbn. eauto.
Qed.

End Schemas_vs_inline.

(** C10, as it stands, fails in both directions.  A catalog whose
    pricing object has no [request] and no [image] passes the inline
    schema of [or-models.ts] and is rejected by [schemas.ts]; a catalog
    whose record has a context length of 2^53, an integer that is not
    safe, passes [schemas.ts] and is rejected by [or-models.ts]. *)
Lemma the_two_schemas_accept_different_values :
  (OpenRouterModelsSchema lean_catalog = Some {| data := [gpt35] |}
   /\ Schemas.OpenRouterModelsSchema lean_catalog = None
   /\ PricingSchema lean_pricing <> None
   /\ Schemas.PricingSchema lean_pricing = None)
  /\ (Schemas.OpenRouterModelsSchema wide_catalog <> None
      /\ OpenRouterModelsSchema wide_catalog = None
      /\ Zod.number_int (JNumber (of_Z (2 ^ 53))) = Some (of_Z (2 ^ 53))
      /\ Zod4.number_int (JNumber (of_Z (2 ^ 53))) = None).
Proof.
  repeat split; try (vm_compute; reflexivity); vm_compute; discriminate.
Qed.

(** C10, amended: the two validators agree where every pricing object
    has [request] and [image] and every integer is safe.  A decoded
    value passes the [OpenRouterModelsSchema] of [or-models.ts] with
    [request] and [image] in the pricing object of every record exactly
    when it passes the one of [schemas.ts] with safe integers for the
    context length, the creation time and the limits of the top
    provider of every record; and a value both accept validates to the
    same records. *)
Theorem schemas_agree_on_full_pricing_and_safe_integers (j : json) :
  ((exists d, OpenRouterModelsSchema j = Some d
              /\ Forall has_request_and_image (data d))
   <->
   (exists d', Schemas.OpenRouterModelsSchema j = Some d'
               /\ Forall (fun m => safe_record m = true) (Schemas.data d')))
  /\ (forall d d',
        OpenRouterModelsSchema j = Some d ->
        Schemas.OpenRouterModelsSchema j = Some d' ->
        strict_models d = Some d').
Proof.
  pose proof (OpenRouterModels_both j) as H.
  destruct (OpenRouterModelsSchema j) as [d|],
    (Schemas.OpenRouterModelsSchema j) as [d'|].
  - destruct H as [Hs Hsafe]. split.
    + split.
      * intros _. exists d'. split; [reflexivity|].
        apply Forall_forall. intros m Hm.
        rewrite forallb_forall in Hsafe. now apply Hsafe.
      * intros _. exists d. split; [reflexivity|].
        apply strict_all_Some. unfold strict_models in Hs.
        destruct (strict_all (data d)); [eauto|discriminate].
    + intros d0 d0' [= <-] [= <-]. exact Hs.
  - split; [|discriminate]. split.
    + intros (d0 & [= <-] & Hri). apply strict_all_Some in Hri.
      destruct Hri as [ms' E]. unfold strict_models in H. rewrite E in H.
      discriminate.
    + intros (d0 & E & _). discriminate.
  - split; [|discriminate]. split.
    + intros (d0 & E & _). discriminate.
    + intros (d0 & [= <-] & Hsafe).
      assert (forallb safe_record (Schemas.data d') = true)
        by (apply forallb_forall; now apply Forall_forall).
      congruence.
  - split; [|discriminate].
    split; intros (d0 & E & _); discriminate.
Qed.

(** ** The order of numbers *)

Lemma SFcompare_rank (x y : number) :
  is_nan x = false -> is_nan y = false ->
  SFcompare x y = Some (lex3 (rank x) (rank y)).
Proof.
  destruct x as [sx|sx| |sx mx ex], y as [sy|sy| |sy my ey];
    try discriminate; intros _ _;
    try destruct sx; try destruct sy; try reflexivity.
  cbn [SFcompare rank lex3]. rewrite Z.compare_opp, (Z.compare_antisym ex ey).
  change (-1 ?= -1) with Eq. cbv iota.
  destruct (ex ?= ey); reflexivity.
Qed.

Lemma lex3_Lt (a b : Z * Z * Z) :
  lex3 a b = Lt <->
  let '(a1, a2, a3) := a in
  let '(b1, b2, b3) := b in
  a1 < b1 \/ (a1 = b1 /\ (a2 < b2 \/ (a2 = b2 /\ a3 < b3))).
Proof.
  destruct a as [[a1 a2] a3], b as [[b1 b2] b3]. unfold lex3.
  destruct (Z.compare_spec a1 b1), (Z.compare_spec a2 b2),
    (Z.compare_spec a3 b3); split; intros K; try discriminate;
    try reflexivity; lia.
Qed.

Lemma lex3_Eq (a b : Z * Z * Z) : lex3 a b = Eq <-> a = b.
Proof.
  destruct a as [[a1 a2] a3], b as [[b1 b2] b3]. unfold lex3.
  destruct (Z.compare_spec a1 b1), (Z.compare_spec a2 b2),
    (Z.compare_spec a3 b3); split; intros K; try discriminate;
    try reflexivity; try congruence;
    injection K; intros; lia.
Qed.

Lemma num_lt_rank (x y : number) :
  is_nan x = false -> is_nan y = false ->
  num_lt x y = true <-> lex3 (rank x) (rank y) = Lt.
Proof.
  intros Hx Hy. unfold num_lt, SFltb. rewrite (SFcompare_rank _ _ Hx Hy).
  destruct (lex3 (rank x) (rank y)); split; congruence.
Qed.

Lemma num_lt_not_nan (x y : number) :
  num_lt x y = true -> is_nan x = false /\ is_nan y = false.
Proof.
  unfold num_lt, SFltb. destruct x, y; cbn; try discriminate; auto.
Qed.

Lemma num_eq_not_nan (x y : number) :
  num_eq x y = true -> is_nan x = false /\ is_nan y = false.
Proof.
  unfold num_eq, SFeqb. destruct x, y; cbn; try discriminate; auto.
Qed.

Lemma num_eq_rank (x y : number) :
  num_eq x y = true <-> is_nan x = false /\ is_nan y = false /\ rank x = rank y.
Proof.
  split.
  - intros H. destruct (num_eq_not_nan _ _ H) as [Hx Hy].
    repeat split; trivial. apply lex3_Eq.
    unfold num_eq, SFeqb in H. rewrite (SFcompare_rank _ _ Hx Hy) in H.
    now destruct (lex3 (rank x) (rank y)).
  - intros (Hx & Hy & E). unfold num_eq, SFeqb.
    rewrite (SFcompare_rank _ _ Hx Hy). apply lex3_Eq in E. now rewrite E.
Qed.

(** [<] on numbers is asymmetric. *)
Lemma num_lt_asym (x y : number) : num_lt x y = true -> num_lt y x = false.
Proof.
  intros H. destruct (num_lt_not_nan _ _ H) as [Hx Hy].
  destruct (num_lt y x) eqn:E; [|reflexivity].
  apply (num_lt_rank _ _ Hx Hy), lex3_Lt in H.
  apply (num_lt_rank _ _ Hy Hx), lex3_Lt in E.
  destruct (rank x) as [[? ?] ?], (rank y) as [[? ?] ?]. lia.
Qed.

(** Among numbers that are not [NaN], "not above" is transitive. *)
Lemma num_le_trans (x y z : number) :
  is_nan x = false -> is_nan y = false -> is_nan z = false ->
  num_lt y x = false -> num_lt z y = false -> num_lt z x = false.
Proof.
  intros Hx Hy Hz Hyx Hzy.
  destruct (num_lt z x) eqn:E; [|reflexivity].
  apply (num_lt_rank _ _ Hz Hx), lex3_Lt in E.
  assert (A : ~ lex3 (rank y) (rank x) = Lt)
    by (rewrite <- (num_lt_rank _ _ Hy Hx); congruence).
  assert (B : ~ lex3 (rank z) (rank y) = Lt)
    by (rewrite <- (num_lt_rank _ _ Hz Hy); congruence).
  rewrite lex3_Lt in A, B.
  destruct (rank x) as [[? ?] ?], (rank y) as [[? ?] ?], (rank z) as [[? ?] ?].
  lia.
Qed.

(** Numbers equal to a third are not below one another. *)
Lemma num_eq_not_lt (m x y : number) :
  num_eq m x = true -> num_eq m y = true -> num_lt x y = false.
Proof.
  intros Hx Hy. apply num_eq_rank in Hx, Hy.
  destruct Hx as (_ & Nx & Ex), Hy as (_ & Ny & Ey).
  destruct (num_lt x y) eqn:E; [|reflexivity].
  apply (num_lt_rank _ _ Nx Ny), lex3_Lt in E.
  rewrite <- Ex, <- Ey in E. destruct (rank m) as [[? ?] ?]. lia.
Qed.

(** ** The order of strings *)

Lemma N_compare_trans (x y z : N) (c : comparison) :
  (x ?= y)%N = c -> (y ?= z)%N = c -> (x ?= z)%N = c.
Proof.
  destruct c; intros H1 H2.
  - apply N.compare_eq_iff in H1, H2. subst. apply N.compare_refl.
  - rewrite N.compare_lt_iff in *. lia.
  - rewrite N.compare_gt_iff in *. lia.
Qed.

Lemma jsstring_compare_antisym (s t : jsstring) :
  list_compare N.compare t s = CompOpp (list_compare N.compare s t).
Proof.
  apply list_compare_antisym.
  - apply N.compare_eq_iff.
  - intros x y. apply N.compare_antisym.
Qed.

Lemma jsstring_lt_asym (s t : jsstring) :
  jsstring_lt s t = true -> jsstring_lt t s = false.
Proof.
  unfold jsstring_lt. rewrite (jsstring_compare_antisym s t).
  now destruct (list_compare N.compare s t).
Qed.

Lemma jsstring_lt_irrefl (s : jsstring) : jsstring_lt s s = false.
Proof.
  unfold jsstring_lt.
  now rewrite (proj2 (list_compare_refl N.compare N.compare_eq_iff s s) eq_refl).
Qed.

Lemma jsstring_le_trans (s t u : jsstring) :
  jsstring_lt t s = false -> jsstring_lt u t = false -> jsstring_lt u s = false.
Proof.
  unfold jsstring_lt. rewrite (jsstring_compare_antisym s t),
    (jsstring_compare_antisym t u), (jsstring_compare_antisym s u).
  destruct (list_compare N.compare s t) eqn:A; try discriminate; intros _;
    destruct (list_compare N.compare t u) eqn:B; try discriminate; intros _.
  - apply (list_compare_refl N.compare N.compare_eq_iff) in A, B. subst.
    now rewrite (proj2 (list_compare_refl N.compare N.compare_eq_iff u u) eq_refl).
  - apply (list_compare_refl N.compare N.compare_eq_iff) in A. subst.
    now rewrite B.
  - apply (list_compare_refl N.compare N.compare_eq_iff) in B. subst.
    now rewrite A.
  - rewrite (list_compare_trans N.compare N.compare_eq_iff s t u
               N_compare_trans N.compare_antisym A B).
    reflexivity.
Qed.

(** ** The stable ordering by a comparator *)

Section Sorting.

Variable A : Type.
Variable compareFn : A -> A -> Z.

(** [a] is not put after [b] by the comparator. *)
Let before (a b : A) : Prop := (0 <? compareFn a b) = false.

Lemma sort_insert_perm (x : A) (l : list A) :
  Permutation (x :: l) (sort_insert compareFn x l).
Proof.
  induction l as [|y l IH]; cbn [sort_insert]; [reflexivity|].
  destruct (0 <? compareFn x y); [|reflexivity].
  rewrite perm_swap. now apply perm_skip.
Qed.

Lemma stable_sort_perm (l : list A) : Permutation l (stable_sort compareFn l).
Proof.
  induction l as [|x l IH]; cbn [stable_sort]; [reflexivity|].
  rewrite <- sort_insert_perm. now apply perm_skip.
Qed.

(** Stability: records the comparator never separates keep their order. *)
Section Stable.

Variable p : A -> bool.
Hypothesis together :
  forall a b, p a = true -> p b = true -> before a b.

Lemma filter_sort_insert (x : A) (l : list A) :
  filter p (sort_insert compareFn x l) = filter p (x :: l).
Proof.
  induction l as [|y l IH]; [reflexivity|].
  cbn [sort_insert]. destruct (0 <? compareFn x y) eqn:E; [|reflexivity].
  cbn [filter] in *. rewrite IH.
  destruct (p x) eqn:Px, (p y) eqn:Py; try reflexivity.
  pose proof (together Px Py) as T. unfold before in T. congruence.
Qed.

Lemma filter_stable_sort (l : list A) :
  filter p (stable_sort compareFn l) = filter p l.
Proof.
  induction l as [|x l IH]; [reflexivity|].
  cbn [stable_sort]. rewrite filter_sort_insert. cbn [filter]. now rewrite IH.
Qed.

End Stable.

Hypothesis antisym :
  forall a b, (0 <? compareFn a b) = true -> before b a.






(** Where the comparator is transitive, no element of the result is put
    after a later one. *)
Section Ordered.

Variable good : A -> Prop.
Hypothesis trans :
  forall a b c, good a -> good b -> good c ->
                before a b -> before b c -> before a c.

Lemma sort_insert_StronglySorted (x : A) (l : list A) :
  good x -> Forall good l ->
  StronglySorted before l -> StronglySorted before (sort_insert compareFn x l).
Proof.
  intros Gx. induction l as [|y l IH]; intros Gl Hl; cbn [sort_insert].
  - repeat constructor.
  - inversion Gl as [|? ? Gy Gl']; subst.
    inversion Hl as [|? ? Hs Hall]; subst.
    destruct (0 <? compareFn x y) eqn:E.
    + constructor; [now apply IH|].
      apply (Permutation_Forall (sort_insert_perm x l)).
      constructor; [now apply antisym | assumption].
    + constructor; [assumption|]. constructor; [exact E|].
      rewrite Forall_forall in *. intros z Hz.
      apply trans with (b := y); auto.
Qed.

Lemma stable_sort_StronglySorted (l : list A) :
  Forall good l -> StronglySorted before (stable_sort compareFn l).
Proof.
  induction l as [|x l IH]; intros Gl; cbn [stable_sort]; [constructor|].
  inversion Gl; subst. apply sort_insert_StronglySorted; auto.
  now apply (Permutation_Forall (stable_sort_perm l)).
Qed.

Lemma before_refl (a : A) : before a a.
Proof.
  unfold before. destruct (0 <? compareFn a a) eqn:E; [|reflexivity].
  pose proof (antisym _ _ E) as E'. unfold before in E'. congruence.
Qed.

(** The stable ordering is unique: whichever way an engine sorts, this
    is the list it returns.  [same] tells the elements the comparator
    does not tell apart. *)
Variable same : A -> A -> bool.
Hypothesis same_spec :
  forall a b, good a -> good b ->
              (same a b = true <-> before a b /\ before b a).

Lemma stable_ordering_unique (l1 l2 : list A) :
  Forall good l1 ->
  Permutation l1 l2 ->
  StronglySorted before l1 ->
  StronglySorted before l2 ->
  (forall x, filter (same x) l1 = filter (same x) l2) ->
  l1 = l2.
Proof.
  revert l2. induction l1 as [|a l1 IH]; intros l2 G P S1 S2 F.
  - now apply Permutation_nil in P.
  - destruct l2 as [|b l2].
    + apply Permutation_sym, Permutation_nil in P. discriminate.
    + inversion G as [|? ? Ga Gl1]; subst.
      inversion S1 as [|? ? S1' A1]; subst.
      inversion S2 as [|? ? S2' A2]; subst.
      assert (Gb : good b).
      { apply (Permutation_Forall P) in G. now inversion G. }
      assert (Hba : before b a).
      { assert (In a (b :: l2)) as [->|Hin]
            by (apply (Permutation_in _ P); now left).
        - apply before_refl.
        - rewrite Forall_forall in A2. now apply A2. }
      assert (Hab : before a b).
      { assert (In b (a :: l1)) as [->|Hin]
            by (apply (Permutation_in _ (Permutation_sym P)); now left).
        - apply before_refl.
        - rewrite Forall_forall in A1. now apply A1. }
      assert (Eab : same a b = true) by (apply same_spec; auto).
      assert (Eaa : same a a = true)
        by (apply same_spec; auto using before_refl).
      pose proof (F a) as Fa. cbn [filter] in Fa. rewrite Eaa, Eab in Fa.
      injection Fa as <- _.
      f_equal. apply IH; trivial.
      * now apply Permutation_cons_inv with a.
      * intros x. specialize (F x). cbn [filter] in F.
        destruct (same x a); [now injection F | exact F].
Qed.

End Ordered.

End Sorting.

Lemma stable_sort_constant {A} (l : list A) : stable_sort (fun _ _ => 0) l = l.
Proof.
  induction l as [|x l IH]; [reflexivity|].
  cbn [stable_sort]. rewrite IH. now destruct l.
Qed.

Lemma Sorted_impl {A} (R R' : A -> A -> Prop) (l : list A) :
  (forall a b, R a b -> R' a b) -> Sorted R l -> Sorted R' l.
Proof.
  intros H. induction 1 as [|x l Hs IH Hh]; constructor; trivial.
  destruct Hh; constructor; auto.
Qed.

Lemma StronglySorted_impl {A} (R R' : A -> A -> Prop) (l : list A) :
  (forall a b, R a b -> R' a b) -> StronglySorted R l -> StronglySorted R' l.
Proof.
  intros H. induction 1 as [|x l Hs IH Hall]; constructor; trivial.
  eapply Forall_impl; [|exact Hall]. auto.
Qed.

(** ** The sort engine *)

Section Sort_engine.

Context {host : Host}.

Lemma key_lt_asym (k : KeyFn) (a b : Model) :
  key_lt k a b = true -> key_lt k b a = false.
Proof.
  destruct k; cbn [key_lt]; [apply num_lt_asym | apply jsstring_lt_asym].
Qed.

(** The comparator puts [a] after [b] exactly when, in the direction
    asked for, the key of [a] belongs after the key of [b]. *)
Lemma compareModels_pos (k : KeyFn) (desc : bool) (a b : Model) :
  (0 <? compareModels k desc a b) = if desc then key_lt k a b else key_lt k b a.
Proof.
  unfold compareModels, key_gt.
  pose proof (key_lt_asym k a b) as Hab.
  destruct (key_lt k a b), (key_lt k b a), desc; try reflexivity.
  all: now specialize (Hab eq_refl).
Qed.

Lemma compareModels_before (k : KeyFn) (desc : bool) (a b : Model) :
  (0 <? compareModels k desc a b) = false <-> in_order k desc a b.
Proof. rewrite compareModels_pos. unfold in_order. now destruct desc. Qed.

Lemma compareModels_antisym (k : KeyFn) (desc : bool) (a b : Model) :
  (0 <? compareModels k desc a b) = true ->
  (0 <? compareModels k desc b a) = false.
Proof.
  rewrite !compareModels_pos. destruct desc; apply key_lt_asym.
Qed.

Lemma key_le_trans (k : KeyFn) (a b c : Model) :
  comparable k a -> comparable k b -> comparable k c ->
  key_lt k b a = false -> key_lt k c b = false -> key_lt k c a = false.
Proof.
  destruct k; cbn [key_lt comparable].
  - apply num_le_trans.
  - intros _ _ _. apply jsstring_le_trans.
Qed.

Lemma compareModels_trans (k : KeyFn) (desc : bool) (a b c : Model) :
  comparable k a -> comparable k b -> comparable k c ->
  (0 <? compareModels k desc a b) = false ->
  (0 <? compareModels k desc b c) = false ->
  (0 <? compareModels k desc a c) = false.
Proof.
  rewrite !compareModels_pos. intros Ha Hb Hc. destruct desc; intros H1 H2.
  - now apply (key_le_trans k c b a).
  - now apply (key_le_trans k a b c).
Qed.

Lemma same_key_not_lt (k : KeyFn) (m a b : Model) :
  same_key k m a = true -> same_key k m b = true -> key_lt k a b = false.
Proof.
  destruct k; cbn [same_key key_lt].
  - apply num_eq_not_lt.
  - intros Ha Hb. apply jsstring_eqb_eq in Ha, Hb. rewrite <- Ha, <- Hb.
    apply jsstring_lt_irrefl.
Qed.

Lemma same_key_together (k : KeyFn) (desc : bool) (m a b : Model) :
  same_key k m a = true -> same_key k m b = true ->
  (0 <? compareModels k desc a b) = false.
Proof.
  intros Ha Hb. rewrite compareModels_pos.
  destruct desc; eapply same_key_not_lt; eassumption.
Qed.

Lemma same_key_spec (k : KeyFn) (desc : bool) (a b : Model) :
  comparable k a -> comparable k b ->
  (same_key k a b = true <->
   (0 <? compareModels k desc a b) = false
   /\ (0 <? compareModels k desc b a) = false).
Proof.
  intros Ha Hb. rewrite !compareModels_pos.
  assert (E : same_key k a b = true <->
              key_lt k a b = false /\ key_lt k b a = false).
  { destruct k as [f|f]; cbn [same_key key_lt comparable] in *.
    - rewrite num_eq_rank. split.
      + intros (_ & _ & E). split.
        * destruct (num_lt (f a) (f b)) eqn:L; [|reflexivity].
          apply (num_lt_rank _ _ Ha Hb), lex3_Lt in L. rewrite E in L.
          destruct (rank (f b)) as [[? ?] ?]. lia.
        * destruct (num_lt (f b) (f a)) eqn:L; [|reflexivity].
          apply (num_lt_rank _ _ Hb Ha), lex3_Lt in L. rewrite E in L.
          destruct (rank (f b)) as [[? ?] ?]. lia.
      + intros [L1 L2]. repeat split; trivial.
        assert (N1 : ~ lex3 (rank (f a)) (rank (f b)) = Lt)
          by (rewrite <- (num_lt_rank _ _ Ha Hb); congruence).
        assert (N2 : ~ lex3 (rank (f b)) (rank (f a)) = Lt)
          by (rewrite <- (num_lt_rank _ _ Hb Ha); congruence).
        rewrite lex3_Lt in N1, N2.
        destruct (rank (f a)) as [[a1 a2] a3], (rank (f b)) as [[b1 b2] b3].
        assert (a1 = b1) by lia. assert (a2 = b2) by lia.
        assert (a3 = b3) by lia. congruence.
    - rewrite jsstring_eqb_eq. unfold jsstring_lt.
      rewrite (jsstring_compare_antisym (f a) (f b)).
      rewrite <- (list_compare_refl N.compare N.compare_eq_iff (f a) (f b)).
      destruct (list_compare N.compare (f a) (f b)); cbn; intuition congruence. }
  rewrite E. destruct desc; tauto.
Qed.

(** *** The engine's sort *)

Lemma insert_at_perm {A} (place : nat) (x : A) (l : list A) :
  Permutation (x :: l) (insert_at place x l).
Proof.
  revert place. induction l as [|y l IH]; intros [|place]; cbn [insert_at];
    try reflexivity.
  rewrite perm_swap. apply perm_skip, IH.
Qed.

Lemma placed_perm {A} (places : list nat) (l built : list A) :
  Permutation (built ++ l) (placed places l built).
Proof.
  revert places built. induction l as [|x l IH]; intros places built;
    cbn [placed].
  - now rewrite app_nil_r.
  - rewrite <- IH, <- insert_at_perm. symmetry. apply Permutation_middle.
Qed.

(** Whatever the comparator, the sort rearranges the elements. *)
Lemma Array_sort_perm {A} (compareFn : A -> A -> Z) (l : list A) :
  Permutation l (Array_sort compareFn l).
Proof.
  unfold Array_sort. destruct (consistent_comparator compareFn l).
  - apply stable_sort_perm.
  - apply (placed_perm _ l []).
Qed.

Lemma Array_sort_consistent {A} (compareFn : A -> A -> Z) (l : list A) :
  consistent_comparator compareFn l = true ->
  Array_sort compareFn l = stable_sort compareFn l.
Proof. unfold Array_sort. now intros ->. Qed.

Lemma consistent_comparator_intro {A} (compareFn : A -> A -> Z) (l : list A) :
  (forall a b c, In a l -> In b l -> In c l ->
                 consistent_at compareFn a b c = true) ->
  consistent_comparator compareFn l = true.
Proof.
  intros H. unfold consistent_comparator.
  apply forallb_forall. intros a Ha.
  apply forallb_forall. intros b Hb.
  apply forallb_forall. intros c Hc. now apply H.
Qed.

Lemma Array_sort_constant {A} (l : list A) : Array_sort (fun _ _ => 0) l = l.
Proof.
  rewrite Array_sort_consistent; [apply stable_sort_constant|].
  now apply consistent_comparator_intro.
Qed.

(** *** The comparator of [sortModels] *)

Lemma compareModels_neg (k : KeyFn) (desc : bool) (a b : Model) :
  (compareModels k desc a b <? 0) = if desc then key_lt k b a else key_lt k a b.
Proof.
  unfold compareModels, key_gt.
  pose proof (key_lt_asym k a b) as Hab.
  destruct (key_lt k a b), (key_lt k b a), desc; try reflexivity.
  all: now specialize (Hab eq_refl).
Qed.

Lemma compareModels_zero (k : KeyFn) (desc : bool) (a b : Model) :
  (compareModels k desc a b =? 0) = negb (key_lt k a b) && negb (key_lt k b a).
Proof.
  unfold compareModels, key_gt.
  destruct (key_lt k a b), (key_lt k b a), desc; reflexivity.
Qed.

Lemma key_lt_irrefl (k : KeyFn) (a : Model) : key_lt k a a = false.
Proof.
  destruct (key_lt k a a) eqn:E; [|reflexivity].
  pose proof (@key_lt_asym k a a E). congruence.
Qed.

Lemma key_lt_trans (k : KeyFn) (a b c : Model) :
  comparable k a -> comparable k b -> comparable k c ->
  key_lt k a b = true -> key_lt k b c = true -> key_lt k a c = true.
Proof.
  intros Ha Hb Hc Hab Hbc.
  destruct (key_lt k a c) eqn:E; [reflexivity|].
  pose proof (@key_le_trans k c a b Hc Ha Hb E (@key_lt_asym k a b Hab)).
  congruence.
Qed.

(** Where no key is [NaN], the comparator is a consistent one. *)
Lemma compareModels_consistent (k : KeyFn) (desc : bool) (l : list Model) :
  keys_comparable k l -> consistent_comparator (compareModels k desc) l = true.
Proof.
  intros Hcmp. apply consistent_comparator_intro. intros a b c Ha Hb Hc.
  unfold keys_comparable in Hcmp. rewrite Forall_forall in Hcmp.
  pose proof (Hcmp a Ha) as Ca. pose proof (Hcmp b Hb) as Cb.
  pose proof (Hcmp c Hc) as Cc.
  unfold consistent_at.
  rewrite !compareModels_zero, !compareModels_neg, !compareModels_pos.
  rewrite key_lt_irrefl. cbn [negb andb].
  pose proof (@key_lt_trans k a b c Ca Cb Cc) as Tabc.
  pose proof (@key_lt_trans k c b a Cc Cb Ca) as Tcba.
  pose proof (@key_le_trans k a b c Ca Cb Cc) as Labc.
  pose proof (@key_le_trans k c b a Cc Cb Ca) as Lcba.
  destruct (key_lt k a b), (key_lt k b a), (key_lt k b c), (key_lt k c b),
    (key_lt k a c), (key_lt k c a), desc; cbn; try reflexivity;
    try (now specialize (Tabc eq_refl eq_refl));
    try (now specialize (Tcba eq_refl eq_refl));
    try (now specialize (Labc eq_refl eq_refl));
    try (now specialize (Lcba eq_refl eq_refl)).
Qed.

(** On comparable keys [sortModels] returns the stable ordering. *)
Lemma sortModels_comparable (models : list Model) (sortBy : jsstring)
      (desc : bool) (k : KeyFn) :
  keyMap sortBy = Some k -> keys_comparable k models ->
  sortModels models sortBy desc
  = Normal (stable_sort (compareModels k desc) models).
Proof.
  intros Hk Hcmp. unfold sortModels. rewrite Hk.
  now rewrite (Array_sort_consistent _ _ (@compareModels_consistent k desc models Hcmp)).
Qed.

(** C6, amended.  For every recognized sort key and direction, and
    every record sequence whose keys can be compared (no extracted key
    is [NaN]: every price string parses to a number, as the data model
    has it), [sortModels] returns a stable ordering of the records by
    the extracted key: a permutation of the input in which the records
    whose keys are equal keep their input order and no record stands
    before one whose key belongs before its own; it is the only such
    arrangement.  Prices, context and creation time are compared as
    numbers (the prices through [getEffectivePrice]), names as
    lower-cased strings.  Descending reverses the comparison, not the
    sequence: "Beta", "alpha", "Gamma" by name descending is "Gamma",
    "Beta", "alpha", and of two records priced alike the one first in
    the input is first in either direction.  Whatever the keys, a
    recognized sort key returns a rearrangement of the records. *)
Theorem sortModels_stable_ordering :
  (forall (models : list Model) (sortBy : jsstring) (desc : bool) (k : KeyFn),
      keyMap sortBy = Some k ->
      keys_comparable k models ->
      exists sorted,
        sortModels models sortBy desc = Normal sorted
        /\ Permutation models sorted
        /\ (forall m, filter (same_key k m) sorted = filter (same_key k m) models)
        /\ StronglySorted (in_order k desc) sorted
        /\ forall other,
            Permutation models other ->
            StronglySorted (in_order k desc) other ->
            (forall m, filter (same_key k m) other
                       = filter (same_key k m) models) ->
            other = sorted)
  /\ (forall (models : list Model) (sortBy : jsstring) (desc : bool) (k : KeyFn),
        keyMap sortBy = Some k ->
        exists sorted,
          sortModels models sortBy desc = Normal sorted
          /\ Permutation models sorted)
  /\ (keyMap (str "prompt_price")
        = Some (NumberKey (fun m => getEffectivePrice (prompt (pricing m)) (id m)))
      /\ keyMap (str "completion_price")
        = Some (NumberKey (fun m => getEffectivePrice (completion (pricing m)) (id m)))
      /\ keyMap (str "context") = Some (NumberKey (fun m => context_length m))
      /\ keyMap (str "created") = Some (NumberKey (fun m => created m))
      /\ keyMap (str "name") = Some (StringKey (fun m => toLowerCase (name m))))
  /\ sortModels [named "Beta"; named "alpha"; named "Gamma"] (str "name") true
     = Normal [named "Gamma"; named "Beta"; named "alpha"]
  /\ sortModels [priced "b" "0.5"; priced "a" "0.1"; priced "c" "0.5"]
                (str "prompt_price") false
     = Normal [priced "a" "0.1"; priced "b" "0.5"; priced "c" "0.5"]
  /\ sortModels [priced "b" "0.5"; priced "a" "0.1"; priced "c" "0.5"]
                (str "prompt_price") true
     = Normal [priced "b" "0.5"; priced "c" "0.5"; priced "a" "0.1"].
Proof.
  split; [|split; [|split; [repeat split|]]].
  - intros models sortBy desc k Hk Hcmp.
    exists (stable_sort (compareModels k desc) models).
    split; [now apply sortModels_comparable|].
    assert (Hperm : Permutation models (stable_sort (compareModels k desc) models))
      by apply stable_sort_perm.
    assert (Hstable : forall m,
               filter (same_key k m) (stable_sort (compareModels k desc) models)
               = filter (same_key k m) models).
    { intros m. apply filter_stable_sort. intros a b. apply same_key_together. }
    split; [exact Hperm|]. split; [exact Hstable|].
    assert (Hsorted : StronglySorted
                        (fun a b => (0 <? compareModels k desc a b) = false)
                        (stable_sort (compareModels k desc) models)).
    { apply stable_sort_StronglySorted with (good := comparable k).
      - apply compareModels_antisym.
      - apply compareModels_trans.
      - exact Hcmp. }
    split.
    + eapply StronglySorted_impl; [|exact Hsorted].
      intros a b. apply compareModels_before.
    + intros other Pother Sother Fother.
      apply stable_ordering_unique
        with (compareFn := compareModels k desc) (good := comparable k)
             (same := same_key k).
      * apply compareModels_antisym.
      * intros a b. now apply same_key_spec.
      * now apply (Permutation_Forall Pother).
      * now rewrite <- Pother.
      * eapply StronglySorted_impl; [|exact Sother].
        intros a b. apply compareModels_before.
      * exact Hsorted.
      * intros x. now rewrite Fother, Hstable.
  - intros models sortBy desc k Hk. unfold sortModels. rewrite Hk.
    eexists. split; [reflexivity | apply Array_sort_perm].
  - assert (Hprices : keys_comparable
                        (NumberKey (fun m => getEffectivePrice (prompt (pricing m))
                                                               (id m)))
                        [priced "b" "0.5"; priced "a" "0.1"; priced "c" "0.5"]).
    { repeat (constructor; [vm_compute; reflexivity|]). constructor. }
    split; [|split].
    + rewrite (@sortModels_comparable _ (str "name") true
                 (StringKey (fun m => toLowerCase (name m))) eq_refl).
      * vm_compute. reflexivity.
      * repeat constructor.
    + rewrite (@sortModels_comparable _ (str "prompt_price") false _ eq_refl Hprices).
      vm_compute. reflexivity.
    + rewrite (@sortModels_comparable _ (str "prompt_price") true _ eq_refl Hprices).
      vm_compute. reflexivity.
Qed.

(** [sortModels] returns for every sort key but the two inherited
    methods that throw, and for those on fewer than two records. *)
Lemma sortModels_returns (models : list Model) (sortBy : jsstring) (desc : bool) :
  array_includes Object_prototype_throwing sortBy = false
  \/ (List.length models < 2)%nat ->
  exists sorted, sortModels models sortBy desc = Normal sorted.
Proof.
  unfold sortModels. intros H.
  destruct (keyMap sortBy); [eauto|].
  destruct (array_includes Object_prototype_methods sortBy); [eauto|].
  destruct H as [-> | H]; [eauto|].
  destruct (array_includes Object_prototype_throwing sortBy); [|eauto].
  destruct models as [|a [|b l]]; eauto.
  cbn [List.length] in H. lia.
Qed.


End Sort_engine.

(** C6, as it stands, fails on a batch the schema accepts: with a
    price that is no number between the prices 0.3 and 0.1, the
    records come back, on a host whose engine sorts by binary
    insertion, in the order they came in, the record priced 0.1 after
    the one priced 0.3. *)
Lemma a_price_that_is_no_number_breaks_the_order :
  ModelSchema (json_of_Model (priced "n" "abc")) = Some (priced "n" "abc")
  /\ sortModels (host := plain_host)
       [priced "a" "0.3"; priced "n" "abc"; priced "b" "0.1"]
       (str "prompt_price") false
     = Normal [priced "a" "0.3"; priced "n" "abc"; priced "b" "0.1"]
  /\ key_lt (NumberKey (fun m => getEffectivePrice (prompt (pricing m)) (id m)))
            (priced "b" "0.1") (priced "a" "0.3") = true
  /\ ~ StronglySorted
         (in_order
            (NumberKey (fun m => getEffectivePrice (prompt (pricing m)) (id m)))
            false)
         [priced "a" "0.3"; priced "n" "abc"; priced "b" "0.1"].
Proof.
  split; [vm_compute; reflexivity|].
  split; [vm_compute; reflexivity|].
  split; [vm_compute; reflexivity|].
  intros S. inversion S as [|? ? _ Hall]; subst.
  inversion Hall as [|? ? _ Hall']; subst.
  inversion Hall' as [|? ? Hab _]; subst.
  vm_compute in Hab. discriminate.
Qed.

Lemma sortModels_stable_ordering_witness :
  exists sorted,
    sortModels (host := plain_host)
               [priced "b" "0.5"; priced "a" "0.1"; priced "c" "0.5"]
               (str "prompt_price") false = Normal sorted
    /\ StronglySorted
         (in_order (NumberKey (fun m => getEffectivePrice (prompt (pricing m)) (id m)))
                   false)
         sorted.
Proof.
  destruct (proj1 (sortModels_stable_ordering (host := plain_host))
              [priced "b" "0.5"; priced "a" "0.1"; priced "c" "0.5"]
              (str "prompt_price") false
              (NumberKey (fun m => getEffectivePrice (prompt (pricing m)) (id m)))
              eq_refl)
    as (sorted & Hs & _ & _ & H & _).
  - repeat (constructor; [vm_compute; reflexivity|]). constructor.
  - exists sorted. split; [exact Hs | exact H].
Defined.



(** ** The filter engine *)

Section Filter_engine.

Context {host : Host}.

Lemma filter_filter_comm {A} (p q : A -> bool) (l : list A) :
  filter p (filter q l) = filter q (filter p l).
Proof.
  induction l as [|x l IH]; [reflexivity|].
  cbn [filter]. destruct (p x) eqn:Px, (q x) eqn:Qx; cbn [filter];
    rewrite ?Px, ?Qx, IH; reflexivity.
Qed.

Lemma filter_filter_when {A} (q : A -> bool) b p (l : list A) :
  filter q (filter_when b p l) = filter_when b p (filter q l).
Proof. destruct b; cbn [filter_when]; [apply filter_filter_comm | reflexivity]. Qed.

Lemma filter_filter_with {A B} (q : A -> bool) (bound : option B) p (l : list A) :
  filter q (filter_with bound p l) = filter_with bound p (filter q l).
Proof. destruct bound; cbn [filter_with]; [apply filter_filter_comm | reflexivity]. Qed.

(** The zero-price test of [filterModels] never passes the auto-routing
    record. *)
Lemma is_free_free_record (m : Model) : is_free m = free_record m.
Proof.
  unfold is_free, free_record, getEffectivePrice.
  destruct (jsstring_eqb (id m) AUTO_ROUTER); [reflexivity|].
  now rewrite andb_true_r.
Qed.

Lemma filterModels_free (models : list Model) (args : Args) :
  free args = true ->
  filterModels models args
  = filter free_record (filterModels models (set_free false args)).
Proof.
  intros Hfree. unfold filterModels. rewrite Hfree.
  cbn [set_free free min_prompt_price max_prompt_price min_context max_context
       supports_reasoning supports_tools supports_structured_output
       supports_response_format].
  change (search_filter (set_free false args) models)
    with (search_filter args models).
  cbn [filter_when].
  rewrite !filter_filter_when, !filter_filter_with.
  now rewrite (filter_ext _ _ is_free_free_record).
Qed.

(** C4. With the free filter active, [filterModels] keeps a record if
    and only if (it passes the other active filters and) its effective
    prompt price is exactly 0 and its id is not "openrouter/auto"; the
    records kept stay in their order.  The auto-routing record, whose
    effective price is [Number.MAX_SAFE_INTEGER], never passes.  Of the
    prices "0", "0.000001", "0.00001" only the first is kept. *)
Theorem free_filter_keeps_zero_priced :
  (forall (models : list Model) (args : Args) (m : Model),
      free args = true ->
      (In m (filterModels models args) <->
       In m (filterModels models (set_free false args))
       /\ num_eq (getEffectivePrice (prompt (pricing m)) (id m)) pos_zero = true
       /\ id m <> AUTO_ROUTER))
  /\ (forall (models : list Model) (args : Args),
        free args = true ->
        filterModels models args
        = filter free_record (filterModels models (set_free false args)))
  /\ (forall m : Model,
        id m = AUTO_ROUTER ->
        getEffectivePrice (prompt (pricing m)) (id m) = MAX_SAFE_INTEGER
        /\ is_free m = false)
  /\ filterModels [priced "a" "0"; priced "b" "0.000001"; priced "c" "0.00001"]
                  (set_free true plain_args)
     = [priced "a" "0"].
Proof.
  split; [|split; [|split]].
  - intros models args m Hfree. rewrite (filterModels_free _ _ Hfree).
    rewrite filter_In. unfold free_record.
    rewrite andb_true_iff, negb_true_iff, jsstring_eqb_neq. tauto.
  - apply filterModels_free.
  - intros m Hid. unfold is_free, getEffectivePrice.
    rewrite Hid, jsstring_eqb_refl. split; reflexivity.
  - vm_compute. reflexivity.
Qed.

(** C8. With no filter option active, [filterModels] returns its input,
    the same records in the same order. *)
Theorem filterModels_no_filter_identity (models : list Model) (args : Args) :
  no_filter args -> filterModels models args = models.
Proof.
  intros (Hs & Hf & H1 & H2 & H3 & H4 & H5 & H6 & H7 & H8).
  unfold filterModels. rewrite Hf, H1, H2, H3, H4, H5, H6, H7, H8.
  cbn [filter_when filter_with]. unfold search_filter.
  destruct (searchTerm args) as [term|]; [|reflexivity].
  now rewrite Hs.
Qed.

End Filter_engine.

Lemma free_filter_keeps_zero_priced_witness :
  In (priced "a" "0")
     (filterModels (host := plain_host)
        [priced "a" "0"; priced "b" "0.000001"; priced "c" "0.00001"]
        (set_free true plain_args)).
Proof.
  apply (proj1 (free_filter_keeps_zero_priced (host := plain_host))
           [priced "a" "0"; priced "b" "0.000001"; priced "c" "0.00001"]
           (set_free true plain_args) (priced "a" "0") eq_refl).
  split; [left; reflexivity|].
  split; [vm_compute; reflexivity|].
  vm_compute. discriminate.
Defined.

Lemma filterModels_no_filter_identity_witness :
  filterModels (host := plain_host) [gpt35; priced "a" "0"] plain_args
  = [gpt35; priced "a" "0"].
Proof.
  apply (filterModels_no_filter_identity (host := plain_host)).
  vm_compute. repeat split; reflexivity.
Defined.

(** ** The age of a record *)

Section Age.

Context {host : Host}.

(** C2, amended.  [getHumanReadableAge] buckets the elapsed time by the
    thresholds: more than 365 days renders in years, else more than 30
    days in months, else at least 1 day in days, else at least 1 hour in
    hours, otherwise in minutes; the unit is pluralized when the count
    exceeds 1.  A record created exactly 365.0 days ago renders as
    "~12 mns" and one created a millisecond earlier as "~1 yr"; one
    created 29.9 days ago renders as "29 days"; a created timestamp of 0
    renders as "Unknown".  For every whole number of days below 1100, a
    record created exactly that many days ago renders in years above
    365 days, in months above 30, else in days; and for every whole
    number of minutes below a day, in hours from 60 minutes on, else in
    minutes. *)
Theorem getHumanReadableAge_buckets :
  (forall now created : number,
      let d := elapsed_days now created in
      let s := elapsed_seconds now created in
      let years := Math_floor (num_div d (of_Z 365)) in
      let months := Math_floor (num_div d (of_Z 30)) in
      let hours := num_div s (of_Z (60 * 60)) in
      let minutes := num_div s (of_Z 60) in
      (is_nan created || num_eq created pos_zero = true ->
       getHumanReadableAge now created = str "Unknown")
      /\ (is_nan created || num_eq created pos_zero = false ->
          (num_gt d (of_Z 365) = true ->
           getHumanReadableAge now created = str "~" ++ counted years " yr")
          /\ (num_gt d (of_Z 365) = false -> num_gt d (of_Z 30) = true ->
              getHumanReadableAge now created = str "~" ++ counted months " mn")
          /\ (num_gt d (of_Z 365) = false -> num_gt d (of_Z 30) = false ->
              num_ge d (of_Z 1) = true ->
              getHumanReadableAge now created = counted (Math_floor d) " day")
          /\ (num_gt d (of_Z 365) = false -> num_gt d (of_Z 30) = false ->
              num_ge d (of_Z 1) = false -> num_ge hours (of_Z 1) = true ->
              getHumanReadableAge now created = counted (Math_floor hours) " hr")
          /\ (num_gt d (of_Z 365) = false -> num_gt d (of_Z 30) = false ->
              num_ge d (of_Z 1) = false -> num_ge hours (of_Z 1) = false ->
              getHumanReadableAge now created
              = counted (Math_floor minutes) " min")))
  /\ (forall (count : number) (unit : String.string),
        counted count unit
        = Number_toString count ++ str unit
            ++ (if num_gt count (of_Z 1) then str "s" else []))
  /\ getHumanReadableAge (after epoch (365 * day_ms)) (of_Z epoch) = str "~12 mns"
  /\ getHumanReadableAge (after epoch (365 * day_ms + 1)) (of_Z epoch) = str "~1 yr"
  /\ getHumanReadableAge (after epoch (730 * day_ms + 1)) (of_Z epoch) = str "~2 yrs"
  /\ getHumanReadableAge (after epoch (299 * day_ms / 10)) (of_Z epoch) = str "29 days"
  /\ getHumanReadableAge (after epoch (30 * day_ms + 1)) (of_Z epoch) = str "~1 mn"
  /\ getHumanReadableAge (after epoch day_ms) (of_Z epoch) = str "1 day"
  /\ getHumanReadableAge (after epoch (day_ms - 1)) (of_Z epoch) = str "23 hrs"
  /\ getHumanReadableAge (after epoch (60 * 60 * 1000 - 1)) (of_Z epoch) = str "59 mins"
  /\ (forall now, getHumanReadableAge now (of_Z 0) = str "Unknown")
  /\ (forall k : nat,
        (k < 1100)%nat ->
        let days := Z.of_nat k in
        getHumanReadableAge (after epoch (days * day_ms)) (of_Z epoch)
        = if 365 <? days then
            str "~" ++ decimal (days / 365) ++ str " yr"
              ++ (if 1 <? days / 365 then str "s" else [])
          else if 30 <? days then
            str "~" ++ decimal (days / 30) ++ str " mn"
              ++ (if 1 <? days / 30 then str "s" else [])
          else if 1 <=? days then
            decimal days ++ str " day" ++ (if 1 <? days then str "s" else [])
          else str "0 min")
  /\ (forall k : nat,
        (k < 1440)%nat ->
        let minutes := Z.of_nat k in
        getHumanReadableAge (after epoch (minutes * 60000)) (of_Z epoch)
        = if 60 <=? minutes then
            decimal (minutes / 60) ++ str " hr"
              ++ (if 1 <? minutes / 60 then str "s" else [])
          else
            decimal minutes ++ str " min"
              ++ (if 1 <? minutes then str "s" else [])).
Proof.
  split.
  { intros now created d s years months hours minutes.
    unfold getHumanReadableAge.
    fold (elapsed_seconds now created). fold s.
    change (num_div s (of_Z (60 * 60 * 24))) with d.
    split.
    - intros ->. reflexivity.
    - intros ->. repeat split.
      + intros ->. reflexivity.
      + intros -> ->. reflexivity.
      + intros -> -> ->. reflexivity.
      + intros -> -> -> H. fold hours. rewrite H. reflexivity.
      + intros -> -> -> H. fold hours. rewrite H. reflexivity. }
  split; [reflexivity|].
  do 9 (split; [vm_compute; reflexivity|]).
  split.
  2: { intros k Hk minutes.
       assert (H : forallb
                     (fun k =>
                        let minutes := Z.of_nat k in
                        jsstring_eqb
                          (getHumanReadableAge (after epoch (minutes * 60000))
                                               (of_Z epoch))
                          (if 60 <=? minutes then
                             decimal (minutes / 60) ++ str " hr"
                               ++ (if 1 <? minutes / 60 then str "s" else [])
                           else
                             decimal minutes ++ str " min"
                               ++ (if 1 <? minutes then str "s" else [])))
                     (seq 0 1440) = true)
         by (vm_compute; reflexivity).
       rewrite forallb_forall in H.
       apply jsstring_eqb_eq. apply (H k). apply in_seq. lia. }
  intros k Hk days.
  assert (H : forallb
                (fun k =>
                   let days := Z.of_nat k in
                   jsstring_eqb
                     (getHumanReadableAge (after epoch (days * day_ms)) (of_Z epoch))
                     (if 365 <? days then
                        str "~" ++ decimal (days / 365) ++ str " yr"
                          ++ (if 1 <? days / 365 then str "s" else [])
                      else if 30 <? days then
                        str "~" ++ decimal (days / 30) ++ str " mn"
                          ++ (if 1 <? days / 30 then str "s" else [])
                      else if 1 <=? days then
                        decimal days ++ str " day"
                          ++ (if 1 <? days then str "s" else [])
                      else str "0 min"))
                (seq 0 1100) = true)
    by (vm_compute; reflexivity).
  rewrite forallb_forall in H.
  apply jsstring_eqb_eq. apply (H k). apply in_seq. lia.
Qed.

End Age.

(** C2, as it stands, fails at its first boundary: a record created
    exactly 365.0 days ago is not in the years bucket, it renders as
    "~12 mns"; and one created exactly 30.0 days ago renders in days. *)
Lemma a_year_to_the_day_renders_in_months :
  getHumanReadableAge (host := plain_host)
    (after epoch (365 * day_ms)) (of_Z epoch) = str "~12 mns"
  /\ getHumanReadableAge (host := plain_host)
       (after epoch (365 * day_ms)) (of_Z epoch) <> str "~1 yr"
  /\ getHumanReadableAge (host := plain_host)
       (after epoch (30 * day_ms)) (of_Z epoch) = str "30 days".
Proof.
  repeat split; try (vm_compute; reflexivity).
  vm_compute. discriminate.
Qed.

Lemma getHumanReadableAge_buckets_witness :
  getHumanReadableAge (host := plain_host)
    (after epoch (800 * day_ms)) (of_Z epoch) = str "~2 yrs".
Proof.
  destruct (proj1 (getHumanReadableAge_buckets (host := plain_host))
              (after epoch (800 * day_ms)) (of_Z epoch)) as [_ H].
  destruct (H eq_refl) as [Hyears _].
  rewrite (Hyears eq_refl). vm_compute. reflexivity.
Defined.

(** ** The table view *)

Section Table.

Context {host : Host}.
Variable env : Env.

Lemma padStart_na : padStart 6 (str "n/a") = str "   n/a".
Proof. reflexivity. Qed.

Lemma formatPrice_auto (priceStr : jsstring) (invert : bool) :
  formatPrice priceStr invert (Some AUTO_ROUTER) = str "n/a".
Proof. reflexivity. Qed.

(** Printing never fails, and nothing printed is taken back. *)
Lemma table_rows_printed (args : Args) (models : list Model) :
  forall w,
    let w' := snd (for_each
                     (fun model =>
                        bind (age_reading env (created model))
                             (fun now => console_log
                                (join (str " | ") (tableRow args now model))))
                     models w) in
    (forall e, In e (events w) -> In e (events w'))
    /\ forall m, In m models ->
                 exists now,
                   In (Stdout (join (str " | ") (tableRow args now m))) (events w').
Proof.
  induction models as [|x models IH]; intros w; cbn [for_each].
  - split; [auto | intros m []].
  - unfold bind at 1. unfold age_reading.
    destruct (timestamp_unknown (created x));
      cbn [Date_now ret console_log emit bind];
      unfold bind at 1; cbn [Date_now ret console_log emit];
      match goal with
      | |- context [for_each ?f models ?w1] =>
          destruct (IH w1) as [Hkeep Hrows]
      end;
      cbn [events] in Hkeep; (split; [intros e He; apply Hkeep, in_or_app; now left|]);
      (intros m [<-|Hm]; [|now apply Hrows]);
      eexists; apply Hkeep, in_or_app; right; now left.
Qed.

(** C9. For the record whose id is "openrouter/auto", whatever its
    pricing strings and whatever the invert-price flag, [formatPrice]
    yields "n/a", and the row the table view prints has "n/a", padded to
    the column width, in the prompt-price and in the completion-price
    column. *)
Theorem auto_router_renders_not_applicable (args : Args) (model : Model) :
  id model = AUTO_ROUTER ->
  (forall priceStr invert,
      formatPrice priceStr invert (Some (id model)) = str "n/a")
  /\ (forall now,
        nth_error (tableRow args now model) 1 = Some (str "   n/a")
        /\ nth_error (tableRow args now model) 2 = Some (str "   n/a"))
  /\ (forall models w,
        In model models ->
        exists id_cell rest,
          In (Stdout (join (str " | ")
                        (id_cell :: str "   n/a" :: str "   n/a" :: rest)))
             (events (snd (outputAsTable env models args w)))).
Proof.
  intros Hid. split; [|split].
  - intros priceStr invert. rewrite Hid. apply formatPrice_auto.
  - intros now. unfold tableRow. rewrite Hid, !formatPrice_auto, padStart_na.
    split; reflexivity.
  - intros models w Hin. unfold outputAsTable.
    unfold bind at 1. cbn [console_log emit].
    match goal with
    | |- context [for_each ?f models ?w1] =>
        destruct (table_rows_printed args models w1) as [_ Hrows]
    end.
    destruct (Hrows model Hin) as [now Hrow].
    unfold tableRow in Hrow. rewrite Hid, !formatPrice_auto, padStart_na in Hrow.
    eexists _, _. exact Hrow.
Qed.

End Table.

Lemma auto_router_renders_not_applicable_witness :
  nth_error (tableRow (host := plain_host) inverted_args (of_Z 0) auto_router) 1
  = Some (str "   n/a").
Proof.
  destruct (auto_router_renders_not_applicable (host := plain_host)
              (answering 0 None) inverted_args auto_router eq_refl)
    as (_ & H & _).
  exact (proj1 (H (of_Z 0))).
Defined.

(** ** The fetch orchestrator *)

Ltac io_unfold :=
  repeat progress unfold cache_fresh_path, network_path, try_catch, bind,
    Deno_stat, Date_now, mtime_getTime, Deno_readTextFile, Deno_writeTextFile,
    fetch, response_json, parse_JSON, parse_models, console_error, console_log,
    emit, ret, throw, when, lift;
  cbv beta iota.

Ltac logged :=
  cbn [cache_file ticks events negb]; rewrite <- ?app_assoc; cbn [app];
  eexists _, _; split; [|reflexivity];
  repeat constructor; eexists; reflexivity.

Section Fetch.

Context {host : Host}.
Variable env : Env.

(** The cache-fresh path returns the batch of a fresh, valid cache file,
    after one line on the error stream and nothing else. *)
Lemma cache_fresh_hit (forceRefresh : bool) (w : World) (models : list Model) :
  fresh_batch env forceRefresh w = Some models ->
  cache_fresh_path env forceRefresh w
  = (Normal (Some models),
     {| cache_file := cache_file w; ticks := S (ticks w);
        events := events w ++ [Stderr (dim (str "Loading models from cache..."))] |}).
Proof.
  unfold fresh_batch, cached_batch, ageHours.
  destruct (cache_file w) as [|info content|e] eqn:F; try discriminate.
  destruct (mtime info) as [t|] eqn:M; try discriminate.
  destruct (negb forceRefresh && _) eqn:C; try discriminate.
  destruct content as [e|text]; try discriminate.
  destruct (JSON_parse text) as [j|] eqn:P; try discriminate.
  destruct (OpenRouterModelsSchema j) as [d|] eqn:V; try discriminate.
  cbn [option_map]. intros [= <-].
  io_unfold. cbn [cache_file ticks events]. rewrite F, M.
  cbn [cache_file ticks events]. rewrite C.
  cbn [cache_file ticks events]. rewrite F, P, V. reflexivity.
Qed.

(** Otherwise it hands over to the network path: whatever went wrong is
    at most logged, and the cache file is as it was. *)
Lemma cache_fresh_miss (forceRefresh : bool) (w : World) :
  fresh_batch env forceRefresh w = None ->
  exists n log,
    Forall is_stderr log
    /\ cache_fresh_path env forceRefresh w
       = (Normal None,
          {| cache_file := cache_file w; ticks := n; events := events w ++ log |}).
Proof.
  destruct w as [cf tk ev].
  unfold fresh_batch, cached_batch, ageHours. cbn [cache_file ticks events].
  io_unfold. cbn [cache_file ticks events].
  destruct cf as [|info content|e].
  - intros _. exists tk, []. rewrite app_nil_r. split; [constructor | reflexivity].
  - destruct (mtime info) as [t|]; cbn [cache_file ticks events].
    + destruct (negb forceRefresh && _); cbn [cache_file ticks events].
      * destruct content as [e|text].
        -- intros _. destruct (is_kind NotFound e); cbn [negb]; logged.
        -- destruct (JSON_parse text) as [j|]; [|intros _; cbn; logged].
           cbn [cache_file ticks events].
           destruct (OpenRouterModelsSchema j); [discriminate|].
           intros _. cbn. logged.
      * intros _. exists (S tk), []. rewrite app_nil_r.
        split; [constructor | reflexivity].
    + intros _. cbn. logged.
  - intros _. destruct (is_kind NotFound e); cbn [negb].
    + exists tk, []. rewrite app_nil_r. split; [constructor | reflexivity].
    + logged.
Qed.

Lemma stale_fallback_result (w : World) :
  fst (stale_fallback_path w) = stale_result (cache_file w).
Proof.
  unfold stale_fallback_path, stale_result, cached_batch.
  io_unfold. cbn [cache_file ticks events].
  destruct (cache_file w) as [|info [e|text]|e]; try reflexivity.
  destruct (JSON_parse text) as [j|]; [|reflexivity].
  destruct (OpenRouterModelsSchema j) as [d|]; reflexivity.
Qed.

Lemma stale_fallback_keeps (w : World) (e : Event) :
  In e (events w) -> In e (events (snd (stale_fallback_path w))).
Proof.
  intros He. unfold stale_fallback_path. io_unfold. cbn [cache_file ticks events].
  assert (K : In e (events w ++ [Stderr (dim (str "Using stale cache as a fallback."))]))
    by (apply in_or_app; now left).
  destruct (cache_file w) as [|info [err|text]|err];
    [| |destruct (JSON_parse text) as [j|];
        [destruct (OpenRouterModelsSchema j)|]|];
    cbn [snd events Deno_exit]; trivial; apply in_or_app; now left.
Qed.

(** The [catch] block logs the error and leaves the result to the
    stale-fallback path. *)
Lemma on_fetch_error_result (error : Error) (w : World) :
  fst (on_fetch_error error w) = stale_result (cache_file w)
  /\ In (Stderr (yellow (str "Error fetching or validating data: " ++ message error)))
        (events (snd (on_fetch_error error w)))
  /\ forall e, In e (events w) -> In e (events (snd (on_fetch_error error w))).
Proof.
  unfold on_fetch_error. io_unfold.
  destruct (is_kind ZodError error); cbn [cache_file ticks events];
    (split; [now rewrite stale_fallback_result|]);
    (split; [|intros e He]); apply stale_fallback_keeps; cbn [events];
    rewrite <- ?app_assoc; apply in_or_app; auto.
  - right. now left.
  - right. now left.
Qed.

Lemma network_path_result (w : World) :
  fst (network_path env w)
  = match network_batch env with
    | Some models => Normal models
    | None => stale_result (stale_file env (cache_file w))
    end.
Proof.
  unfold network_batch, stale_file, fetched_batch.
  io_unfold. cbn [cache_file ticks events].
  destruct (fetch_result env) as [e|r].
  - now rewrite (proj1 (on_fetch_error_result _ _)).
  - destruct (ok r).
    + destruct (body r) as [e|j].
      * now rewrite (proj1 (on_fetch_error_result _ _)).
      * destruct (OpenRouterModelsSchema j) as [d|].
        -- destruct (write_error env) as [[e leftover]|].
           ++ now rewrite (proj1 (on_fetch_error_result _ _)).
           ++ reflexivity.
        -- now rewrite (proj1 (on_fetch_error_result _ _)).
    + now rewrite (proj1 (on_fetch_error_result _ _)).
Qed.

(** A failed write of a fetched, valid batch is logged. *)
Lemma network_path_write_failure (w : World) (d : Models) e leftover :
  fetched_batch env = Some d ->
  write_error env = Some (e, leftover) ->
  In (Stderr (yellow (str "Error fetching or validating data: " ++ message e)))
     (events (snd (network_path env w))).
Proof.
  unfold fetched_batch. intros Hf Hw.
  io_unfold. cbn [cache_file ticks events].
  destruct (fetch_result env) as [e'|r]; [discriminate|].
  destruct (ok r); [|discriminate].
  destruct (body r) as [e'|j]; [discriminate|].
  rewrite Hf, Hw. exact (proj1 (proj2 (on_fetch_error_result _ _))).
Qed.

(** A successful write leaves the batch in the cache file. *)
Lemma network_path_written (w : World) (d : Models) :
  fetched_batch env = Some d ->
  write_error env = None ->
  exists info,
    cache_file (snd (network_path env w))
    = Present info (inr (JSON_stringify (json_of_Models d))).
Proof.
  unfold fetched_batch. intros Hf Hw.
  io_unfold. cbn [cache_file ticks events].
  destruct (fetch_result env) as [e'|r]; [discriminate|].
  destruct (ok r); [|discriminate].
  destruct (body r) as [e'|j]; [discriminate|].
  rewrite Hf, Hw. eexists. reflexivity.
Qed.

Lemma fetchModels_after_mkdir (forceRefresh : bool) (w : World) :
  mkdir_failure env (cache_file w) = None ->
  fetchModels env forceRefresh w
  = bind (cache_fresh_path env forceRefresh)
         (fun cached => match cached with
                        | Some models => ret models
                        | None => network_path env
                        end) w.
Proof.
  unfold fetchModels, mkdir_failure. unfold bind at 1. unfold Deno_mkdir.
  destruct (cache_file w); try reflexivity; now intros ->.
Qed.

(** The orchestrator decides as [fetch_outcome] says. *)
Lemma fetchModels_outcome (forceRefresh : bool) (w : World) :
  fst (fetchModels env forceRefresh w) = fetch_outcome env forceRefresh w.
Proof.
  unfold fetch_outcome.
  destruct (mkdir_failure env (cache_file w)) as [e|] eqn:K.
  - unfold fetchModels, mkdir_failure in *. unfold bind at 1. unfold Deno_mkdir.
    destruct (cache_file w); try discriminate; now rewrite K.
  - rewrite (fetchModels_after_mkdir _ _ K). unfold bind.
    destruct (fresh_batch env forceRefresh w) as [models|] eqn:B.
    + now rewrite (cache_fresh_hit _ _ B).
    + destruct (cache_fresh_miss _ _ B) as (n & log & _ & ->).
      now rewrite network_path_result.
Qed.

(** C1, amended.  On the network path, when the HTTP GET succeeds with
    a 2xx status and the decoded body passes the schema, [fetchModels]
    returns that validated batch provided the write to the cache file
    succeeds, and the file then holds the batch.  A write failure is
    logged as a fetch error and hands the result over to the
    stale-fallback path: what the file left behind validates to, or
    exit status 1. *)
Theorem network_success_returns_batch_once_written
        (forceRefresh : bool) (w : World) (d : Models) :
  mkdir_failure env (cache_file w) = None ->
  fresh_batch env forceRefresh w = None ->
  fetched_batch env = Some d ->
  match write_error env with
  | None =>
      fst (fetchModels env forceRefresh w) = Normal (data d)
      /\ exists info,
          cache_file (snd (fetchModels env forceRefresh w))
          = Present info (inr (JSON_stringify (json_of_Models d)))
  | Some (e, leftover) =>
      fst (fetchModels env forceRefresh w) = stale_result leftover
      /\ In (Stderr (yellow (str "Error fetching or validating data: "
                               ++ message e)))
            (events (snd (fetchModels env forceRefresh w)))
  end.
Proof.
  intros Hdir Hmiss Hfetch.
  pose proof (fetchModels_outcome forceRefresh w) as Hout.
  unfold fetch_outcome, network_batch, stale_file in Hout.
  rewrite Hdir, Hmiss, Hfetch in Hout.
  rewrite (fetchModels_after_mkdir _ _ Hdir) in *. unfold bind in *.
  destruct (cache_fresh_miss _ _ Hmiss) as (n & log & _ & Hrun).
  rewrite Hrun in *.
  destruct (write_error env) as [[e leftover]|] eqn:Hw.
  - split; [exact Hout|]. now apply network_path_write_failure with d leftover.
  - split; [exact Hout|]. now apply network_path_written.
Qed.

(** C3.  When the caller does not force a refresh and the cache file
    exists, was modified less than 24 hours ago and holds text that
    decodes and passes the schema, [fetchModels] returns the cached
    batch, and all it does is write one line on the error stream: no
    network request is issued.  When instead the file cannot be read, or
    its text does not decode or does not validate, nothing is thrown:
    the failure is at most logged and [fetchModels] goes on as the
    network path does. *)
Theorem fresh_cache_returned_without_network
        (w : World) (info : FileInfo) (content : Error + jsstring) (t : number) :
  cache_file w = Present info content ->
  mtime info = Some t ->
  num_lt (ageHours (clock env (ticks w)) t) CACHE_EXPIRATION_HOURS = true ->
  (forall text j d,
      content = inr text ->
      JSON_parse text = Some j ->
      OpenRouterModelsSchema j = Some d ->
      fst (fetchModels env false w) = Normal (data d)
      /\ events (snd (fetchModels env false w))
         = events w ++ [Stderr (dim (str "Loading models from cache..."))]
      /\ cache_file (snd (fetchModels env false w)) = cache_file w)
  /\ (cached_batch (Present info content) = None ->
      exists n log,
        Forall is_stderr log
        /\ fetchModels env false w
           = network_path env
               {| cache_file := cache_file w; ticks := n;
                  events := events w ++ log |}).
Proof.
  intros Hfile Hmtime Hage.
  assert (Hdir : mkdir_failure env (cache_file w) = None) by now rewrite Hfile.
  assert (Hfresh : fresh_batch env false w = cached_batch (Present info content)).
  { unfold fresh_batch. rewrite Hfile, Hmtime, Hage. reflexivity. }
  rewrite (fetchModels_after_mkdir _ _ Hdir). unfold bind. split.
  - intros text j d -> Hparse Hvalid.
    assert (Hhit : fresh_batch env false w = Some (data d)).
    { rewrite Hfresh. unfold cached_batch. now rewrite Hparse, Hvalid. }
    rewrite (cache_fresh_hit _ _ Hhit). repeat split.
  - intros Hnone. rewrite <- Hfresh in Hnone.
    destruct (cache_fresh_miss _ _ Hnone) as (n & log & Hlog & ->).
    now exists n, log.
Qed.

End Fetch.

(** C1, as it stands, fails: the GET answers 200 with a body that
    passes the schema, the write to the cache file fails, and
    [fetchModels] does not return the validated batch.  With no cache
    file left it ends the process with status 1; with an older cache
    file left it returns the older batch. *)
Lemma failed_write_changes_the_result :
  fetched_batch (answering 0 (Some (disk_full, Absent)))
  = Some {| data := [gpt35] |}
  /\ fst (fetchModels (host := plain_host)
            (answering 0 (Some (disk_full, Absent))) false (initial Absent))
     = Exit 1
  /\ fst (fetchModels (host := plain_host)
            (answering 0 (Some (disk_full, older_catalog))) true
            (initial older_catalog))
     = Normal [].
Proof. repeat split; vm_compute; reflexivity. Qed.

Lemma network_success_returns_batch_once_written_witness :
  fst (fetchModels (host := plain_host) (answering 0 None) false (initial Absent))
  = Normal [gpt35].
Proof.
  exact (proj1 (network_success_returns_batch_once_written
                  (host := plain_host) (answering 0 None) false (initial Absent)
                  (d := {| data := [gpt35] |})
                  eq_refl eq_refl
                  ltac:(vm_compute; reflexivity))).
Defined.

Lemma fresh_cache_returned_without_network_witness :
  fst (fetchModels (host := plain_host) (answering 3600000 None) false
         (initial cached_catalog))
  = Normal [gpt35]
  /\ events (snd (fetchModels (host := plain_host) (answering 3600000 None) false
                    (initial cached_catalog)))
     = [Stderr (str "Loading models from cache...")].
Proof.
  destruct (proj1 (fresh_cache_returned_without_network
                     (host := plain_host) (answering 3600000 None)
                     (initial cached_catalog)
                     (info := {| mtime := Some (of_Z 0) |})
                     (content := inr catalog_text) (t := of_Z 0)
                     eq_refl eq_refl ltac:(vm_compute; reflexivity))
                  catalog_text lean_catalog {| data := [gpt35] |}
                  eq_refl ltac:(vm_compute; reflexivity)
                  ltac:(vm_compute; reflexivity))
    as (H1 & H2 & _).
  split; [exact H1 | exact H2].
Defined.

(** ** Main execution *)

Section Main.

Context {host : Host}.
Variable env : Env.

Lemma for_each_normal {A} (f : A -> IO unit) (l : list A) :
  (forall x w, fst (f x w) = Normal tt) ->
  forall w, fst (for_each f l w) = Normal tt.
Proof.
  intros Hf. induction l as [|x l IH]; intros w; [reflexivity|].
  cbn [for_each]. unfold bind. specialize (Hf x w).
  destruct (f x w) as [c w1]. cbn [fst] in Hf. subst c. apply IH.
Qed.

Lemma outputAsTable_normal models args w :
  fst (outputAsTable env models args w) = Normal tt.
Proof.
  unfold outputAsTable. unfold bind at 1. cbn [console_log emit].
  apply for_each_normal. intros x w1. unfold bind, age_reading.
  now destruct (timestamp_unknown (created x)).
Qed.

Lemma outputAsCsv_normal models args w :
  fst (outputAsCsv models args w) = Normal tt.
Proof.
  unfold outputAsCsv. unfold bind at 1. cbn [console_log emit].
  now apply for_each_normal.
Qed.

Lemma outputAsMarkdown_normal models args w :
  fst (outputAsMarkdown env models args w) = Normal tt.
Proof.
  unfold outputAsMarkdown. unfold bind at 1. cbn [console_log emit].
  unfold bind at 1. cbn [console_log emit].
  apply for_each_normal. intros x w1. unfold bind, age_reading.
  now destruct (timestamp_unknown (created x)).
Qed.

Lemma sortModels_no_exit models sortBy desc code :
  sortModels models sortBy desc <> Exit code.
Proof.
  unfold sortModels. destruct (keyMap sortBy); [discriminate|].
  destruct (array_includes Object_prototype_methods sortBy); [discriminate|].
  destruct (array_includes Object_prototype_throwing sortBy); [|discriminate].
  destruct models as [|a [|b l]]; discriminate.
Qed.

(** How a run that needs the catalog ends. *)
Lemma main_completion (args : Args) (f : File) :
  help args = false -> version args = false ->
  fst (run env args f)
  = match fetch_outcome env (force_refresh args) (initial f) with
    | Normal models =>
        match sortModels (filterModels models args) (sort_by args) (desc args) with
        | Normal _ => Normal tt
        | Throw e => Throw e
        | Exit code => Exit code
        end
    | Throw e => Throw e
    | Exit code => Exit code
    end.
Proof.
  intros Hh Hv. unfold run, main. rewrite Hh, Hv.
  rewrite <- fetchModels_outcome. unfold bind at 1.
  destruct (fetchModels env (force_refresh args) (initial f)) as [[models|e|c] w1];
    cbn [fst]; try reflexivity.
  unfold bind, lift.
  destruct (sortModels (filterModels models args) (sort_by args) (desc args))
    as [sorted|e|c]; try reflexivity.
  destruct (jsstring_eqb (output args) (str "json")); [reflexivity|].
  destruct (jsstring_eqb (output args) (str "csv")); [apply outputAsCsv_normal|].
  destruct (_ || _); [apply outputAsMarkdown_normal | apply outputAsTable_normal].
Qed.

Lemma fetch_outcome_cases (forceRefresh : bool) (w : World) :
  (exists e, mkdir_failure env (cache_file w) = Some e
             /\ fetch_outcome env forceRefresh w = Throw e)
  \/ (mkdir_failure env (cache_file w) = None
      /\ exists models, fetch_outcome env forceRefresh w = Normal models)
  \/ (mkdir_failure env (cache_file w) = None
      /\ fresh_batch env forceRefresh w = None
      /\ network_batch env = None
      /\ cached_batch (stale_file env (cache_file w)) = None
      /\ fetch_outcome env forceRefresh w = Exit 1).
Proof.
  unfold fetch_outcome, stale_result.
  destruct (mkdir_failure env (cache_file w)) as [e|]; [left; eauto|]. right.
  destruct (fresh_batch env forceRefresh w); [left; eauto|].
  destruct (network_batch env); [left; eauto|].
  destruct (cached_batch (stale_file env (cache_file w))); [left; eauto|].
  right. repeat split.
Qed.

(** C5, amended.  The process ends with status 0 on normal completion;
    with [--help] or [--version] it prints and ends with 0 without
    fetching.  Otherwise, for a sort key that does not throw, it ends
    with a non-zero status, which is then 1, exactly when no batch is
    obtained: the cache directory cannot be created, or the cache-fresh
    path does not return, the network path fails (no valid batch
    fetched, or the batch could not be written to the cache file) and
    the stale-cache fallback finds no valid batch either. *)
Theorem exit_status_of_run (args : Args) (f : File) :
  (help args = true \/ version args = true ->
   exit_status (fst (run env args f)) = 0
   /\ exists line, events (snd (run env args f)) = [Stdout line])
  /\ (help args = false -> version args = false ->
      array_includes Object_prototype_throwing (sort_by args) = false ->
      (forall models,
          fetch_outcome env (force_refresh args) (initial f) = Normal models ->
          exit_status (fst (run env args f)) = 0)
      /\ (exit_status (fst (run env args f)) <> 0 <->
          mkdir_failure env f <> None
          \/ (fresh_batch env (force_refresh args) (initial f) = None
              /\ network_batch env = None
              /\ cached_batch (stale_file env f) = None))
      /\ (exit_status (fst (run env args f)) <> 0 ->
          exit_status (fst (run env args f)) = 1)).
Proof.
  split.
  - intros Hhv. unfold run, main.
    destruct (help args) eqn:Hh.
    + split; [reflexivity | now exists usage].
    + destruct Hhv as [?|Hv]; [discriminate|]. rewrite Hv.
      split; [reflexivity | now exists VERSION].
  - intros Hh Hv Hkey. rewrite (main_completion _ _ Hh Hv).
    destruct (fetch_outcome_cases (force_refresh args) (initial f))
      as [(e & Hdir & ->) | [(Hdir & models & Hout) | (Hdir & Hf & Hn & Hs & Hout)]];
      cbn [initial cache_file] in *.
    + split; [discriminate|]. split; [|reflexivity]. split.
      * intros _. left. congruence.
      * discriminate.
    + rewrite Hout.
      destruct (@sortModels_returns _ (filterModels models args) (sort_by args)
                  (desc args) (or_introl Hkey)) as [sorted ->].
      split; [reflexivity|]. split; [|intros K; exfalso; now apply K]. split.
      * intros K. exfalso. now apply K.
      * intros [K | (K & Kn & Ks)].
        -- congruence.
        -- unfold fetch_outcome, stale_result in Hout.
           cbn [initial cache_file] in Hout.
           rewrite Hdir, K, Kn, Ks in Hout. discriminate.
    + rewrite Hout. split; [discriminate|]. split; [|reflexivity]. split.
      * intros _. right. repeat split; assumption.
      * discriminate.
Qed.

End Main.

(** C5, as it stands, fails: the process also ends with a non-zero
    status when the network fetch did yield a valid batch, because the
    batch could not be written to the cache file and no cache is left,
    or because the cache directory could not be created. *)
Lemma nonzero_exit_with_a_valid_batch_fetched :
  fetched_batch (answering 0 (Some (disk_full, Absent)))
  = Some {| data := [gpt35] |}
  /\ exit_status (fst (run (host := plain_host)
                         (answering 0 (Some (disk_full, Absent)))
                         plain_args Absent)) = 1
  /\ fetched_batch (read_only_home 0) = Some {| data := [gpt35] |}
  /\ exit_status (fst (run (host := plain_host) (read_only_home 0)
                         plain_args Absent)) = 1.
Proof. repeat split; vm_compute; reflexivity. Qed.

Lemma exit_status_of_run_witness :
  exit_status (fst (run (host := plain_host) (answering 0 None) help_args Absent))
  = 0.
Proof.
  exact (proj1 (proj1 (exit_status_of_run (host := plain_host)
                         (answering 0 None) help_args Absent)
                      (or_introl eq_refl))).
Defined.

(** * Further properties *)

Unset Implicit Arguments.

(** ** The schema and the records written to the cache *)

Section Codec.

Lemma required_here {T} (s : Zod.schema T) k v rest :
  Zod.required s ((str k, v) :: rest) k = s v.
Proof. unfold Zod.required. cbn [get_prop]. now rewrite jsstring_eqb_refl. Qed.

Lemma required_later {T} (s : Zod.schema T) k k' v rest :
  jsstring_eqb (str k') (str k) = false ->
  Zod.required s ((str k', v) :: rest) k = Zod.required s rest k.
Proof. intros H. unfold Zod.required. cbn [get_prop]. now rewrite H. Qed.

Lemma optional_here {T} (s : Zod.schema T) k v rest :
  Zod.optional s ((str k, v) :: rest) k = option_map Some (s v).
Proof. unfold Zod.optional. cbn [get_prop]. now rewrite jsstring_eqb_refl. Qed.

Lemma optional_later {T} (s : Zod.schema T) k k' v rest :
  jsstring_eqb (str k') (str k) = false ->
  Zod.optional s ((str k', v) :: rest) k = Zod.optional s rest k.
Proof. intros H. unfold Zod.optional. cbn [get_prop]. now rewrite H. Qed.

Ltac lookup :=
  repeat first
    [ rewrite required_here
    | rewrite optional_here
    | rewrite required_later by (vm_compute; reflexivity)
    | rewrite optional_later by (vm_compute; reflexivity) ].

Lemma strings_round_trip (xs : list jsstring) :
  Zod.array Zod.string (json_strings xs) = Some xs.
Proof.
  unfold json_strings. cbn [Zod.array].
  induction xs as [|x xs IH]; [reflexivity|].
  cbn [map Zod.parse_all Zod.string]. now rewrite IH.
Qed.

Lemma entries_round_trip (props : list (jsstring * json)) :
  Zod.parse_entries Zod.unknown props = Some props.
Proof.
  induction props as [|[k v] props IH]; [reflexivity|].
  cbn [Zod.parse_entries Zod.unknown]. now rewrite IH.
Qed.

Lemma Architecture_round_trip (a : Architecture) :
  ArchitectureSchema (json_of_Architecture a) = Some a.
Proof.
  destruct a as [m i o t it].
  unfold ArchitectureSchema, json_of_Architecture, Zod.object.
  cbn [modality input_modalities output_modalities tokenizer instruct_type].
  lookup. rewrite !strings_round_trip.
  now destruct it.
Qed.

Lemma Pricing_round_trip (p : Pricing) :
  PricingSchema (json_of_Pricing p) = Some p.
Proof.
  destruct p as [a b [c|] [d|] [e|] [f|] [g|] [h|]]; vm_compute; reflexivity.
Qed.

Lemma nullable_int_round_trip (x : option number) :
  integral x ->
  Zod.nullable Zod4.number_int (json_nullable JNumber x) = Some x.
Proof.
  destruct x as [n|]; cbn; [|reflexivity]. now intros ->.
Qed.

Lemma TopProvider_round_trip (t : TopProvider) :
  integral (tp_context_length t) -> integral (max_completion_tokens t) ->
  TopProviderSchema (json_of_TopProvider t) = Some t.
Proof.
  destruct t as [c m b]. cbn [tp_context_length max_completion_tokens].
  intros Hc Hm.
  unfold TopProviderSchema, json_of_TopProvider, Zod.object.
  cbn [tp_context_length max_completion_tokens is_moderated].
  lookup. now rewrite (nullable_int_round_trip _ Hc), (nullable_int_round_trip _ Hm).
Qed.

Lemma Model_round_trip (m : Model) :
  valid_model m -> ModelSchema (json_of_Model m) = Some m.
Proof.
  destruct m as [i n d c cr h s a p t l sp].
  unfold valid_model.
  cbn [context_length created top_provider].
  intros (Hc & Hcr & Ht1 & Ht2).
  unfold ModelSchema, json_of_Model, Zod.object.
  cbn [id name description context_length created hugging_face_id
       canonical_slug architecture pricing top_provider per_request_limits
       supported_parameters].
  lookup.
  rewrite Architecture_round_trip, Pricing_round_trip,
    (TopProvider_round_trip _ Ht1 Ht2), strings_round_trip.
  cbn [Zod.string Zod4.number_int]. rewrite Hc, Hcr.
  destruct h, l; cbn; rewrite ?entries_round_trip; reflexivity.
Qed.

Lemma Models_round_trip (ms : list Model) :
  Forall valid_model ms ->
  Zod.parse_all ModelSchema (map json_of_Model ms) = Some ms.
Proof.
  induction 1 as [|m ms Hm _ IH]; [reflexivity|].
  cbn [map Zod.parse_all]. now rewrite (Model_round_trip _ Hm), IH.
Qed.

Lemma number_int_integer j x :
  Zod4.number_int j = Some x -> Number_isSafeInteger x = true.
Proof.
  destruct j; try discriminate. cbn.
  destruct (Number_isSafeInteger x0) eqn:E; [|discriminate]. now intros [= <-].
Qed.

Lemma required_number_int o k x :
  Zod.required Zod4.number_int o k = Some x -> Number_isSafeInteger x = true.
Proof.
  unfold Zod.required. destruct (get_prop o (str k)); [|discriminate].
  apply number_int_integer.
Qed.

Lemma required_nullable_int o k x :
  Zod.required (Zod.nullable Zod4.number_int) o k = Some x -> integral x.
Proof.
  unfold Zod.required. destruct (get_prop o (str k)) as [j|]; [|discriminate].
  unfold Zod.nullable.
  destruct j; try (intros [= <-]; exact I); try discriminate.
  destruct (Zod4.number_int (JNumber x0)) eqn:E; cbn; [|discriminate].
  intros [= <-]. cbn. now apply number_int_integer in E.
Qed.

Lemma TopProvider_valid j t :
  TopProviderSchema j = Some t ->
  integral (tp_context_length t) /\ integral (max_completion_tokens t).
Proof.
  destruct j; try discriminate.
  unfold TopProviderSchema, Zod.object.
  destruct (Zod.required (Zod.nullable Zod4.number_int) props "context_length")
    as [c|] eqn:Hc; [|discriminate].
  destruct (Zod.required (Zod.nullable Zod4.number_int) props "max_completion_tokens")
    as [m|] eqn:Hm; [|discriminate].
  destruct (Zod.required Zod.boolean props "is_moderated"); [|discriminate].
  intros [= <-]. cbn. split; eapply required_nullable_int; eassumption.
Qed.

Lemma Model_valid j m : ModelSchema j = Some m -> valid_model m.
Proof.
  destruct j; try discriminate.
  unfold ModelSchema, Zod.object.
  repeat match goal with
         | |- context [Zod.required ?s props ?k] =>
             let E := fresh "E" in
             destruct (Zod.required s props k) eqn:E; [|discriminate]
         end.
  intros [= <-]. unfold valid_model. cbn.
  repeat match goal with
         | H : Zod.required Zod4.number_int _ _ = Some _ |- _ =>
             apply required_number_int in H
         end.
  match goal with
  | H : Zod.required TopProviderSchema props _ = Some ?t |- _ =>
      unfold Zod.required in H;
      destruct (get_prop props (str "top_provider")); [|discriminate];
      apply TopProvider_valid in H; destruct H
  end.
  auto.
Qed.

Lemma parse_all_valid items ms :
  Zod.parse_all ModelSchema items = Some ms -> Forall valid_model ms.
Proof.
  revert ms. induction items as [|j items IH]; intros ms.
  - intros [= <-]. constructor.
  - cbn [Zod.parse_all]. destruct (ModelSchema j) as [m|] eqn:E; [|discriminate].
    destruct (Zod.parse_all ModelSchema items) as [ms'|]; [|discriminate].
    intros [= <-]. constructor; [now apply Model_valid in E | now apply IH].
Qed.

(** A validated batch has valid records, and its encoding validates to
    the batch. *)
Lemma batch_valid (j : json) (d : Models) :
  OpenRouterModelsSchema j = Some d -> Forall valid_model (data d).
Proof.
  destruct j; try discriminate.
  unfold OpenRouterModelsSchema. unfold Zod.object, Zod.required.
  destruct (get_prop props (str "data")) as [v|]; [|discriminate].
  destruct v; try discriminate. cbn [Zod.array].
  destruct (Zod.parse_all ModelSchema items) as [ms|] eqn:E; [|discriminate].
  intros [= <-]. cbn [data]. now apply parse_all_valid in E.
Qed.

Lemma batch_encoding_validates (d : Models) :
  Forall valid_model (data d) ->
  OpenRouterModelsSchema (json_of_Models d) = Some d.
Proof.
  destruct d as [ms]. cbn [data]. intros E.
  unfold OpenRouterModelsSchema, json_of_Models, Zod.object. cbn [data].
  lookup. cbn [Zod.array]. now rewrite (Models_round_trip _ E).
Qed.

Lemma batch_round_trip (j : json) (d : Models) :
  OpenRouterModelsSchema j = Some d ->
  OpenRouterModelsSchema (json_of_Models d) = Some d.
Proof. intros H. apply batch_encoding_validates, (batch_valid j), H. Qed.

(** X1. What the schema has validated, it validates again: the numeric
    fields of a validated batch are safe integers, and the batch written out
    as [fetchModels] writes it to the cache file, decoded again, passes
    the schema and yields the same batch. *)
Theorem validated_batch_round_trip (j : json) (d : Models) :
  OpenRouterModelsSchema j = Some d ->
  Forall valid_model (data d)
  /\ OpenRouterModelsSchema (json_of_Models d) = Some d.
Proof.
  intros H. split.
  - exact (batch_valid j d H).
  - exact (batch_round_trip j d H).
Qed.

Lemma parse_all_Forall2 {T} (s : Zod.schema T) (items : list json) (vs : list T) :
  Zod.parse_all s items = Some vs <-> Forall2 (fun j v => s j = Some v) items vs.
Proof.
  revert vs. induction items as [|j items IH]; intros vs; cbn [Zod.parse_all].
  - split; [intros [= <-]; constructor | now inversion 1].
  - split.
    + destruct (s j) as [v|] eqn:E; [|discriminate].
      destruct (Zod.parse_all s items) as [vs'|]; [|discriminate].
      intros [= <-]. constructor; [exact E | now apply IH].
    + inversion 1 as [|? v ? vs' Hj Hrest]; subst.
      rewrite Hj. apply IH in Hrest. now rewrite Hrest.
Qed.

(** X2. The batch is validated record by record, all or nothing: a
    decoded value passes [OpenRouterModelsSchema] exactly when it is an
    object whose [data] is an array each element of which passes
    [ModelSchema]; the validated records are those of the array, as
    many and in the same order.  One record that fails rejects the
    whole batch, and so does a value that is not an object. *)
Theorem batch_validated_record_by_record :
  (forall (props : list (jsstring * json)) (d : Models),
      OpenRouterModelsSchema (JObject props) = Some d <->
      exists items,
        get_prop props (str "data") = Some (JArray items)
        /\ Forall2 (fun j m => ModelSchema j = Some m) items (data d))
  /\ (forall (props : list (jsstring * json)) (items : list json) (j : json),
        get_prop props (str "data") = Some (JArray items) ->
        In j items -> ModelSchema j = None ->
        OpenRouterModelsSchema (JObject props) = None)
  /\ (forall j : json,
        (forall props, j <> JObject props) -> OpenRouterModelsSchema j = None).
Proof.
  assert (Hiff : forall props d,
             OpenRouterModelsSchema (JObject props) = Some d <->
             exists items,
               get_prop props (str "data") = Some (JArray items)
               /\ Forall2 (fun j m => ModelSchema j = Some m) items (data d)).
  { intros props d. unfold OpenRouterModelsSchema, Zod.object, Zod.required.
    destruct (get_prop props (str "data")) as [v|].
    - destruct v; try (split; [discriminate | intros (? & [=] & _)]).
      cbn [Zod.array]. split.
      + destruct (Zod.parse_all ModelSchema items) as [ms|] eqn:E; [|discriminate].
        intros [= <-]. exists items. split; [reflexivity|].
        now apply parse_all_Forall2.
      + intros (items' & [= <-] & H). apply parse_all_Forall2 in H.
        rewrite H. now destruct d.
    - split; [discriminate | intros (? & [=] & _)]. }
  split; [exact Hiff|]. split.
  - intros props items j Hdata Hin Hfail.
    destruct (OpenRouterModelsSchema (JObject props)) as [d|] eqn:E; [|reflexivity].
    apply Hiff in E. destruct E as (items' & Hdata' & H).
    rewrite Hdata in Hdata'. injection Hdata' as <-.
    exfalso. clear Hdata. induction H as [|j' m items ms Hj _ IH].
    + destruct Hin.
    + destruct Hin as [->|Hin]; [congruence | auto].
  - intros j Hj. destruct j; try reflexivity. now destruct (Hj props).
Qed.

Lemma required_string_iff o k :
  Zod.required Zod.string o k <> None <-> string_at o k.
Proof.
  unfold Zod.required, string_at. destruct (get_prop o (str k)) as [v|].
  - destruct v; cbn; split; try congruence; try (intros [? [=]]); eauto.
  - split; [congruence | intros [? [=]]].
Qed.

Lemma optional_string_iff o k :
  Zod.optional Zod.string o k <> None <-> string_or_absent_at o k.
Proof.
  unfold Zod.optional, string_or_absent_at, string_at.
  destruct (get_prop o (str k)) as [v|].
  - destruct v; cbn; split; try congruence;
      try (intros [[=] | [? [=]]]); eauto.
  - split; [auto | congruence].
Qed.

(** X3. A pricing object passes [PricingSchema] exactly when [prompt]
    and [completion] are strings and each of the six optional keys is
    absent or a string: a [null], a number or any other value under one
    of the eight keys rejects the object, other keys are not looked
    at. *)
Theorem pricing_object_accepted_iff (o : list (jsstring * json)) :
  PricingSchema (JObject o) <> None <->
  string_at o "prompt" /\ string_at o "completion"
  /\ Forall (string_or_absent_at o) optional_pricing_keys.
Proof.
  unfold optional_pricing_keys.
  rewrite <- !required_string_iff.
  rewrite !Forall_cons_iff, <- !optional_string_iff.
  unfold PricingSchema, Zod.object.
  destruct (Zod.required Zod.string o "prompt");
    [|split; [congruence | tauto]].
  destruct (Zod.required Zod.string o "completion");
    [|split; [congruence | tauto]].
  destruct (Zod.optional Zod.string o "request");
    [|split; [congruence | tauto]].
  destruct (Zod.optional Zod.string o "image");
    [|split; [congruence | tauto]].
  destruct (Zod.optional Zod.string o "web_search");
    [|split; [congruence | tauto]].
  destruct (Zod.optional Zod.string o "internal_reasoning");
    [|split; [congruence | tauto]].
  destruct (Zod.optional Zod.string o "input_cache_read");
    [|split; [congruence | tauto]].
  destruct (Zod.optional Zod.string o "input_cache_write");
    [|split; [congruence | tauto]].
  split; [intros _ | congruence].
  repeat split; try congruence. constructor.
Qed.

Lemma required_skip {T} (s : Zod.schema T) k v props key :
  jsstring_eqb k (str key) = false ->
  Zod.required s ((k, v) :: props) key = Zod.required s props key.
Proof. intros H. unfold Zod.required. cbn [get_prop]. now rewrite H. Qed.

Lemma required_missing {T} (s : Zod.schema T) props key :
  get_prop props (str key) = None -> Zod.required s props key = None.
Proof. intros H. unfold Zod.required. now rewrite H. Qed.

(** X4. [ModelSchema] looks at the twelve keys of its shape and at no
    other: a property under any other key is ignored, its presence
    changes neither acceptance nor the validated record; and an object
    that lacks one of the twelve is rejected, the nullable ones
    included. *)
Theorem record_shape_is_twelve_keys :
  (forall (k : jsstring) (v : json) (props : list (jsstring * json)),
      ~ In k (map str model_keys) ->
      ModelSchema (JObject ((k, v) :: props)) = ModelSchema (JObject props))
  /\ (forall (key : String.string) (props : list (jsstring * json)),
        In key model_keys ->
        get_prop props (str key) = None ->
        ModelSchema (JObject props) = None).
Proof.
  split.
  - intros k v props Hk.
    assert (Hne : forall key, In key model_keys -> jsstring_eqb k (str key) = false).
    { intros key Hin. apply jsstring_eqb_neq. intros ->.
      apply Hk. now apply in_map. }
    unfold ModelSchema, Zod.object.
    rewrite !required_skip by (apply Hne; cbn; tauto).
    reflexivity.
  - intros key props Hin Hmiss.
    unfold ModelSchema, Zod.object.
    cbn [model_keys In] in Hin.
    repeat (destruct Hin as [<-|Hin];
            [rewrite (required_missing _ _ _ Hmiss);
             repeat match goal with
                    | |- context [match Zod.required ?s props ?k with _ => _ end] =>
                        destruct (Zod.required s props k); try reflexivity
                    end;
             reflexivity|]).
    destruct Hin.
Qed.

End Codec.

Lemma pricing_object_accepted_iff_witness :
  PricingSchema lean_pricing <> None.
Proof.
  apply (proj2 (pricing_object_accepted_iff
                  [(str "prompt", JString (str "0.000001"));
                   (str "completion", JString (str "0.000002"))])).
  split; [now exists (str "0.000001")|].
  split; [now exists (str "0.000002")|].
  repeat constructor.
Defined.

(** ** More on the filter engine *)

Section Filter_more.

Context {host : Host}.

Lemma filter_fused {A} (p q : A -> bool) (l : list A) :
  filter p (filter q l) = filter (fun x => q x && p x) l.
Proof.
  induction l as [|x l IH]; [reflexivity|].
  cbn [filter]. destruct (q x); cbn [filter andb]; [|exact IH].
  destruct (p x); now rewrite IH.
Qed.

Lemma filter_when_as_filter {A} (b : bool) (p : A -> bool) (l : list A) :
  filter_when b p l = filter (fun x => negb b || p x) l.
Proof.
  destruct b; cbn [filter_when negb orb]; [reflexivity|].
  induction l as [|x l IH]; [reflexivity|]. cbn [filter]. now rewrite <- IH.
Qed.

Lemma filter_with_as_filter {B} (bound : option B) (p : B -> Model -> bool)
      (l : list Model) :
  filter_with bound p l = filter (within bound p) l.
Proof.
  destruct bound; cbn [filter_with within]; [reflexivity|].
  induction l as [|x l IH]; [reflexivity|]. cbn [filter]. now rewrite <- IH.
Qed.

Lemma search_filter_as_filter (args : Args) (l : list Model) :
  search_filter args l
  = filter (fun m => match searchTerm args with
                     | Some term => jsstring_eqb term [] || matches_search term m
                     | None => true
                     end) l.
Proof.
  unfold search_filter. destruct (searchTerm args) as [term|].
  - destruct (jsstring_eqb term []); cbn [orb]; [|reflexivity].
    induction l as [|x l IH]; [reflexivity|]. cbn [filter]. now rewrite <- IH.
  - induction l as [|x l IH]; [reflexivity|]. cbn [filter]. now rewrite <- IH.
Qed.

(** The passes of [filterModels], one after the other, are one pass
    with the conjunction of the tests. *)
Lemma filterModels_passes (models : list Model) (args : Args) :
  filterModels models args = filter (passes args) models.
Proof.
  unfold filterModels.
  rewrite !filter_when_as_filter, !filter_with_as_filter, search_filter_as_filter.
  rewrite !filter_fused. apply filter_ext. intros m. unfold passes.
  now rewrite !andb_assoc.
Qed.

(** X5. The active filters combine with a logical and, record by
    record: [filterModels] keeps exactly the records that pass every
    active test, in their input order.  Hence filtering a concatenation
    filters its parts, filtering twice is filtering once, and no record
    is kept that was not in the input. *)
Theorem filterModels_record_by_record (args : Args) :
  (forall models, filterModels models args = filter (passes args) models)
  /\ (forall l1 l2,
        filterModels (l1 ++ l2) args = filterModels l1 args ++ filterModels l2 args)
  /\ (forall models,
        filterModels (filterModels models args) args = filterModels models args)
  /\ (forall models m,
        In m (filterModels models args) <-> In m models /\ passes args m = true).
Proof.
  split; [intros; apply filterModels_passes|]. split; [|split].
  - intros l1 l2. rewrite !filterModels_passes. apply filter_app.
  - intros models. rewrite !filterModels_passes, filter_fused.
    apply filter_ext. intros m. now destruct (passes args m).
  - intros models m. rewrite filterModels_passes. apply filter_In.
Qed.

Lemma starts_with_spec (t s : jsstring) :
  starts_with t s = true <-> exists after, s = t ++ after.
Proof.
  revert s. induction t as [|c t IH]; intros s; cbn [starts_with].
  - split; [intros _; now exists s | reflexivity].
  - destruct s as [|d s].
    + split; [discriminate | intros [? [=]]].
    + rewrite andb_true_iff, N.eqb_eq, IH. split.
      * intros [-> [after ->]]. now exists after.
      * intros [after [= -> ->]]. split; [reflexivity | now exists after].
Qed.

Lemma includes_spec (s t : jsstring) :
  includes s t = true <-> exists before after, s = before ++ t ++ after.
Proof.
  induction s as [|c s IH]; cbn [includes].
  - rewrite orb_false_r, starts_with_spec. split.
    + intros [after E]. now exists [], after.
    + intros (before & after & E). destruct before; [now exists after|discriminate].
  - rewrite orb_true_iff, starts_with_spec, IH. split.
    + intros [[after E] | (before & after & ->)].
      * now exists [], after.
      * now exists (c :: before), after.
    + intros (before & after & E). destruct before as [|c' before].
      * left. now exists after.
      * right. injection E as -> ->. now exists before, after.
Qed.

(** X6. The search term is matched without regard to case, as a
    substring of the id, the name or the description: with no other
    filter active, a record is kept exactly when the lower-cased term is
    empty or occurs in one of the three fields, lower-cased.  An empty
    term, like no term, keeps every record. *)
Theorem search_keeps_records_containing_the_term
        (models : list Model) (args : Args) (m : Model) :
  only_search args ->
  (In m (filterModels models args) <->
   In m models
   /\ match searchTerm args with
      | None => True
      | Some term =>
          term = []
          \/ occurs_in term (id m) \/ occurs_in term (name m)
          \/ occurs_in term (description m)
      end).
Proof.
  intros (Hf & H1 & H2 & H3 & H4 & H5 & H6 & H7 & H8).
  rewrite filterModels_passes, filter_In. unfold passes.
  rewrite Hf, H1, H2, H3, H4, H5, H6, H7, H8.
  cbn [within negb orb andb]. rewrite !andb_true_r.
  destruct (searchTerm args) as [term|]; [|tauto].
  rewrite orb_true_iff, jsstring_eqb_eq. unfold matches_search, occurs_in.
  rewrite !orb_true_iff, !includes_spec. tauto.
Qed.

Lemma existsb_swap {A B} (r : A -> B -> bool) (xs : list A) (ys : list B) :
  existsb (fun x => existsb (fun y => r x y) ys) xs
  = existsb (fun y => existsb (fun x => r x y) xs) ys.
Proof.
  apply eq_true_iff_eq. rewrite !existsb_exists. split.
  - intros (x & Hx & H). apply existsb_exists in H. destruct H as (y & Hy & H).
    exists y. split; [exact Hy|]. apply existsb_exists. now exists x.
  - intros (y & Hy & H). apply existsb_exists in H. destruct H as (x & Hx & H).
    exists x. split; [exact Hx|]. apply existsb_exists. now exists y.
Qed.

Lemma existsb_over_map {A B} (f : A -> B) (p : B -> bool) (xs : list A) :
  existsb p (map f xs) = existsb (fun x => p (f x)) xs.
Proof.
  induction xs as [|x xs IH]; cbn; [reflexivity|]. now rewrite IH.
Qed.

Lemma existsb_pointwise {A} (p q : A -> bool) (xs : list A) :
  (forall x, p x = q x) -> existsb p xs = existsb q xs.
Proof.
  intros E. induction xs as [|x xs IH]; cbn; [reflexivity|]. now rewrite E, IH.
Qed.

Lemma jsstring_eqb_sym (s t : jsstring) : jsstring_eqb s t = jsstring_eqb t s.
Proof.
  apply eq_true_iff_eq. rewrite !jsstring_eqb_eq. split; congruence.
Qed.

(** The test of a capability filter is the test of the table's mark. *)
Lemma checkParam_supports (m : Model) (tokens : list String.string) :
  checkParam (map str tokens) m = supports m tokens.
Proof.
  unfold checkParam, supports, array_includes.
  rewrite existsb_swap, existsb_over_map. apply existsb_pointwise.
  intros t. apply existsb_pointwise. intros sp. apply jsstring_eqb_sym.
Qed.

(** X7. The capability filters and the marks of the table agree.  The
    Reason, Tools, JSON and Schema cells of a row carry the check mark
    exactly when the record has one of the tokens the corresponding
    filter looks for; so every record that [--supports-reasoning],
    [--supports-tools], [--supports-response-format] or
    [--supports-structured-output] lets through is printed with the
    mark in that column. *)
Theorem capability_filters_agree_with_marks
        (args shown : Args) (now : number) (m : Model) :
  let mark (b : bool) := Some (if b then green check_mark else str "  ") in
  (nth_error (tableRow shown now m) 5
   = mark (checkParam [str "reasoning"; str "include_reasoning"] m)
   /\ nth_error (tableRow shown now m) 6
     = mark (checkParam [str "tools"; str "tool_choice"] m)
   /\ nth_error (tableRow shown now m) 7
     = mark (checkParam [str "response_format"] m)
   /\ nth_error (tableRow shown now m) 8
     = mark (checkParam [str "structured_outputs"] m))
  /\ (forall models,
        In m (filterModels models args) ->
        (supports_reasoning args = true ->
         nth_error (tableRow shown now m) 5 = Some (green check_mark))
        /\ (supports_tools args = true ->
            nth_error (tableRow shown now m) 6 = Some (green check_mark))
        /\ (is_set (supports_response_format args) = true ->
            nth_error (tableRow shown now m) 7 = Some (green check_mark))
        /\ (supports_structured_output args = true ->
            nth_error (tableRow shown now m) 8 = Some (green check_mark))).
Proof.
  intros mark.
  assert (Hcells :
            nth_error (tableRow shown now m) 5
            = mark (checkParam [str "reasoning"; str "include_reasoning"] m)
            /\ nth_error (tableRow shown now m) 6
              = mark (checkParam [str "tools"; str "tool_choice"] m)
            /\ nth_error (tableRow shown now m) 7
              = mark (checkParam [str "response_format"] m)
            /\ nth_error (tableRow shown now m) 8
              = mark (checkParam [str "structured_outputs"] m)).
  { unfold tableRow, mark. cbn [nth_error].
    rewrite <- !checkParam_supports. cbn [map]. repeat split. }
  split; [exact Hcells|].
  intros models Hin. rewrite filterModels_passes, filter_In in Hin.
  destruct Hin as [_ Hp]. unfold passes in Hp.
  rewrite !andb_true_iff in Hp.
  destruct Hp as [[[[_ Hr] Ht] Hs] Hf].
  destruct Hcells as (C5 & C6 & C7 & C8).
  repeat split; intros E; rewrite E in *; cbn [negb orb] in *.
  - now rewrite C5, Hr.
  - now rewrite C6, Ht.
  - now rewrite C7, Hf.
  - now rewrite C8, Hs.
Qed.

Lemma num_le_rank (x y : number) :
  is_nan x = false -> is_nan y = false ->
  num_le x y = true <-> lex3 (rank x) (rank y) <> Gt.
Proof.
  intros Hx Hy. unfold num_le, SFleb. rewrite (SFcompare_rank x y Hx Hy).
  destruct (lex3 (rank x) (rank y)); split; congruence.
Qed.

Lemma num_lt_not_ge (x y : number) : num_lt x y = true -> num_le y x = false.
Proof.
  intros H. destruct (num_lt_not_nan x y H) as [Hx Hy].
  destruct (num_le y x) eqn:E; [|reflexivity].
  apply (num_le_rank y x Hy Hx) in E.
  pose proof (num_lt_asym x y H) as A.
  assert (N : lex3 (rank y) (rank x) <> Lt)
    by (rewrite <- (num_lt_rank y x Hy Hx); congruence).
  assert (Q : lex3 (rank y) (rank x) = Eq)
    by (destruct (lex3 (rank y) (rank x)); congruence).
  apply lex3_Eq in Q. apply (num_lt_rank x y Hx Hy), lex3_Lt in H.
  rewrite Q in H. destruct (rank x) as [[? ?] ?]. lia.
Qed.

(** X8. The auto-routing record counts as priced at
    [Number.MAX_SAFE_INTEGER] in the price filters too, whatever its
    pricing strings: an upper bound on the prompt price below that
    number drops it, and a lower bound up to that number never does. *)
Theorem price_bounds_on_the_auto_router
        (models : list Model) (args : Args) (m : Model) (b : ArgValue) :
  id m = AUTO_ROUTER ->
  (max_prompt_price args = Some b ->
   num_lt (ToNumber b) MAX_SAFE_INTEGER = true ->
   ~ In m (filterModels models args))
  /\ (min_prompt_price args = Some b ->
      num_le (ToNumber b) MAX_SAFE_INTEGER = true ->
      within (min_prompt_price args)
        (fun b m => num_ge (getEffectivePrice (prompt (pricing m)) (id m)) (ToNumber b))
        m = true).
Proof.
  intros Hid.
  assert (Hprice : getEffectivePrice (prompt (pricing m)) (id m) = MAX_SAFE_INTEGER).
  { unfold getEffectivePrice. now rewrite Hid, jsstring_eqb_refl. }
  split.
  - intros Hmax Hlt Hin. rewrite filterModels_passes, filter_In in Hin.
    destruct Hin as [_ Hp]. unfold passes in Hp. rewrite !andb_true_iff in Hp.
    destruct Hp as [[[[[[[_ Hp] _] _] _] _] _] _].
    rewrite Hmax in Hp. cbn [within] in Hp. rewrite Hprice in Hp.
    apply num_lt_not_ge in Hlt. congruence.
  - intros Hmin Hle. rewrite Hmin. cbn [within]. now rewrite Hprice.
Qed.

End Filter_more.


Lemma search_keeps_records_containing_the_term_witness :
  In gpt35
     (filterModels (host := plain_host) [priced "a" "0"; gpt35]
        {| positional := [ArgString (str "TURBO")]; long := false; free := false;
           supports_reasoning := false; supports_tools := false;
           supports_structured_output := false; desc := false;
           group_by_provider := false; force_refresh := false;
           invert_price := false; help := false; version := false;
           sort_by := str "created"; output := str "table";
           min_prompt_price := None; max_prompt_price := None;
           min_context := None; max_context := None;
           supports_response_format := None |}).
Proof.
  apply (search_keeps_records_containing_the_term (host := plain_host)).
  - repeat split.
  - split; [right; now left|].
    right. left. exists (str "openai/gpt-3.5-"), (str "-0613"). reflexivity.
Defined.

Lemma price_bounds_on_the_auto_router_witness :
  ~ In auto_router
       (filterModels (host := plain_host) [auto_router; gpt35] capped_args).
Proof.
  refine (proj1 (price_bounds_on_the_auto_router (host := plain_host)
                   [auto_router; gpt35] capped_args auto_router
                   (ArgNumber (of_Z 1)) eq_refl)
                eq_refl _).
  vm_compute. reflexivity.
Defined.

Lemma capability_filters_agree_with_marks_witness :
  nth_error (tableRow (host := plain_host) plain_args (of_Z 0) gpt35) 6
  = Some (green (Host := plain_host) check_mark).
Proof.
  refine (proj1 (proj2 (proj2 (capability_filters_agree_with_marks
                                 (host := plain_host)
                                 tools_args plain_args (of_Z 0) gpt35)
                              [gpt35] _)) eq_refl).
  vm_compute. now left.
Defined.

(** ** More on the sort engine *)

Lemma filter_Permutation {A} (p : A -> bool) (l l' : list A) :
  Permutation l l' -> Permutation (filter p l) (filter p l').
Proof.
  induction 1 as [|x l l' _ IH|x y l|l l' l'' _ IH1 _ IH2]; cbn [filter].
  - constructor.
  - destruct (p x); [now constructor | exact IH].
  - destruct (p x), (p y); try reflexivity. apply perm_swap.
  - now transitivity (filter p l').
Qed.

Lemma filter_Forall {A} (P : A -> Prop) (p : A -> bool) (l : list A) :
  Forall P l -> Forall P (filter p l).
Proof.
  rewrite !Forall_forall. intros H x Hx. apply filter_In in Hx. now apply H.
Qed.

Lemma filter_StronglySorted {A} (R : A -> A -> Prop) (p : A -> bool) (l : list A) :
  StronglySorted R l -> StronglySorted R (filter p l).
Proof.
  induction 1 as [|x l Hs IH Hall]; cbn [filter]; [constructor|].
  destruct (p x); [|exact IH]. constructor; [exact IH|].
  now apply filter_Forall.
Qed.

Lemma StronglySorted_snoc {A} (R : A -> A -> Prop) (l : list A) (x : A) :
  StronglySorted R l -> Forall (fun y => R y x) l -> StronglySorted R (l ++ [x]).
Proof.
  induction 1 as [|y l Hs IH Hall]; intros Hx; cbn [app].
  - repeat constructor.
  - inversion Hx as [|? ? Hyx Hx']; subst. constructor; [now apply IH|].
    apply Forall_app. split; [exact Hall|]. now constructor.
Qed.

Lemma rev_StronglySorted {A} (R : A -> A -> Prop) (l : list A) :
  StronglySorted R l -> StronglySorted (fun a b => R b a) (rev l).
Proof.
  induction 1 as [|x l Hs IH Hall]; cbn [rev]; [constructor|].
  apply StronglySorted_snoc; [exact IH|].
  apply Forall_rev. exact Hall.
Qed.

Lemma StronglySorted_after {A} (R : A -> A -> Prop) (front back : list A) (x : A) :
  StronglySorted R (front ++ x :: back) -> Forall (R x) back.
Proof.
  induction front as [|y front IH]; cbn [app]; intros H;
    inversion H; subst; auto.
Qed.

Section Sort_more.

Context {host : Host}.

Lemma in_order_flip (k : KeyFn) (desc : bool) (a b : Model) :
  in_order k (negb desc) b a <-> in_order k desc a b.
Proof. unfold in_order. now destruct desc. Qed.

(** The sorted list of comparable records, by the comparator itself. *)
Lemma stable_sort_compareModels_sorted (k : KeyFn) (desc : bool) (l : list Model) :
  keys_comparable k l ->
  StronglySorted (fun a b => (0 <? compareModels k desc a b) = false)
                 (stable_sort (compareModels k desc) l).
Proof.
  intros Hcmp. apply stable_sort_StronglySorted with (good := comparable k).
  - apply compareModels_antisym.
  - apply compareModels_trans.
  - exact Hcmp.
Qed.

Lemma stable_sort_compareModels_stable (k : KeyFn) (desc : bool) (m : Model)
      (l : list Model) :
  filter (same_key k m) (stable_sort (compareModels k desc) l)
  = filter (same_key k m) l.
Proof. apply filter_stable_sort. intros a b. apply same_key_together. Qed.

(** Any stable arrangement of comparable records is the one the sort
    returns. *)
Lemma stable_sort_compareModels_unique (k : KeyFn) (desc : bool)
      (l other : list Model) :
  keys_comparable k l ->
  Permutation l other ->
  StronglySorted (fun a b => (0 <? compareModels k desc a b) = false) other ->
  (forall m, filter (same_key k m) other = filter (same_key k m) l) ->
  stable_sort (compareModels k desc) l = other.
Proof.
  intros Hcmp P S F.
  apply stable_ordering_unique
    with (compareFn := compareModels k desc) (good := comparable k)
         (same := same_key k).
  - apply compareModels_antisym.
  - intros a b. now apply same_key_spec.
  - apply (Permutation_Forall (stable_sort_perm _ l)). exact Hcmp.
  - now rewrite <- (stable_sort_perm _ l).
  - now apply stable_sort_compareModels_sorted.
  - exact S.
  - intros x. now rewrite F, stable_sort_compareModels_stable.
Qed.

(** X9. Filtering and sorting commute.  For a recognized sort key and
    records whose keys can be compared (no price that parses to [NaN]),
    sorting the filtered records, as [main] does, gives the filtered
    sorted records: what a filter drops has no effect on the order of
    what it keeps. *)
Theorem sort_of_filtered_is_filtered_sort
        (models : list Model) (args : Args) (sortBy : jsstring) (desc : bool)
        (k : KeyFn) :
  keyMap sortBy = Some k ->
  keys_comparable k models ->
  exists sorted,
    sortModels models sortBy desc = Normal sorted
    /\ sortModels (filterModels models args) sortBy desc
       = Normal (filterModels sorted args).
Proof.
  intros Hk Hcmp. exists (stable_sort (compareModels k desc) models).
  split; [now apply sortModels_comparable|].
  assert (Hkept : keys_comparable k (filterModels models args))
    by (rewrite filterModels_passes; now apply filter_Forall).
  rewrite (@sortModels_comparable _ _ sortBy desc k Hk Hkept). f_equal.
  rewrite !filterModels_passes.
  apply stable_sort_compareModels_unique.
  - now apply filter_Forall.
  - apply filter_Permutation, stable_sort_perm.
  - apply filter_StronglySorted. now apply stable_sort_compareModels_sorted.
  - intros m. rewrite filter_filter_comm, stable_sort_compareModels_stable.
    apply filter_filter_comm.
Qed.

(** X10. The two directions mirror each other only through the input:
    for a recognized key and comparable records, sorting in one
    direction is the reverse of sorting the reversed input in the other
    direction. *)
Theorem descending_mirrors_ascending_of_reversed
        (models : list Model) (sortBy : jsstring) (desc : bool) (k : KeyFn) :
  keyMap sortBy = Some k ->
  keys_comparable k models ->
  exists mirrored,
    sortModels (rev models) sortBy (negb desc) = Normal mirrored
    /\ sortModels models sortBy desc = Normal (rev mirrored).
Proof.
  intros Hk Hcmp. exists (stable_sort (compareModels k (negb desc)) (rev models)).
  assert (Hrev : keys_comparable k (rev models)) by now apply Forall_rev.
  split; [now apply sortModels_comparable|].
  rewrite (@sortModels_comparable _ _ sortBy desc k Hk Hcmp). f_equal.
  apply stable_sort_compareModels_unique.
  - exact Hcmp.
  - rewrite <- (Permutation_rev (stable_sort _ (rev models))).
    rewrite <- (stable_sort_perm _ (rev models)). apply Permutation_rev.
  - eapply StronglySorted_impl;
      [|apply rev_StronglySorted, (stable_sort_compareModels_sorted k (negb desc));
        exact Hrev].
    intros a b H. cbv beta in H.
    apply compareModels_before. apply compareModels_before in H.
    now apply in_order_flip.
  - intros m. rewrite filter_rev, stable_sort_compareModels_stable.
    now rewrite <- filter_rev, rev_involutive.
Qed.

(** X11. [sortModels] neither loses nor invents a record, whatever the
    sort key.  When it returns, the result is a permutation of its
    input, and the input itself if the key is not one of [keyMap]'s own;
    it fails only with a [TypeError], only for a key found on
    [Object.prototype] that cannot be called this way, and only on two
    records or more; it never ends the process. *)
Theorem sortModels_keeps_the_records
        (models : list Model) (sortBy : jsstring) (desc : bool) :
  match sortModels models sortBy desc with
  | Normal sorted =>
      Permutation models sorted
      /\ List.length sorted = List.length models
      /\ (keyMap sortBy = None -> sorted = models)
  | Throw e =>
      kind e = TypeError
      /\ keyMap sortBy = None
      /\ array_includes Object_prototype_throwing sortBy = true
      /\ (2 <= List.length models)%nat
  | Exit _ => False
  end.
Proof.
  unfold sortModels. destruct (keyMap sortBy) as [k|].
  - pose proof (Array_sort_perm (compareModels k desc) models) as P.
    split; [exact P|]. split; [|discriminate].
    symmetry. now apply Permutation_length.
  - destruct (array_includes Object_prototype_methods sortBy).
    + rewrite Array_sort_constant. auto.
    + destruct (array_includes Object_prototype_throwing sortBy).
      * destruct models as [|a [|b l]]; auto.
        repeat split. cbn [List.length]. lia.
      * auto.
Qed.

(** X12. The auto-routing record sorts as the most expensive.  In a
    batch whose prompt prices all parse to numbers (no key is [NaN]),
    sorted by prompt price, a record with another id and a price below
    [Number.MAX_SAFE_INTEGER] stands before every occurrence of the
    auto-routing record in ascending order, and after it in descending
    order, whatever the pricing strings of the auto-routing record
    say. *)
Theorem auto_router_sorts_as_most_expensive
        (models sorted : list Model) (desc : bool) (a r : Model) :
  keys_comparable
    (NumberKey (fun m => getEffectivePrice (prompt (pricing m)) (id m))) models ->
  In a models -> In r models ->
  id r = AUTO_ROUTER -> id a <> AUTO_ROUTER ->
  num_lt (parseFloat (prompt (pricing a))) MAX_SAFE_INTEGER = true ->
  sortModels models (str "prompt_price") desc = Normal sorted ->
  if desc then precedes r a sorted else precedes a r sorted.
Proof.
  set (k := NumberKey (fun m => getEffectivePrice (prompt (pricing m)) (id m))).
  intros Hcmp Ha Hr Hidr Hida Hlt Hsort.
  rewrite (@sortModels_comparable _ models (str "prompt_price") desc k eq_refl Hcmp)
    in Hsort.
  injection Hsort as <-.
  assert (Hkey : key_lt k a r = true).
  { cbn [key_lt k]. unfold getEffectivePrice.
    rewrite Hidr, jsstring_eqb_refl.
    destruct (jsstring_eqb (id a) AUTO_ROUTER) eqn:E; [|exact Hlt].
    apply jsstring_eqb_eq in E. contradiction. }
  assert (Hne : a <> r) by (intros ->; contradiction).
  pose proof (stable_sort_compareModels_sorted k desc models Hcmp) as S.
  pose proof (stable_sort_perm (compareModels k desc) models) as P.
  assert (Hplace : forall x y front back,
             In x models -> x <> y ->
             (0 <? compareModels k desc y x) = true ->
             stable_sort (compareModels k desc) models = front ++ y :: back ->
             In x front /\ ~ In x back).
  { intros x y front back Hx Hxy Hc E. rewrite E in S, P.
    assert (Hback : ~ In x back).
    { intros Hin. apply StronglySorted_after in S.
      rewrite Forall_forall in S. specialize (S x Hin). cbv beta in S.
      congruence. }
    split; [|exact Hback].
    apply (Permutation_in _ P) in Hx. apply in_app_or in Hx.
    destruct Hx as [Hx|[Hx|Hx]]; [exact Hx | congruence | contradiction]. }
  destruct desc; intros front back E.
  - apply (Hplace r a front back Hr (not_eq_sym Hne)); [|exact E].
    rewrite compareModels_pos. exact Hkey.
  - apply (Hplace a r front back Ha Hne); [|exact E].
    rewrite compareModels_pos. exact Hkey.
Qed.

End Sort_more.

Lemma sort_of_filtered_is_filtered_sort_witness :
  exists sorted,
    sortModels (host := plain_host)
               [priced "b" "0.5"; priced "a" "0.1"; priced "c" "0.5"]
               (str "prompt_price") false = Normal sorted
    /\ sortModels (host := plain_host)
         (filterModels (host := plain_host)
            [priced "b" "0.5"; priced "a" "0.1"; priced "c" "0.5"] capped_args)
         (str "prompt_price") false
       = Normal (filterModels (host := plain_host) sorted capped_args).
Proof.
  apply (sort_of_filtered_is_filtered_sort (host := plain_host)
           [priced "b" "0.5"; priced "a" "0.1"; priced "c" "0.5"] capped_args
           (str "prompt_price") false
           (NumberKey (fun m => getEffectivePrice (prompt (pricing m)) (id m)))
           eq_refl).
  repeat (constructor; [vm_compute; reflexivity|]). constructor.
Defined.

Lemma descending_mirrors_ascending_of_reversed_witness :
  exists mirrored,
    sortModels (host := plain_host)
               (rev [named "Beta"; named "alpha"; named "Gamma"])
               (str "name") (negb true) = Normal mirrored
    /\ sortModels (host := plain_host)
                  [named "Beta"; named "alpha"; named "Gamma"] (str "name") true
       = Normal (rev mirrored).
Proof.
  apply (descending_mirrors_ascending_of_reversed (host := plain_host)
           [named "Beta"; named "alpha"; named "Gamma"] (str "name") true
           (StringKey (fun m => toLowerCase (name m))) eq_refl).
  repeat constructor.
Defined.

Lemma auto_router_sorts_as_most_expensive_witness :
  precedes gpt35 auto_router [gpt35; auto_router].
Proof.
  apply (auto_router_sorts_as_most_expensive (host := plain_host)
           [auto_router; gpt35] [gpt35; auto_router] false gpt35 auto_router).
  - repeat (constructor; [vm_compute; reflexivity|]). constructor.
  - right. now left.
  - now left.
  - reflexivity.
  - vm_compute. discriminate.
  - vm_compute. reflexivity.
  - vm_compute. reflexivity.
Defined.

Lemma validated_batch_round_trip_witness :
  Forall valid_model [gpt35]
  /\ OpenRouterModelsSchema (json_of_Models {| data := [gpt35] |})
     = Some {| data := [gpt35] |}.
Proof.
  apply (validated_batch_round_trip lean_catalog {| data := [gpt35] |}).
  vm_compute. reflexivity.
Defined.

(** ** More on the fetch orchestrator *)

Lemma effects_app (l1 l2 : list Event) :
  effects (l1 ++ l2) = effects l1 ++ effects l2.
Proof. apply filter_app. Qed.

Lemma effects_stderr (log : list Event) : Forall is_stderr log -> effects log = [].
Proof.
  induction 1 as [|e log [line ->] _ IH]; [reflexivity|]. exact IH.
Qed.

Lemma stdout_lines_app (l1 l2 : list Event) :
  stdout_lines (l1 ++ l2) = stdout_lines l1 ++ stdout_lines l2.
Proof.
  induction l1 as [|e l1 IH]; [reflexivity|].
  destruct e; cbn [app stdout_lines]; now rewrite IH.
Qed.

Lemma stdout_lines_effects (log : list Event) :
  stdout_lines (effects log) = stdout_lines log.
Proof.
  induction log as [|e log IH]; [reflexivity|].
  destruct e; cbn [effects filter is_stderrb negb stdout_lines]; fold (effects log);
    now rewrite ?IH.
Qed.

Section Fetch_more.

Context {host : Host}.
Variable env : Env.

(** The stale-fallback path only logs: the cache file and the clock are
    as they were. *)
Lemma stale_fallback_trace (w : World) :
  exists log,
    Forall is_stderr log
    /\ snd (stale_fallback_path w)
       = {| cache_file := cache_file w; ticks := ticks w;
            events := events w ++ log |}.
Proof.
  unfold stale_fallback_path. io_unfold. cbn [cache_file ticks events].
  destruct (cache_file w) as [|info [err|text]|err] eqn:F;
    [| |destruct (JSON_parse text) as [j|];
        [destruct (OpenRouterModelsSchema j)|]|];
    cbn [snd Deno_exit cache_file ticks events]; rewrite <- ?app_assoc;
    cbn [app]; eexists; (split; [|reflexivity]);
    repeat constructor; eexists; reflexivity.
Qed.

Lemma on_fetch_error_trace (error : Error) (w : World) :
  exists log,
    Forall is_stderr log
    /\ snd (on_fetch_error error w)
       = {| cache_file := cache_file w; ticks := ticks w;
            events := events w ++ log |}.
Proof.
  unfold on_fetch_error. io_unfold.
  destruct (is_kind ZodError error); cbn [cache_file ticks events];
    match goal with
    | |- context [stale_fallback_path ?w1] =>
        destruct (stale_fallback_trace w1) as (log & Hlog & ->)
    end;
    cbn [cache_file ticks events]; rewrite <- ?app_assoc; cbn [app];
    eexists; (split; [|reflexivity]);
    repeat (constructor; [eexists; reflexivity|]); exact Hlog.
Qed.

(** The network path, step by step: one request; the write of a fetched
    batch that validates; log lines. *)
Lemma network_path_trace (w : World) :
  exists log,
    events (snd (network_path env w)) = events w ++ log
    /\ effects log
       = HttpGet API_URL
           :: match fetched_batch env, write_error env with
              | Some d, None => [FileWritten (JSON_stringify (json_of_Models d))]
              | _, _ => []
              end
    /\ ticks (snd (network_path env w)) = ticks w
    /\ cache_file (snd (network_path env w))
       = match fetched_batch env, write_error env with
         | Some d, None =>
             Present {| mtime := Some (clock env (ticks w)) |}
                     (inr (JSON_stringify (json_of_Models d)))
         | Some _, Some (_, leftover) => leftover
         | None, _ => cache_file w
         end.
Proof.
  unfold fetched_batch. io_unfold. cbn [cache_file ticks events].
  assert (Hcatch : forall error f,
             exists log,
               events (snd (on_fetch_error error
                              {| cache_file := f; ticks := ticks w;
                                 events := (events w
                                            ++ [Stderr (dim (str "Fetching fresh model list from OpenRouter..."))])
                                           ++ [HttpGet API_URL] |}))
               = events w ++ log
               /\ effects log = [HttpGet API_URL]
               /\ ticks (snd (on_fetch_error error
                              {| cache_file := f; ticks := ticks w;
                                 events := (events w
                                            ++ [Stderr (dim (str "Fetching fresh model list from OpenRouter..."))])
                                           ++ [HttpGet API_URL] |})) = ticks w
               /\ cache_file (snd (on_fetch_error error
                              {| cache_file := f; ticks := ticks w;
                                 events := (events w
                                            ++ [Stderr (dim (str "Fetching fresh model list from OpenRouter..."))])
                                           ++ [HttpGet API_URL] |})) = f).
  { intros error f.
    match goal with
    | |- context [on_fetch_error error ?w1] =>
        destruct (on_fetch_error_trace error w1) as (log & Hlog & ->)
    end.
    cbn [cache_file ticks events]. rewrite <- !app_assoc. cbn [app].
    eexists. split; [reflexivity|]. split; [|split; reflexivity].
    cbn [effects filter is_stderrb negb]. fold (effects log).
    now rewrite (effects_stderr log Hlog). }
  destruct (fetch_result env) as [e|r]; [apply Hcatch|].
  destruct (ok r); [|apply Hcatch].
  destruct (body r) as [e|j]; [apply Hcatch|].
  destruct (OpenRouterModelsSchema j) as [d|]; [|apply Hcatch].
  destruct (write_error env) as [[e leftover]|]; [apply Hcatch|].
  cbn [snd cache_file ticks events]. rewrite <- !app_assoc. cbn [app].
  eexists. split; [reflexivity|]. repeat split.
Qed.

Lemma fetchModels_mkdir_failure (forceRefresh : bool) (w : World) (e : Error) :
  mkdir_failure env (cache_file w) = Some e ->
  fetchModels env forceRefresh w = (Throw e, w).
Proof.
  intros K. unfold fetchModels, mkdir_failure in *. unfold bind at 1.
  unfold Deno_mkdir. destruct (cache_file w); try discriminate; now rewrite K.
Qed.

(** The events of [fetchModels], apart from its log lines, and the
    cache file it leaves. *)
Lemma fetchModels_log (forceRefresh : bool) (w : World) :
  mkdir_failure env (cache_file w) = None ->
  exists log,
    events (snd (fetchModels env forceRefresh w)) = events w ++ log
    /\ effects log
       = match fresh_batch env forceRefresh w with
         | Some _ => []
         | None =>
             HttpGet API_URL
               :: match fetched_batch env, write_error env with
                  | Some d, None =>
                      [FileWritten (JSON_stringify (json_of_Models d))]
                  | _, _ => []
                  end
         end
    /\ (fresh_batch env forceRefresh w <> None \/ fetched_batch env = None ->
        cache_file (snd (fetchModels env forceRefresh w)) = cache_file w).
Proof.
  intros K. rewrite (fetchModels_after_mkdir env forceRefresh w K). unfold bind.
  destruct (fresh_batch env forceRefresh w) as [models|] eqn:B.
  - rewrite (cache_fresh_hit env forceRefresh w B). cbn [snd events cache_file ret].
    eexists. split; [reflexivity|]. split; reflexivity.
  - destruct (cache_fresh_miss env forceRefresh w B) as (n & log0 & Hlog0 & ->).
    match goal with
    | |- context [network_path env ?w1] =>
        destruct (network_path_trace w1) as (log & Hev & Heff & _ & Hfile)
    end.
    cbn [cache_file ticks events] in *.
    exists (log0 ++ log). rewrite app_assoc. split; [exact Hev|]. split.
    + now rewrite effects_app, (effects_stderr log0 Hlog0).
    + intros [Hfresh|Hnone]; [congruence|]. rewrite Hfile, Hnone. reflexivity.
Qed.

Lemma effects_without_stdout (log : list Event) :
  (forall line, ~ In (Stdout line) (effects log)) -> stdout_lines log = [].
Proof.
  intros Hno. rewrite <- stdout_lines_effects.
  induction (effects log) as [|e l IH]; [reflexivity|].
  destruct e as [line| | |]; cbn [stdout_lines];
    try (apply IH; intros d Hd; apply (Hno d); now right).
  exfalso. apply (Hno line). now left.
Qed.

(** [fetchModels] prints nothing on standard output. *)
Lemma fetchModels_quiet (forceRefresh : bool) (w : World) :
  stdout_lines (events (snd (fetchModels env forceRefresh w)))
  = stdout_lines (events w).
Proof.
  destruct (mkdir_failure env (cache_file w)) as [e|] eqn:K.
  - now rewrite (fetchModels_mkdir_failure forceRefresh w e K).
  - destruct (fetchModels_log forceRefresh w K) as (log & -> & Heff & _).
    rewrite stdout_lines_app, (effects_without_stdout log), app_nil_r;
      [reflexivity|].
    rewrite Heff. intros line.
    destruct (fresh_batch env forceRefresh w); [intros []|].
    intros [Hd|Hd]; [discriminate|].
    destruct (fetched_batch env); [|destruct Hd].
    destruct (write_error env); [destruct Hd|].
    destruct Hd as [Hd|[]]. discriminate.
Qed.

(** X13. What [fetchModels] does besides logging.  If the cache
    directory cannot be created it does nothing at all.  Otherwise it
    prints nothing on standard output; it issues no request when the
    cache-fresh path returns, and exactly one GET of the model-listing
    endpoint when it does not; it writes the cache file only then, at
    most once, and only the encoding of a batch that was fetched and
    passed the schema.  The cache file is left as it was unless such a
    batch was fetched. *)
Theorem fetchModels_side_effects (forceRefresh : bool) (w : World) :
  match mkdir_failure env (cache_file w) with
  | Some e => fetchModels env forceRefresh w = (Throw e, w)
  | None =>
      exists log,
        events (snd (fetchModels env forceRefresh w)) = events w ++ log
        /\ stdout_lines log = []
        /\ effects log
           = match fresh_batch env forceRefresh w with
             | Some _ => []
             | None =>
                 HttpGet API_URL
                   :: match fetched_batch env, write_error env with
                      | Some d, None =>
                          [FileWritten (JSON_stringify (json_of_Models d))]
                      | _, _ => []
                      end
             end
        /\ (fresh_batch env forceRefresh w <> None \/ fetched_batch env = None ->
            cache_file (snd (fetchModels env forceRefresh w)) = cache_file w)
  end.
Proof.
  destruct (mkdir_failure env (cache_file w)) as [e|] eqn:K.
  - now apply fetchModels_mkdir_failure.
  - destruct (fetchModels_log forceRefresh w K) as (log & Hev & Heff & Hfile).
    exists log. split; [exact Hev|]. split; [|split; [exact Heff | exact Hfile]].
    pose proof (fetchModels_quiet forceRefresh w) as Q.
    rewrite Hev, stdout_lines_app in Q.
    apply (f_equal (@List.length jsstring)) in Q.
    rewrite length_app in Q.
    destruct (stdout_lines log); [reflexivity|]. cbn [List.length] in Q. lia.
Qed.

(** X14. A valid cache is never lost to a failed fetch.  While the cache
    file holds a batch that validates, whatever its age, [fetchModels]
    returns a batch and does not end the process, provided a write it
    attempts succeeds: the cached batch when the request fails or the
    body does not validate, even with [--force-refresh]; with
    [--force-refresh] and a valid fetched batch, the fetched one and not
    the cached one. *)
Theorem valid_cache_always_yields_a_batch
        (forceRefresh : bool) (w : World) (models : list Model) :
  cached_batch (cache_file w) = Some models ->
  (fetched_batch env = None ->
   fst (fetchModels env forceRefresh w) = Normal models)
  /\ (forall d,
        fetched_batch env = Some d -> write_error env = None ->
        fst (fetchModels env forceRefresh w)
        = Normal (match fresh_batch env forceRefresh w with
                  | Some _ => models
                  | None => data d
                  end)
        /\ (forceRefresh = true ->
            fst (fetchModels env forceRefresh w) = Normal (data d))).
Proof.
  intros Hc.
  assert (Hfresh : forall m, fresh_batch env forceRefresh w = Some m -> m = models).
  { unfold fresh_batch. destruct (cache_file w) as [|info c|]; try discriminate.
    destruct (mtime info); try discriminate.
    destruct (negb forceRefresh && _); try discriminate. congruence. }
  assert (Hdir : mkdir_failure env (cache_file w) = None).
  { unfold mkdir_failure, cached_batch in *.
    destruct (cache_file w); try discriminate. reflexivity. }
  rewrite fetchModels_outcome. unfold fetch_outcome. rewrite Hdir.
  split.
  - intros Hnone. unfold network_batch, stale_file. rewrite Hnone.
    destruct (fresh_batch env forceRefresh w) as [m|] eqn:B.
    + now rewrite (Hfresh m).
    + unfold stale_result. now rewrite Hc.
  - intros d Hd Hw. unfold network_batch. rewrite Hd, Hw. split.
    + destruct (fresh_batch env forceRefresh w) as [m|] eqn:B;
        [now rewrite (Hfresh m)|reflexivity].
    + intros ->. unfold fresh_batch.
      destruct (cache_file w) as [|info c|]; try reflexivity.
      destruct (mtime info); reflexivity.
Qed.

End Fetch_more.

Section Two_runs.

Context {host : Host}.
Variables first second : Env.

(** X15. What one run writes, the next run reads.  When a run fetches a
    valid batch and writes it, the cache file holds its encoding,
    stamped with the clock of the write; if the host's JSON codec gives
    the encoding back when it reads that text, a later run without
    [--force-refresh] that finds the file less than 24 hours old returns
    the same batch, and all it does is write one line on the error
    stream: no request is issued. *)
Theorem next_run_reads_what_was_written
        (forceRefresh : bool) (w : World) (d : Models) :
  mkdir_failure first (cache_file w) = None ->
  fresh_batch first forceRefresh w = None ->
  fetched_batch first = Some d ->
  write_error first = None ->
  JSON_parse (JSON_stringify (json_of_Models d)) = Some (json_of_Models d) ->
  let w1 := snd (fetchModels first forceRefresh w) in
  exists t,
    cache_file w1
    = Present {| mtime := Some t |} (inr (JSON_stringify (json_of_Models d)))
    /\ (num_lt (ageHours (clock second (ticks w1)) t) CACHE_EXPIRATION_HOURS = true ->
        fetchModels second false w1
        = (Normal (data d),
           {| cache_file := cache_file w1; ticks := S (ticks w1);
              events := events w1
                        ++ [Stderr (dim (str "Loading models from cache..."))] |})).
Proof.
  intros Hdir Hmiss Hfetch Hwrite Hcodec w1.
  assert (Hvalid : OpenRouterModelsSchema (json_of_Models d) = Some d).
  { unfold fetched_batch in Hfetch.
    destruct (fetch_result first) as [|r]; [discriminate|].
    destruct (ok r); [|discriminate].
    destruct (body r) as [|j]; [discriminate|].
    apply (batch_round_trip j d Hfetch). }
  assert (Hfile : exists t,
             cache_file w1
             = Present {| mtime := Some t |}
                       (inr (JSON_stringify (json_of_Models d)))).
  { subst w1. rewrite (fetchModels_after_mkdir first forceRefresh w Hdir).
    unfold bind.
    destruct (cache_fresh_miss first forceRefresh w Hmiss) as (n & log0 & _ & ->).
    match goal with
    | |- context [network_path first ?w0] =>
        destruct (network_path_trace first w0) as (_ & _ & _ & _ & ->)
    end.
    rewrite Hfetch, Hwrite. eexists. reflexivity. }
  destruct Hfile as (t & Hfile). exists t. split; [exact Hfile|].
  intros Hage.
  assert (Hfresh : fresh_batch second false w1 = Some (data d)).
  { unfold fresh_batch, cached_batch. rewrite Hfile. cbn [mtime negb andb].
    rewrite Hage, Hcodec, Hvalid. reflexivity. }
  rewrite (fetchModels_after_mkdir second false w1).
  - unfold bind. rewrite (cache_fresh_hit second false w1 Hfresh). reflexivity.
  - unfold mkdir_failure. now rewrite Hfile.
Qed.

End Two_runs.

(** ** The run as a whole *)

Section Pipeline.

Context {host : Host}.
Variable env : Env.

Lemma for_each_console_log {A} (line : A -> jsstring) (l : list A) (w : World) :
  for_each (fun x => console_log (line x)) l w
  = (Normal tt,
     {| cache_file := cache_file w; ticks := ticks w;
        events := events w ++ map (fun x => Stdout (line x)) l |}).
Proof.
  revert w. induction l as [|x l IH]; intros w; cbn [for_each map].
  - unfold ret. rewrite app_nil_r. now destruct w.
  - unfold bind, console_log, emit. rewrite IH. cbn [cache_file ticks events].
    now rewrite <- app_assoc.
Qed.

Lemma for_each_timed (line : number -> Model -> jsstring) (l : list Model)
      (w : World) :
  for_each (fun m => bind (age_reading env (created m))
                          (fun now => console_log (line now m))) l w
  = (Normal tt,
     {| cache_file := cache_file w;
        ticks := (ticks w
                  + List.length
                      (filter (fun m => negb (timestamp_unknown (created m))) l))%nat;
        events := events w
                  ++ map (fun r => Stdout (line (fst r) (snd r)))
                         (readings env (ticks w) l) |}).
Proof.
  revert w. induction l as [|x l IH]; intros w; cbn [for_each].
  - unfold ret. cbn [readings filter List.length map].
    rewrite app_nil_r, Nat.add_0_r. now destruct w.
  - unfold bind at 1. unfold bind at 1. unfold age_reading.
    cbn [readings filter].
    destruct (timestamp_unknown (created x));
      unfold Date_now, ret, console_log, emit; rewrite IH;
      cbn [cache_file ticks events negb List.length map fst snd];
      rewrite <- app_assoc; cbn [app]; f_equal; f_equal; lia.
Qed.

Lemma stdout_lines_map {A} (line : A -> jsstring) (l : list A) :
  stdout_lines (map (fun x => Stdout (line x)) l) = map line l.
Proof. induction l as [|x l IH]; cbn; [reflexivity | now rewrite IH]. Qed.

Lemma outputAsCsv_prints (models : list Model) (args : Args) (w : World) :
  stdout_lines (events (snd (outputAsCsv models args w)))
  = stdout_lines (events w) ++ csv_lines args models.
Proof.
  unfold outputAsCsv, csv_lines. unfold bind at 1. unfold console_log at 1, emit.
  rewrite for_each_console_log. cbn [snd events].
  rewrite !stdout_lines_app, stdout_lines_map, <- app_assoc. reflexivity.
Qed.

Lemma outputAsTable_prints (models : list Model) (args : Args) (w : World) :
  stdout_lines (events (snd (outputAsTable env models args w)))
  = stdout_lines (events w) ++ table_lines env args (ticks w) models.
Proof.
  unfold outputAsTable, table_lines. unfold bind at 1. unfold console_log at 1, emit.
  rewrite for_each_timed. cbn [snd events ticks].
  rewrite !stdout_lines_app, stdout_lines_map, <- app_assoc. reflexivity.
Qed.

Lemma outputAsMarkdown_prints (models : list Model) (args : Args) (w : World) :
  stdout_lines (events (snd (outputAsMarkdown env models args w)))
  = stdout_lines (events w) ++ markdown_lines env args (ticks w) models.
Proof.
  unfold outputAsMarkdown, markdown_lines. unfold bind at 1.
  unfold console_log at 1, emit. unfold bind at 1. unfold console_log at 1, emit.
  rewrite for_each_timed. cbn [snd events ticks].
  rewrite !stdout_lines_app, stdout_lines_map, <- !app_assoc. reflexivity.
Qed.

(** X16. The run as a pipeline.  When [fetchModels] returns a batch and
    the sort returns, the lines on standard output are exactly the
    rendering of the batch filtered, then sorted: nothing of the fetch
    is printed there.  [--output json] prints the one encoded array,
    [csv] a header and a line per record, [md] and [md-verbose] two
    header lines and a line per record; any other value of [--output]
    gives the table.  Table and markdown read the clock, from where
    [fetchModels] left it, once for each record whose creation time is
    known, in order; for a record whose creation time is 0 the clock is
    not read. *)
Theorem run_prints_the_sorted_filtered_batch
        (args : Args) (f : File) (models sorted : list Model) :
  help args = false -> version args = false ->
  fst (fetchModels env (force_refresh args) (initial f)) = Normal models ->
  sortModels (filterModels models args) (sort_by args) (desc args) = Normal sorted ->
  let t := ticks (snd (fetchModels env (force_refresh args) (initial f))) in
  fst (run env args f) = Normal tt
  /\ stdout_lines (events (snd (run env args f)))
     = if jsstring_eqb (output args) (str "json")
       then [JSON_stringify (JArray (map json_of_Model sorted))]
       else if jsstring_eqb (output args) (str "csv")
       then csv_lines args sorted
       else if jsstring_eqb (output args) (str "md")
               || jsstring_eqb (output args) (str "md-verbose")
       then markdown_lines env args t sorted
       else table_lines env args t sorted.
Proof.
  intros Hh Hv Hfetch Hsort t.
  assert (Hquiet : stdout_lines
                     (events (snd (fetchModels env (force_refresh args) (initial f))))
                   = []).
  { now rewrite fetchModels_quiet. }
  assert (Hrun : run env args f
                 = (if jsstring_eqb (output args) (str "json")
                    then outputAsJson sorted
                    else if jsstring_eqb (output args) (str "csv")
                    then outputAsCsv sorted args
                    else if jsstring_eqb (output args) (str "md")
                            || jsstring_eqb (output args) (str "md-verbose")
                    then outputAsMarkdown env sorted args
                    else outputAsTable env sorted args)
                     (snd (fetchModels env (force_refresh args) (initial f)))).
  { unfold run, main. rewrite Hh, Hv. unfold bind, lift.
    destruct (fetchModels env (force_refresh args) (initial f)) as [c w1].
    cbn [fst snd] in *. subst c. now rewrite Hsort. }
  rewrite Hrun. subst t.
  destruct (jsstring_eqb (output args) (str "json")).
  { split; [reflexivity|]. unfold outputAsJson, console_log, emit.
    cbn [snd events]. now rewrite stdout_lines_app, Hquiet. }
  destruct (jsstring_eqb (output args) (str "csv")).
  { split; [apply outputAsCsv_normal|]. now rewrite outputAsCsv_prints, Hquiet. }
  destruct (jsstring_eqb (output args) (str "md")
            || jsstring_eqb (output args) (str "md-verbose")).
  { split; [apply outputAsMarkdown_normal|].
    now rewrite outputAsMarkdown_prints, Hquiet. }
  split; [apply outputAsTable_normal|]. now rewrite outputAsTable_prints, Hquiet.
Qed.

End Pipeline.

(** ** More on the filters and the views *)

Section Views.

Context {host : Host}.

Lemma num_le_nan_r (x y : number) : is_nan y = true -> num_le x y = false.
Proof. destruct y; try discriminate. intros _. now destruct x. Qed.

Lemma num_le_nan_l (x y : number) : is_nan x = true -> num_le x y = false.
Proof. destruct x; try discriminate. intros _. now destruct y. Qed.

Lemma filter_none {A} (p : A -> bool) (l : list A) :
  (forall x, p x = false) -> filter p l = [].
Proof.
  intros H. induction l as [|x l IH]; [reflexivity|].
  cbn [filter]. now rewrite H.
Qed.

(** X17. A bound that is not a number drops every record.  When the
    value given to [--min-prompt-price], [--max-prompt-price],
    [--min-context] or [--max-context] converts to [NaN], no comparison
    with it holds and [filterModels] returns the empty sequence: the
    value is not rejected, and it is not ignored. *)
Theorem bound_that_is_not_a_number_drops_all
        (models : list Model) (args : Args) (b : ArgValue) :
  In (Some b) [min_prompt_price args; max_prompt_price args;
               min_context args; max_context args] ->
  is_nan (ToNumber b) = true ->
  filterModels models args = [].
Proof.
  intros Hin Hnan. rewrite filterModels_passes. apply filter_none. intros m.
  unfold passes.
  destruct Hin as [H|[H|[H|[H|[]]]]]; rewrite H; cbn [within]; unfold num_ge;
    rewrite ?(num_le_nan_l _ _ Hnan), ?(num_le_nan_r _ _ Hnan);
    rewrite ?andb_false_r; reflexivity.
Qed.

Lemma is_free_price (m : Model) :
  is_free m = true ->
  jsstring_eqb (id m) AUTO_ROUTER = false
  /\ num_eq (parseFloat (prompt (pricing m))) pos_zero = true.
Proof.
  unfold is_free, getEffectivePrice.
  destruct (jsstring_eqb (id m) AUTO_ROUTER); [discriminate | auto].
Qed.

(** X18. What the free filter keeps is shown as free.  A record that
    passes [--free] has its prompt price rendered as "0.00", and as the
    infinity sign with [--invert-price] -- never as a quotient by zero
    -- by [formatPrice] and in the prompt-price cell of its table
    row. *)
Theorem free_records_show_a_zero_price
        (models : list Model) (args shown : Args) (now : number) (m : Model) :
  free args = true ->
  In m (filterModels models args) ->
  formatPrice (prompt (pricing m)) (invert_price shown) (Some (id m))
  = (if invert_price shown then infinity_sign else str "0.00")
  /\ nth_error (tableRow shown now m) 1
     = Some (if invert_price shown then str "     " ++ infinity_sign
             else str "  0.00").
Proof.
  intros Hfree Hin. rewrite filterModels_passes, filter_In in Hin.
  destruct Hin as [_ Hp]. unfold passes in Hp. rewrite !andb_true_iff in Hp.
  destruct Hp as [[[[[[[[[_ Hp] _] _] _] _] _] _] _] _].
  rewrite Hfree in Hp. cbn [negb orb] in Hp.
  destruct (is_free_price m Hp) as [Hid Hzero].
  assert (E : formatPrice (prompt (pricing m)) (invert_price shown) (Some (id m))
              = (if invert_price shown then infinity_sign else str "0.00")).
  { unfold formatPrice. now rewrite Hid, Hzero. }
  split; [exact E|]. unfold tableRow. cbn [nth_error]. rewrite E.
  now destruct (invert_price shown).
Qed.

Lemma padEnd_length (n : nat) (s : jsstring) :
  List.length (padEnd n s) = Nat.max n (List.length s).
Proof. unfold padEnd, spaces. rewrite length_app, repeat_length. lia. Qed.

Lemma padStart_length (n : nat) (s : jsstring) :
  List.length (padStart n s) = Nat.max n (List.length s).
Proof. unfold padStart, spaces. rewrite length_app, repeat_length. lia. Qed.

(** X19. The columns of the three views.  A table row has the nine
    cells of the table header and a CSV row the ten fields of the CSV
    header.  In the markdown view the separator line and the rows have
    the same number of cells, ten when verbose and eight otherwise, but
    the header line always has ten: without [md-verbose] two of them
    are empty, and the header is two cells wider than the rows below
    it. *)
Theorem columns_of_the_views (args : Args) (now : number) (m : Model) :
  (List.length (tableRow args now m) = 9%nat
   /\ List.length (tableHeaders (invert_price args)) = 9%nat)
  /\ (List.length (csvRow args m) = 10%nat
      /\ List.length (csvHeaders (invert_price args)) = 10%nat)
  /\ (List.length (map or_empty (markdownHeaders args)) = 10%nat
      /\ List.length (map dashes (non_null (markdownHeaders args)))
         = List.length (non_null (markdownRow args now m))
      /\ List.length (non_null (markdownRow args now m))
         = (if is_verbose args then 10%nat else 8%nat)
      /\ (is_verbose args = false ->
          nth_error (map or_empty (markdownHeaders args)) 1 = Some []
          /\ nth_error (map or_empty (markdownHeaders args)) 2 = Some [])).
Proof.
  split; [split; reflexivity|]. split; [split; reflexivity|].
  unfold markdownHeaders, markdownRow.
  destruct (is_verbose args); repeat split; discriminate.
Qed.

(** X20. The widths of the table cells.  The id cell is the id cut to
    45 code units, or to 80 with [--long], and padded to 45: without
    [--long] it is exactly 45 wide whatever the id.  The price, context
    and age cells are padded to 6, 6, 10 and 7 and never cut. *)
Theorem widths_of_the_table_cells (args : Args) (now : number) (m : Model) :
  (exists cell,
      nth_error (tableRow args now m) 0 = Some (dim cell)
      /\ List.length cell
         = Nat.max 45 (Nat.min (if long args then 80 else 45)
                               (List.length (id m)))
      /\ (long args = false -> List.length cell = 45%nat)
      /\ firstn (if long args then 80 else 45) (id m)
         = firstn (Nat.min (if long args then 80 else 45) (List.length (id m)))
                  cell)
  /\ (forall i width content,
        In (i, width, content)
           [(1%nat, 6%nat,
             formatPrice (prompt (pricing m)) (invert_price args) (Some (id m)));
            (2%nat, 6%nat,
             formatPrice (completion (pricing m)) (invert_price args)
                         (Some (id m)));
            (3%nat, 10%nat, toLocaleString (context_length m));
            (4%nat, 7%nat, getHumanReadableAge now (created m))] ->
        exists cell pad,
          nth_error (tableRow args now m) i = Some cell
          /\ cell = pad ++ content
          /\ List.length cell = Nat.max width (List.length content)).
Proof.
  split.
  - exists (padEnd 45 (substring0 (if long args then 80 else 45) (id m))).
    split; [reflexivity|].
    assert (L : List.length (padEnd 45 (substring0 (if long args then 80 else 45)
                                                    (id m)))
                = Nat.max 45 (Nat.min (if long args then 80 else 45)
                                      (List.length (id m)))).
    { rewrite padEnd_length. unfold substring0. now rewrite length_firstn. }
    split; [exact L|]. split.
    + intros Hl. rewrite L, Hl. lia.
    + unfold padEnd, substring0.
      rewrite firstn_app, length_firstn, Nat.sub_diag. cbn [firstn].
      rewrite app_nil_r, firstn_firstn.
      set (cut := if long args then 80%nat else 45%nat).
      destruct (Nat.le_gt_cases cut (List.length (id m))) as [Hle|Hgt].
      * f_equal. lia.
      * replace (Nat.min (Nat.min cut (List.length (id m))) cut)
          with (List.length (id m)) by lia.
        rewrite firstn_all. apply firstn_all2. lia.
  - intros i width content Hin.
    destruct Hin as [E|[E|[E|[E|[]]]]]; injection E as <- <- <-;
      eexists _, _; (split; [reflexivity|]);
      (split; [reflexivity|]); apply padStart_length.
Qed.

End Views.

Lemma bound_that_is_not_a_number_drops_all_witness :
  filterModels (host := plain_host) [gpt35; auto_router] unreadable_bound_args = [].
Proof.
  apply (bound_that_is_not_a_number_drops_all (host := plain_host)
           [gpt35; auto_router] unreadable_bound_args (ArgString (str "many"))).
  - right. right. now left.
  - vm_compute. reflexivity.
Defined.

Lemma free_records_show_a_zero_price_witness :
  formatPrice (host := plain_host) (str "0") false (Some (str "a")) = str "0.00".
Proof.
  apply (free_records_show_a_zero_price (host := plain_host)
           [priced "a" "0"; priced "b" "0.5"] (set_free true plain_args)
           plain_args (of_Z 0) (priced "a" "0")).
  - reflexivity.
  - vm_compute. now left.
Defined.

Lemma valid_cache_always_yields_a_batch_witness :
  fst (fetchModels (host := plain_host) (offline 0) true (initial cached_catalog))
  = Normal [gpt35].
Proof.
  apply (valid_cache_always_yields_a_batch (host := plain_host)
           (offline 0) true (initial cached_catalog) [gpt35]).
  - vm_compute. reflexivity.
  - reflexivity.
Defined.

Lemma next_run_reads_what_was_written_witness :
  let w1 := snd (fetchModels (host := plain_host) (answering 0 None) false
                             (initial Absent)) in
  exists t,
    cache_file w1
    = Present {| mtime := Some t |}
              (inr (JSON_stringify (Host := plain_host)
                      (json_of_Models {| data := [gpt35] |})))
    /\ (num_lt (ageHours (clock (answering 0 None) (ticks w1)) t)
               CACHE_EXPIRATION_HOURS = true ->
        fetchModels (host := plain_host) (answering 0 None) false w1
        = (Normal [gpt35],
           {| cache_file := cache_file w1; ticks := S (ticks w1);
              events := events w1
                        ++ [Stderr (dim (Host := plain_host)
                                      (str "Loading models from cache..."))] |})).
Proof.
  apply (next_run_reads_what_was_written (host := plain_host)
           (answering 0 None) (answering 0 None) false (initial Absent)
           {| data := [gpt35] |});
    vm_compute; reflexivity.
Defined.

Lemma run_prints_the_sorted_filtered_batch_witness :
  stdout_lines
    (events (snd (run (host := plain_host) (answering 0 None) csv_args
                      cached_catalog)))
  = csv_lines (host := plain_host) csv_args [gpt35].
Proof.
  apply (run_prints_the_sorted_filtered_batch (host := plain_host)
           (answering 0 None) csv_args cached_catalog [gpt35] [gpt35]);
    vm_compute; reflexivity.
Defined.

(** ** Validity through the pipeline *)

Section Valid_output.

Context {host : Host}.

Lemma sortModels_Permutation (models sorted : list Model) (sortBy : jsstring)
      (desc : bool) :
  sortModels models sortBy desc = Normal sorted -> Permutation models sorted.
Proof.
  unfold sortModels. destruct (keyMap sortBy) as [k|].
  - intros [= <-]. apply Array_sort_perm.
  - destruct (array_includes Object_prototype_methods sortBy).
    + intros [= <-]. now rewrite Array_sort_constant.
    + destruct (array_includes Object_prototype_throwing sortBy).
      * destruct models as [|a [|b l]]; intros H; try discriminate;
          now injection H as <-.
      * now intros [= <-].
Qed.

(** X21. Filtering and sorting keep a validated batch valid, and
    [--output json] prints records that validate.  The records of a
    batch that passed the schema, filtered and sorted, still have
    integer numeric fields, they are records of the batch, and the
    array [outputAsJson] encodes is one the array schema of
    [ModelSchema] accepts, yielding the sorted records again. *)
Theorem printed_records_validate
        (j : json) (d : Models) (args : Args) (sorted : list Model) :
  OpenRouterModelsSchema j = Some d ->
  sortModels (filterModels (data d) args) (sort_by args) (desc args)
  = Normal sorted ->
  Forall valid_model sorted
  /\ (forall m, In m sorted -> In m (data d))
  /\ Zod.array ModelSchema (JArray (map json_of_Model sorted)) = Some sorted.
Proof.
  intros Hd Hsort. apply sortModels_Permutation in Hsort.
  assert (Hvalid : Forall valid_model sorted).
  { apply (Permutation_Forall Hsort). rewrite filterModels_passes.
    apply filter_Forall. exact (batch_valid j d Hd). }
  split; [exact Hvalid|]. split.
  - intros m Hm. apply (Permutation_in _ (Permutation_sym Hsort)) in Hm.
    rewrite filterModels_passes in Hm. now apply filter_In in Hm.
  - cbn [Zod.array]. now apply Models_round_trip.
Qed.

End Valid_output.

Lemma printed_records_validate_witness :
  Forall valid_model [gpt35]
  /\ (forall m, In m [gpt35] -> In m [gpt35])
  /\ Zod.array ModelSchema (JArray (map json_of_Model [gpt35])) = Some [gpt35].
Proof.
  apply (printed_records_validate (host := plain_host)
           lean_catalog {| data := [gpt35] |} plain_args [gpt35]);
    vm_compute; reflexivity.
Defined.
